(** * The direct-to-S3 upload job of the Forge Data Management client

    A shallow embedding of package [dm] (the upload job: [newUploadJob],
    [uploadFile], [getParts], [getSignedUploadUrls], [uploadChunk],
    [completeUpload], [addOrSetHeader], [getSignedS3UploadPath]; the
    operations on objects: [UploadObject], [DownloadObject], [ListObjects],
    [listObjects], [getSignedDownloadUrl], [downloadObjectUsingSignedUrl])
    and the properties of its behaviour.

    Go values are modelled as follows.
    - [int] and [int64] are 64-bit: a [Z] with the wrap-around written out.
    - [[]byte] is a [list byte]; a [*bytes.Buffer] is an index into a store
      of unread byte sequences, so that a buffer handed to several calls is
      one shared object.
    - [url.Values] and [http.Header] (both [map[string][]string]) are finite
      maps from strings to lists of strings; the names of headers are taken
      up to their canonical form.
    - A URL is the string that the code builds; the keys of buckets and
      objects go into it as they are, so that the query arguments that
      package [net/url] finds in it are part of every request.
    - Everything outside the package (the authenticator, the HTTP transport,
      the parser of URLs, the file system, the JSON codec) is an interface,
      [Externals], over an arbitrary world; the code is a function in a state
      monad that also collects the trace of its interactions with that
      world. *)

From Stdlib Require Import ZArith Lia.
From Stdlib Require Import Strings.String Strings.Ascii Strings.Byte.
From Stdlib Require Import Numbers.DecimalString Numbers.DecimalPos Numbers.DecimalZ.
From stdpp Require Import gmap strings list.

Local Open Scope Z_scope.

(** ** Go integers *)

(** Two's complement reduction to 64 bits. *)
Definition wrap64 (z : Z) : Z := (z + 2 ^ 63) mod 2 ^ 64 - 2 ^ 63.

Definition int_add (a b : Z) : Z := wrap64 (a + b).
Definition int_sub (a b : Z) : Z := wrap64 (a - b).
Definition int_mul (a b : Z) : Z := wrap64 (a * b).
(** Go's [/] truncates towards zero. *)
Definition int_quo (a b : Z) : Z := wrap64 (Z.quot a b).

Definition in_int64 (z : Z) : Prop := - 2 ^ 63 <= z < 2 ^ 63.

(** [strconv.Itoa], and [%v] on an integer. *)
Definition Itoa (z : Z) : string := NilZero.string_of_int (Z.to_int z).

Definition newline : string := String (ascii_of_nat 10) EmptyString.

(** ** Go errors *)

Inductive error : Type :=
| io_EOF
| errorString (s : string)
| wrapError (msg : string) (err : error).

(** The [Error()] method. *)
Definition Error (e : error) : string :=
  match e with
  | io_EOF => "EOF"
  | errorString s => s
  | wrapError msg _ => msg
  end.

Definition errors_New (text : string) : error := errorString text.

(** [fmt.Errorf(before + "%w", err)]: every wrapping format of the package
    ends in its [%w] verb. *)
Definition fmt_Errorf_w (before : string) (err : error) : error :=
  wrapError (before +:+ Error err) err.

Definition errors_Unwrap (e : error) : option error :=
  match e with
  | wrapError _ err => Some err
  | _ => None
  end.

(** [err == io.EOF] *)
Definition is_EOF (e : error) : bool :=
  match e with
  | io_EOF => true
  | _ => false
  end.

(** ** Strings *)

(** [strings.Split(s, c)] for a separator of one byte: the fields of a
    text, with [cur] for what was read of the first. *)
Fixpoint fields (c : ascii) (cur : string) (s : string) : list string :=
  match s with
  | EmptyString => [cur]
  | String x s' =>
      if decide (x = c) then cur :: fields c "" s'
      else fields c (cur +:+ String x EmptyString) s'
  end.

(** [strings.Join(elems, sep)] *)
Fixpoint strings_Join (elems : list string) (sep : string) : string :=
  match elems with
  | [] => ""
  | [e] => e
  | e :: rest => e +:+ sep +:+ strings_Join rest sep
  end.

(** ** Slices of bytes *)

(** [l[:n]] and [l[n:]], clamped to the length of [l], with the count as
    a [Z]. *)
Fixpoint takeZ {A : Type} (n : Z) (l : list A) : list A :=
  match l with
  | [] => []
  | x :: l' => if n <=? 0 then [] else x :: takeZ (n - 1) l'
  end.

Fixpoint dropZ {A : Type} (n : Z) (l : list A) : list A :=
  match l with
  | [] => []
  | x :: l' => if n <=? 0 then l else dropZ (n - 1) l'
  end.

Definition lenZ {A : Type} (l : list A) : Z := Z.of_nat (length l).

(** ** Constants of the package *)

(** megaByte is 1048576 byte *)
Definition megaByte : Z := Z.shiftl 1 20.
(** maxParts is the maximum number of parts returned by the
    "signeds3upload" endpoint. *)
Definition maxParts : Z := 25.
Definition signedS3UploadEndpoint : string := "signeds3upload".
(** minutesExpiration is the expiration period of the signed upload URLs. *)
Definition minutesExpiration : Z := 60.
(** defaultSize is the default size of download/upload chunks. *)
Definition defaultSize : Z := 100 * megaByte.

Definition time_Second : Z := 1000000000.
Definition http_StatusOK : Z := 200.

(** ** Data *)

(** Modelled from the spec: the declaration of [BucketAPI] is not among the
    sources. The record has what the upload job uses of it: the path of the
    bucket API, and [HostPath] for the result of
    [api.Authenticator.GetHostPath()] (spec 6, "Authenticator"). *)
Record BucketAPI := {
  HostPath : string;
  BucketAPIPath : string
}.

(** Modelled from the spec: the declaration of [uploadJob] is not among the
    sources. The fields are those that [newUploadJob] assigns, with the
    types at which the code uses them (spec 3, "UploadJob"). *)
Record uploadJob := {
  api : BucketAPI;
  bucketKey : string;
  objectKey : string;
  fileToUpload : string;
  job_minutesExpiration : Z;
  uploadKey : string;
  fileSize : Z;
  totalParts : Z;
  numberOfBatches : Z
}.

(** Modelled from the spec: the declaration of [signedUploadUrls] is not
    among the sources. The fields are those that [uploadFile] reads: the
    upload key and the URLs in the order of their parts (spec 3,
    "SignedURLBatch"). *)
Record signedUploadUrls := {
  UploadKey : string;
  Urls : list string
}.

(** Modelled from the spec: the declaration of [UploadResult] is not among
    the sources (spec 6, finalize response: "identifier, size,
    location"). *)
Record UploadResult := {
  ObjectId : string;
  ObjectSize : Z;
  Location : string
}.

(** Modelled from the spec: the bearer token that [GetToken] returns is
    declared outside the sources; the code reads its access token only. *)
Record Bearer := { AccessToken : string }.

(** signedDownloadUrl reflects the response from the "signeds3download"
    endpoint. *)
Record signedDownloadParams := {
  ContentType : string;
  ContentDisposition : string
}.

Record signedDownloadUrl := {
  Status : string;
  Url : string;
  Params : signedDownloadParams;
  Size : Z;
  Sha1 : string
}.

Definition zero_signedUploadUrls : signedUploadUrls :=
  {| UploadKey := ""; Urls := [] |}.
Definition zero_UploadResult : UploadResult :=
  {| ObjectId := ""; ObjectSize := 0; Location := "" |}.

Definition set_uploadKey (job : uploadJob) (k : string) : uploadJob :=
  {| api := api job; bucketKey := bucketKey job; objectKey := objectKey job;
     fileToUpload := fileToUpload job;
     job_minutesExpiration := job_minutesExpiration job;
     uploadKey := k; fileSize := fileSize job; totalParts := totalParts job;
     numberOfBatches := numberOfBatches job |}.

(** ** HTTP requests and responses *)

(** [URL] is the URL as it was given to [http.NewRequest]; [Query] is
    [req.URL.Query()], the query arguments of the request: at first those of
    the URL itself, then what [req.URL.RawQuery = q.Encode()] assigns.
    [Body] is the [*bytes.Buffer] the request reads its payload from, if
    any. *)
Record Request := {
  Method : string;
  URL : string;
  Query : gmap string (list string);
  Header : gmap string (list string);
  ContentLength : Z;
  Body : option nat
}.

(** [Content] and [ReadErr] are what [io.ReadAll(response.Body)] returns. *)
Record Response := {
  StatusCode : Z;
  Content : list byte;
  ReadErr : option error
}.

(** [Values.Get], [Header.Get]: the first value of the key, or "". *)
Definition Values_Get (v : gmap string (list string)) (key : string) : string :=
  match v !! key with
  | Some (x :: _) => x
  | _ => ""
  end.

(** [Values.Add], [Header.Add]: appends to the values of the key. *)
Definition Values_Add (v : gmap string (list string)) (key value : string)
  : gmap string (list string) :=
  <[key := default [] (v !! key) ++ [value]]> v.

(** [Header.Set]: replaces the values of the key. *)
Definition Values_Set (v : gmap string (list string)) (key value : string)
  : gmap string (list string) :=
  <[key := [value]]> v.

Definition with_Header (req : Request) (h : gmap string (list string)) : Request :=
  {| Method := Method req; URL := URL req; Query := Query req; Header := h;
     ContentLength := ContentLength req; Body := Body req |}.

Definition with_Query (req : Request) (q : gmap string (list string)) : Request :=
  {| Method := Method req; URL := URL req; Query := q; Header := Header req;
     ContentLength := ContentLength req; Body := Body req |}.

Definition with_ContentLength (req : Request) (l : Z) : Request :=
  {| Method := Method req; URL := URL req; Query := Query req;
     Header := Header req; ContentLength := l; Body := Body req |}.

Definition addOrSetHeader (req : Request) (key value : string) : Request :=
  if decide (Values_Get (Header req) key = "")
  then with_Header req (Values_Add (Header req) key value)
  else with_Header req (Values_Set (Header req) key value).

(** ** The trace of a run *)

Inductive Event : Type :=
| EvToken (scope : string)
  (** a call of [Authenticator.GetToken] *)
| EvHttp (req : Request) (payload : list byte) (consumed : nat)
         (res : Response + error)
  (** one [http.Client.Do]: the request, the bytes its body held when it was
      sent, how many of them the transport read, and the outcome *)
| EvRead (off : Z) (data : list byte) (err : option error)
  (** one [file.Read] at offset [off] *)
| EvSleep (d : Z).
  (** [time.Sleep] between two attempts *)

(** ** The world outside the package *)

Class Externals (W : Type) := {
  (** [Authenticator.GetToken(scope)] *)
  GetToken : string -> W -> (Bearer + error) * W;
  (** the error of [http.NewRequest(method, url, _)], which validates the
      method and parses the URL *)
  NewRequest_err : string -> string -> option error;
  (** [req.URL.Query()] of the request that [http.NewRequest] makes of the
      URL: the query arguments that package [net/url] parses out of it, none
      for a URL without a question mark *)
  URL_Query : string -> gmap string (list string);
  (** [http.Client.Do]: given the request and the bytes its body holds, how
      many of these bytes are read, and the response or the error *)
  Transport : Request -> list byte -> W -> (nat * (Response + error)) * W;
  (** [os.Stat(name)], reduced to [Size()] *)
  Stat : string -> W -> Z + error;
  (** [os.Open(name)]: the content of the file *)
  Open : string -> W -> list byte + error;
  (** whether the next [file.Read] fails with an I/O error *)
  ReadFault : W -> option string * W;
  (** [json.NewDecoder(response.Body).Decode(&result)] *)
  Decode_signedUploadUrls : Response -> signedUploadUrls + error;
  Decode_UploadResult : Response -> UploadResult + error;
  (** [json.Marshal] of the body of the completion request *)
  Marshal_completeBody : string -> Z -> list byte
}.

(** ** The monad of the code: world, buffers, trace *)

(** The store [heap] holds the unread bytes of every [bytes.Buffer]
    allocated so far; a [*bytes.Buffer] is its index. *)
Record State (W : Type) := {
  world : W;
  heap : list (list byte)
}.
Arguments world {W} _.
Arguments heap {W} _.

Definition M (W A : Type) : Type := State W -> A * State W * list Event.

Definition ret {W A : Type} (a : A) : M W A := fun s => (a, s, []).

Definition bind {W A B : Type} (m : M W A) (k : A -> M W B) : M W B :=
  fun s =>
    let '(a, s1, t1) := m s in
    let '(b, s2, t2) := k a s1 in
    (b, s2, t1 ++ t2).

Notation "'let*' x ':=' m 'in' k" := (bind m (fun x => k))
  (at level 10, x pattern, m at level 100, k at level 200).

Definition result_of {W A : Type} (r : A * State W * list Event) : A := r.1.1.
Definition state_of {W A : Type} (r : A * State W * list Event) : State W := r.1.2.
Definition trace_of {W A : Type} (r : A * State W * list Event) : list Event := r.2.

Section Package.

Context {W : Type} `{Externals W}.

Local Abbreviation M := (M W).

(** *** Runtime primitives *)

Definition time_Sleep (d : Z) : M unit := fun s => (tt, s, [EvSleep d]).

(** [bytes.NewBuffer(buf)] *)
Definition bytes_NewBuffer (buf : list byte) : M nat :=
  fun s => (length (heap s), {| world := world s; heap := heap s ++ [buf] |}, []).

Definition unread (s : State W) (p : nat) : list byte := default [] (heap s !! p).

(** [buffer.Len()] *)
Definition Buffer_Len (p : nat) : M Z := fun s => (lenZ (unread s p), s, []).

(** [http.NewRequest(method, url, body)]: for a [*bytes.Buffer] body the
    content length is the buffer's length. The URL is taken as it is given,
    with whatever query arguments it has of its own: the package builds its
    URLs from the keys of the bucket and of the object without escaping
    them, so a key with a question mark in it gives the request a query. *)
Definition http_NewRequest (method url : string) (body : option nat)
  : M (Request * option error) :=
  fun s =>
    let req := {| Method := method; URL := url; Query := URL_Query url;
                  Header := ∅;
                  ContentLength := match body with
                                   | Some p => lenZ (unread s p)
                                   | None => 0
                                   end;
                  Body := body |} in
    ((req, NewRequest_err method url), s, []).

(** [task.Do(req)]: the transport reads the body from the buffer itself,
    which keeps only what was not read. *)
Definition Client_Do (req : Request) : M (Response + error) :=
  fun s =>
    let payload := match Body req with
                   | Some p => unread s p
                   | None => []
                   end in
    let '(n, res, w) := Transport req payload (world s) in
    let hp := match Body req with
              | Some p => <[p := drop n payload]> (heap s)
              | None => heap s
              end in
    (res, {| world := w; heap := hp |}, [EvHttp req payload n res]).

(** An open file: its content and the cursor of the sequential reads. *)
Record File := {
  contents : list byte;
  offset : Z
}.

(** [os.Open(name)] *)
Definition os_Open (name : string) : M (File + error) :=
  fun s =>
    match Open name (world s) with
    | inl c => (inl {| contents := c; offset := 0 |}, s, [])
    | inr e => (inr e, s, [])
    end.

(** [file.Read(b)] with [len(b) = n]: the next [n] bytes (fewer at the end
    of the file), [io.EOF] when none is left, or an I/O error. *)
Definition File_Read (f : File) (n : Z) : M (list byte * option error * File) :=
  fun s =>
    let '(fault, w) := ReadFault (world s) in
    let s' := {| world := w; heap := heap s |} in
    match fault with
    | Some msg =>
        (([], Some (errorString msg), f), s',
         [EvRead (offset f) [] (Some (errorString msg))])
    | None =>
        match takeZ n (dropZ (offset f) (contents f)) with
        | [] => (([], Some io_EOF, f), s', [EvRead (offset f) [] (Some io_EOF)])
        | data =>
            ((data, None,
              {| contents := contents f; offset := offset f + lenZ data |}),
             s', [EvRead (offset f) data None])
        end
    end.

(** The elements that [path.Clean] keeps of the elements [elems] of a
    path, in their order; [kept] holds those kept so far, the last one
    first. Empty elements and [.] are dropped; [..] drops the element kept
    last, unless there is none: then it is dropped in a rooted path and kept
    in another, where it then stays. *)
Fixpoint clean_elements (rooted : bool) (kept elems : list string) : list string :=
  match elems with
  | [] => rev kept
  | e :: rest =>
      if decide (e = "") then clean_elements rooted kept rest
      else if decide (e = ".") then clean_elements rooted kept rest
      else if decide (e = "..") then
        match kept with
        | last_kept :: kept' =>
            if decide (last_kept = "..")
            then clean_elements rooted (e :: kept) rest
            else clean_elements rooted kept' rest
        | [] =>
            if rooted then clean_elements rooted [] rest
            else clean_elements rooted [e] rest
        end
      else clean_elements rooted (e :: kept) rest
  end.

(** [path.Clean]: the shortest path equivalent to the given one. *)
Definition path_Clean (path : string) : string :=
  match path with
  | EmptyString => "."
  | String c _ =>
      let rooted := bool_decide (c = "/"%char) in
      let body := strings_Join (clean_elements rooted [] (fields "/" "" path)) "/" in
      if rooted then "/" +:+ body
      else if decide (body = "") then "." else body
  end.

(** [path.Join]: the elements from the first non-empty one on, separated by
    slashes, and the result cleaned; the empty string when all are
    empty. *)
Fixpoint path_joined (buf : string) (elem : list string) : string :=
  match elem with
  | [] => buf
  | e :: rest =>
      if decide (buf = "")
      then (if decide (e = "") then path_joined buf rest
            else path_joined e rest)
      else path_joined (buf +:+ "/" +:+ e) rest
  end.

Definition path_Join (elem : list string) : string :=
  if decide (path_joined "" elem = "") then ""
  else path_Clean (path_joined "" elem).

(** Modelled from the spec: [retry.Do] of the imported package
    [github.com/thedevsaddam/retry] is not among the sources. Spec 4.4:
    a fixed attempt count and a fixed wait interval between attempts; any
    failure of the operation is retried alike; exhausting the attempts
    returns the last error. [retry_more more] makes one attempt and up to
    [more] further ones. *)
Fixpoint retry_more {R : Type} (more : nat) (sleep : Z)
    (fn : M (R * option error)) : M (R + error) :=
  let* (r, err) := fn in
  match err with
  | None => ret (inl r)
  | Some e =>
      match more with
      | O => ret (inr e)
      | S more' => let* _ := time_Sleep sleep in retry_more more' sleep fn
      end
  end.

Definition retry_Do {R : Type} (attempt : nat) (sleep : Z)
    (fn : M (R * option error)) : M (R + error) :=
  retry_more (attempt - 1) sleep fn.

(** *** The upload job *)

Definition newUploadJob (api : BucketAPI)
    (bucketKey objectName fileToUpload : string) : M (uploadJob * option error) :=
  fun s =>
    let job := {| api := api; bucketKey := bucketKey; objectKey := objectName;
                  fileToUpload := fileToUpload;
                  job_minutesExpiration := minutesExpiration;
                  uploadKey := ""; fileSize := 0; totalParts := 0;
                  numberOfBatches := 0 |} in
    match Stat fileToUpload (world s) with
    | inr err => ((job, Some err), s, [])
    | inl size =>
        let totalParts := int_add (int_quo size defaultSize) 1 in
        ({| api := api; bucketKey := bucketKey; objectKey := objectName;
            fileToUpload := fileToUpload;
            job_minutesExpiration := minutesExpiration;
            uploadKey := "";
            fileSize := size;
            totalParts := totalParts;
            numberOfBatches := int_add (int_quo totalParts maxParts) 1 |},
         None, s, [])
    end.

(** getParts gets the number of parts that must be processed in this
    batch. *)
Definition getParts (job : uploadJob) (partsCounter : Z) : Z :=
  if totalParts job <? int_add partsCounter maxParts
  then int_sub (totalParts job) partsCounter
  else maxParts.

Definition getSignedS3UploadPath (job : uploadJob) : string :=
  HostPath (api job) +:+
  path_Join [BucketAPIPath (api job); bucketKey job; "objects"; objectKey job;
             signedS3UploadEndpoint].

Definition authenticate (job : uploadJob) : M (string * option error) :=
  fun s =>
    let '(r, w) := GetToken "data:write data:read" (world s) in
    let s' := {| world := w; heap := heap s |} in
    match r with
    | inr err => (("", Some err), s', [EvToken "data:write data:read"])
    | inl bearer => ((AccessToken bearer, None), s', [EvToken "data:write data:read"])
    end.

Definition status_error (response : Response) : error :=
  errors_New ("[" +:+ Itoa (StatusCode response) +:+ "] " +:+
              string_of_list_byte (Content response)).

(** getSignedUploadUrls calls the signedS3UploadEndpoint *)
Definition getSignedUploadUrls (job : uploadJob) (firstPart parts : Z)
  : M (signedUploadUrls * option error) :=
  let* (accessToken, err) := authenticate job in
  match err with
  | Some e => ret (zero_signedUploadUrls, Some e)
  | None =>
      let* (req, err) := http_NewRequest "GET" (getSignedS3UploadPath job) None in
      match err with
      | Some e => ret (zero_signedUploadUrls, Some e)
      | None =>
          let req := addOrSetHeader req "Authorization" ("Bearer " +:+ accessToken) in
          let q := Query req in
          let q := if decide (uploadKey job = "") then q
                   else Values_Add q "uploadKey" (uploadKey job) in
          let q := Values_Add q "firstPart" (Itoa firstPart) in
          let q := Values_Add q "parts" (Itoa parts) in
          let q := Values_Add q "minutesExpiration"
                     (Itoa (job_minutesExpiration job)) in
          let req := with_Query req q in
          let* res := Client_Do req in
          match res with
          | inr e => ret (zero_signedUploadUrls, Some e)
          | inl response =>
              if decide (StatusCode response = http_StatusOK)
              then match Decode_signedUploadUrls response with
                   | inl result => ret (result, None)
                   | inr e => ret (zero_signedUploadUrls, Some e)
                   end
              else ret (zero_signedUploadUrls, Some (status_error response))
          end
      end
  end.

(** uploadChunk uploads a chunk of bytes to a given signedUrl. *)
Definition uploadChunk (signedUrl : string) (buffer : nat)
  : M (unit * option error) :=
  let* (req, err) := http_NewRequest "PUT" signedUrl (Some buffer) in
  match err with
  | Some e => ret (tt, Some e)
  | None =>
      let* l := Buffer_Len buffer in
      let req := with_ContentLength req l in
      let req := addOrSetHeader req "Content-Type" "application/octet-stream" in
      let req := addOrSetHeader req "Content-Length" (Itoa l) in
      let* res := Client_Do req in
      match res with
      | inr e => ret (tt, Some e)
      | inl response =>
          if decide (StatusCode response = http_StatusOK)
          then ret (tt, None)
          else ret (tt, Some (status_error response))
      end
  end.

(** completeUpload instructs OSS to complete the object creation process
    after the bytes have been uploaded directly to S3. *)
Definition completeUpload (job : uploadJob) : M (UploadResult * option error) :=
  let* (accessToken, err) := authenticate job in
  match err with
  | Some e => ret (zero_UploadResult, Some e)
  | None =>
      let bodyJson := Marshal_completeBody (uploadKey job) (fileSize job) in
      let* body := bytes_NewBuffer bodyJson in
      let* (req, err) := http_NewRequest "POST" (getSignedS3UploadPath job) (Some body) in
      match err with
      | Some e => ret (zero_UploadResult, Some e)
      | None =>
          let req := addOrSetHeader req "Authorization" ("Bearer " +:+ accessToken) in
          let req := addOrSetHeader req "Content-Type" "application/json" in
          let req := addOrSetHeader req "x-ads-meta-Content-Type"
                       "application/octet-stream" in
          let* res := Client_Do req in
          match res with
          | inr e => ret (zero_UploadResult, Some e)
          | inl response =>
              if decide (StatusCode response = http_StatusOK)
              then match Decode_UploadResult response with
                   | inl result => ret (result, None)
                   | inr e => ret (zero_UploadResult, Some e)
                   end
              else ret (zero_UploadResult, Some (status_error response))
          end
      end
  end.

(** The annotated errors of [uploadFile]:
    [fmt.Errorf("Error getting signed URLs for parts %v-%v :\n%w", firstPart, parts, err)],
    [fmt.Errorf("Error reading the file to upload:\n%w", err)],
    [fmt.Errorf("Error uploading a chunk to URL:\n- %v\n%w", url, err)],
    [fmt.Errorf("Error completing the upload:\n%w", err)]. *)
Definition urls_failure (firstPart parts : Z) (err : error) : error :=
  fmt_Errorf_w ("Error getting signed URLs for parts " +:+ Itoa firstPart +:+ "-"
                +:+ Itoa parts +:+ " :" +:+ newline) err.

Definition read_failure (err : error) : error :=
  fmt_Errorf_w ("Error reading the file to upload:" +:+ newline) err.

Definition chunk_failure (url : string) (err : error) : error :=
  fmt_Errorf_w ("Error uploading a chunk to URL:" +:+ newline +:+ "- " +:+ url
                +:+ newline) err.

Definition complete_failure (err : error) : error :=
  fmt_Errorf_w ("Error completing the upload:" +:+ newline) err.

(** The loop over [uploadUrls.Urls] in [uploadFile]: upload the file in
    chunks to the signed url(s). The first component of the result is the
    value of the loop's own variable [err] at a [return] statement inside
    the loop, and [None] when the range is exhausted. *)
Fixpoint uploadParts (urls : list string) (file : File)
  : M (option error * File) :=
  match urls with
  | [] => ret (None, file)
  | url :: urls' =>
      (* read a chunk of the file *)
      let* (bytesSlice, err, file) := File_Read file defaultSize in
      let bytesRead := lenZ bytesSlice in
      match (match err with
             | Some e =>
                 if is_EOF e then None
                 else Some (read_failure e)
             | None => None
             end) with
      | Some e => ret (Some e, file)
      | None =>
          (* upload the chunk to the signed URL *)
          if 0 <? bytesRead then
            let* buffer := bytes_NewBuffer bytesSlice in
            let* r := retry_Do 3 (3 * time_Second) (uploadChunk url buffer) in
            match r with
            | inr e =>
                ret (Some (chunk_failure url e), file)
            | inl _ => uploadParts urls' file
            end
          else uploadParts urls' file
      end
  end.

(** The loop [for i := 0; i < job.numberOfBatches; i++] of [uploadFile],
    with [n] iterations left: [n] is [job.numberOfBatches - i], and the
    loop changes neither. The first component of the result is as for
    [uploadParts]; the job comes back because the receiver is a pointer and
    the loop assigns [job.uploadKey]. *)
Fixpoint batches (n : nat) (i partsCounter : Z) (job : uploadJob) (file : File)
  : M (option error * uploadJob * File) :=
  match n with
  | O => ret (None, job, file)
  | S n' =>
      let firstPart := int_add (int_mul i maxParts) 1 in
      let parts := getParts job partsCounter in
      (* generate signed S3 upload url(s) *)
      let* tmpResult :=
        retry_Do 3 (3 * time_Second) (getSignedUploadUrls job firstPart parts) in
      match tmpResult with
      | inr e =>
          ret (Some (urls_failure firstPart parts e), job, file)
      | inl uploadUrls =>
          (* remember the uploadKey when requesting signed URLs for the
             first time *)
          let job := if decide (i = 0) then set_uploadKey job (UploadKey uploadUrls)
                     else job in
          let* (err, file) := uploadParts (Urls uploadUrls) file in
          match err with
          | Some e => ret (Some e, job, file)
          | None =>
              batches n' (int_add i 1) (int_add partsCounter maxParts) job file
          end
      end
  end.

(** [uploadFile]. The results are the named result parameters [result] and
    [err], and the job as the call leaves it.

    Inside the two loops, [tmpResult, err := retry.Do(...)] (line 106) and
    [bytesRead, err := file.Read(...)] (line 124) declare variables [err] of
    the loop bodies. The assignments [err = fmt.Errorf(...)] of lines 108,
    127 and 138 are to these, the bare [return] statements after them
    return the result parameters, and of these [err] was last assigned by
    [os.Open] and is nil, and [result] was never assigned. (The Go
    specification allows a compiler to refuse a bare [return] where the
    result parameter is shadowed; this is what the statement means where it
    is accepted.) The declaration of line 148 is in the function's own block
    and assigns the result parameter. *)
Definition uploadFile (job : uploadJob)
  : M (UploadResult * option error * uploadJob) :=
  let* opened := os_Open (fileToUpload job) in
  match opened with
  | inr e => ret (zero_UploadResult, Some e, job)
  | inl file =>
      let* (loop_err, job, file) :=
        batches (Z.to_nat (numberOfBatches job)) 0 0 job file in
      match loop_err with
      | Some _ => ret (zero_UploadResult, None, job)
      | None =>
          (* complete the upload *)
          let* tmpResult := retry_Do 3 (3 * time_Second) (completeUpload job) in
          match tmpResult with
          | inr e =>
              ret (zero_UploadResult, Some (complete_failure e), job)
          | inl result => ret (result, None, job)
          end
      end
  end.

(** UploadObject adds to specified bucket the given data. *)
Definition UploadObject (a : BucketAPI) (bucketKey objectName fileToUpload : string)
  : M (UploadResult * option error) :=
  let* (job, err) := newUploadJob a bucketKey objectName fileToUpload in
  match err with
  | Some e => ret (zero_UploadResult, Some e)
  | None =>
      let* (r, _) := uploadFile job in
      ret r
  end.

(** *** The signed download *)

Definition downloadObjectUsingSignedUrl (s : signedDownloadUrl)
  : M (list byte * option error) :=
  let* (req, err) := http_NewRequest "GET" (Url s) None in
  match err with
  | Some e => ret ([], Some e)
  | None =>
      let* res := Client_Do req in
      match res with
      | inr e => ret ([], Some e)
      | inl response =>
          if decide (StatusCode response = http_StatusOK)
          then
            let result := Content response in
            match ReadErr response with
            | Some e => ret (result, Some e)
            | None =>
                let receivedSize := lenZ result in
                if decide (receivedSize = Size s) then ret (result, None)
                else ret (result,
                          Some (errors_New
                                  ("the file size doesn't match, expected " +:+
                                   Itoa (Size s) +:+ ", but received " +:+
                                   Itoa receivedSize)))
            end
          else ret ([], Some (status_error response))
      end
  end.

End Package.

(** The error with which the loop over the URLs returns after a read:
    none at the end of the file. *)
Definition read_exit (err : option error) : option error :=
  match err with
  | Some e => if is_EOF e then None else Some (read_failure e)
  | None => None
  end.

(** A job as [newUploadJob] plans it: the part and batch counts are those
    computed from the size of the file. *)
Definition planned (job : uploadJob) : Prop :=
  0 <= fileSize job < 2 ^ 63 /\
  totalParts job = fileSize job / defaultSize + 1 /\
  numberOfBatches job = totalParts job / maxParts + 1.

(** ** The requests in closed form *)

(** The request that [uploadChunk] sends for a buffer of [l] unread bytes:
    its query is that of the signed URL. *)
Definition chunk_request {W : Type} `{Externals W}
    (signedUrl : string) (buffer : nat) (l : Z) : Request :=
  {| Method := "PUT"; URL := signedUrl; Query := URL_Query signedUrl;
     Header := <["Content-Length" := [Itoa l]]>
                 {["Content-Type" := ["application/octet-stream"]]};
     ContentLength := l; Body := Some buffer |}.

(** The request that [downloadObjectUsingSignedUrl] sends: its query is
    that of the signed URL. *)
Definition download_request {W : Type} `{Externals W} (s : signedDownloadUrl)
  : Request :=
  {| Method := "GET"; URL := Url s; Query := URL_Query (Url s); Header := ∅;
     ContentLength := 0; Body := None |}.

(** The error of an operation from the outcome of its round trip, where the
    body of a 200 response is not looked at. *)
Definition outcome_error (res : Response + error) : option error :=
  match res with
  | inr e => Some e
  | inl response =>
      if decide (StatusCode response = http_StatusOK) then None
      else Some (errors_New ("[" +:+ Itoa (StatusCode response) +:+ "] " +:+
                             string_of_list_byte (Content response)))
  end.

(** The query arguments that the signeds3upload URL of a job has of its
    own. *)
Definition own_query {W : Type} `{Externals W} (job : uploadJob)
  : gmap string (list string) :=
  URL_Query (getSignedS3UploadPath job).

(** The values of a query argument. *)
Definition Values_of (v : gmap string (list string)) (key : string) : list string :=
  default [] (v !! key).

(** The query of the request that [getSignedUploadUrls] sends: the
    arguments of the URL, and appended to them the upload key, if the job
    has one, the first part, the number of parts and the expiration. *)
Definition signed_query {W : Type} `{Externals W} (job : uploadJob)
    (firstPart parts : Z) : gmap string (list string) :=
  Values_Add
    (Values_Add
       (Values_Add
          (if decide (uploadKey job = "") then own_query job
           else Values_Add (own_query job) "uploadKey" (uploadKey job))
          "firstPart" (Itoa firstPart))
       "parts" (Itoa parts))
    "minutesExpiration" (Itoa (job_minutesExpiration job)).

(** ** Reading a trace *)

(** The request of a round trip made with the given method. *)
Definition http_with (method : string) (ev : Event) : option Request :=
  match ev with
  | EvHttp req _ _ _ => if decide (Method req = method) then Some req else None
  | _ => None
  end.

(** The value that a request gives a query argument itself: the code
    appends it to the values that the URL has for the argument, so it is the
    last of the values ("" when there is none). *)
Definition Values_Last (v : gmap string (list string)) (key : string) : string :=
  default "" (last (Values_of v key)).

(** The [firstPart] and [parts] that a request for signed URLs asks for. *)
Definition batch_request (ev : Event) : option (string * string) :=
  match http_with "GET" ev with
  | Some req =>
      Some (Values_Last (Query req) "firstPart", Values_Last (Query req) "parts")
  | None => None
  end.

Definition batch_requests (tr : list Event) : list (string * string) :=
  omap batch_request tr.

(** The reads of the file: offset, bytes returned, error. *)
Definition file_read (ev : Event) : option (Z * list byte * option error) :=
  match ev with
  | EvRead off data err => Some (off, data, err)
  | _ => None
  end.

(** Every read of the file, with the event that follows it in the trace. *)
Fixpoint reads_then (tr : list Event)
  : list (Z * list byte * option error * option Event) :=
  match tr with
  | [] => []
  | EvRead off data err :: tr' => (off, data, err, head tr') :: reads_then tr'
  | _ :: tr' => reads_then tr'
  end.

Definition is_completion (ev : Event) : Prop :=
  is_Some (http_with "POST" ev).

Definition is_completion_b (ev : Event) : bool :=
  match http_with "POST" ev with
  | Some _ => true
  | None => false
  end.

(** The events of the completion phase: token requests, the completion
    request, pauses. *)
Definition completion_event (ev : Event) : Prop :=
  match ev with
  | EvToken _ => True
  | EvHttp req _ _ _ => Method req = "POST"
  | EvRead _ _ _ => False
  | EvSleep _ => True
  end.

(** The events of the transfer of chunks: reads of the file, uploads,
    pauses. *)
Definition chunk_event (ev : Event) : Prop :=
  match ev with
  | EvToken _ => False
  | EvHttp req _ _ _ => Method req = "PUT"
  | EvRead _ _ _ => True
  | EvSleep _ => True
  end.

(** The events of a call of [getSignedUploadUrls job firstPart parts] and
    of its repetition: token requests, pauses, and GET requests with these
    parameters and the upload key of the job. *)
Definition get_event {W : Type} `{Externals W} (job : uploadJob)
    (firstPart parts : Z) (ev : Event) : Prop :=
  match ev with
  | EvToken _ => True
  | EvHttp req payload _ _ =>
      Method req = "GET" /\ payload = [] /\
      Query req = signed_query job firstPart parts
  | EvRead _ _ _ => False
  | EvSleep _ => True
  end.

(** The events of a call of [completeUpload job] and of its repetition:
    token requests, pauses, and POST requests whose payload is the
    marshalled upload key and file size of the job. *)
Definition post_event {W : Type} `{Externals W} (job : uploadJob) (ev : Event) : Prop :=
  match ev with
  | EvToken _ => True
  | EvHttp req payload _ _ =>
      Method req = "POST" /\
      payload = Marshal_completeBody (uploadKey job) (fileSize job)
  | EvRead _ _ _ => False
  | EvSleep _ => True
  end.

(** The events of the batch loop: no completion request among them. *)
Definition upload_event (ev : Event) : Prop :=
  match ev with
  | EvHttp req _ _ _ => Method req = "GET" \/ Method req = "PUT"
  | _ => True
  end.

(** The events of the transfer of one chunk: uploads and pauses. *)
Definition transfer_event (ev : Event) : Prop :=
  match ev with
  | EvHttp req _ _ _ => Method req = "PUT"
  | EvSleep _ => True
  | _ => False
  end.

(** A read followed by more of the trace: the event that follows it, if it
    was the last one. *)
Definition patch_next (next : option Event)
    (r : Z * list byte * option error * option Event)
  : Z * list byte * option error * option Event :=
  (r.1, match r.2 with
        | Some ev => Some ev
        | None => next
        end).

(** The request of batch [i] according to the plan: first part 25 i + 1,
    number of parts min(25, totalParts - 25 i). *)
Definition planned_request (totalParts : Z) (i : nat) : string * string :=
  (Itoa (Z.of_nat i * 25 + 1), Itoa (Z.min 25 (totalParts - 25 * Z.of_nat i))).

(** The requests of a run that makes [c] attempts at batch [i], for the
    attempt counts [c] listed from batch [i] on. *)
Fixpoint requests_of_plan (totalParts : Z) (i : nat) (attempts : list nat)
  : list (string * string) :=
  match attempts with
  | [] => []
  | c :: attempts' =>
      replicate c (planned_request totalParts i) ++
      requests_of_plan totalParts (S i) attempts'
  end.

(** The bytes read from the file in the course of a run, in the order of
    the reads. *)
Definition read_data (ev : Event) : option (list byte) :=
  match ev with
  | EvRead _ data _ => Some data
  | _ => None
  end.

Definition bytes_read (tr : list Event) : list byte :=
  concat (omap read_data tr).

Section Observations.

Context {W : Type} `{Externals W}.

(** The batch of signed URLs that a round trip delivers: the answer to a
    GET with status 200 and a body that decodes. *)
Definition accepted (ev : Event) : option signedUploadUrls :=
  match ev with
  | EvHttp req _ _ (inl response) =>
      if decide (Method req = "GET") then
        if decide (StatusCode response = http_StatusOK) then
          match Decode_signedUploadUrls response with
          | inl u => Some u
          | inr _ => None
          end
        else None
      else None
  | _ => None
  end.

(** The signed URLs issued in the course of a run, in the order of issue. *)
Definition issued (tr : list Event) : list string :=
  concat (map Urls (omap accepted tr)).

(** What a signed-URL request and a completion request carry of the upload
    key [k]. A request for signed URLs of the job passes a key that is not
    empty as the value of its [uploadKey] query argument: appended to the
    values that the URL of the job has for the argument, and so the only
    value when the URL has none; an empty key is passed by adding nothing.
    A completion request has the key as the [uploadKey] of its marshalled
    body. *)
Definition carries (job : uploadJob) (k : string) (ev : Event) : Prop :=
  match ev with
  | EvHttp req payload _ _ =>
      (Method req = "GET" ->
         Values_of (Query req) "uploadKey" =
           Values_of (own_query job) "uploadKey" ++
           (if decide (k = "") then [] else [k]) /\
         (k <> "" -> Values_Last (Query req) "uploadKey" = k) /\
         (own_query job !! "uploadKey" = None ->
            Values_Get (Query req) "uploadKey" = k /\
            (k <> "" -> Query req !! "uploadKey" = Some [k]))) /\
      (Method req = "POST" ->
         payload = Marshal_completeBody k (fileSize job))
  | _ => True
  end.

(** The batches delivered in the course of a run: for each, the
    [firstPart] parameter of its request and the number of URLs issued
    before it, counted from [before] on. *)
Fixpoint deliveries (before : Z) (tr : list Event) : list (string * Z) :=
  match tr with
  | [] => []
  | ev :: tr' =>
      match accepted ev with
      | Some u =>
          (match batch_request ev with
           | Some (firstPart, _) => firstPart
           | None => ""
           end, before) :: deliveries (before + lenZ (Urls u)) tr'
      | None => deliveries before tr'
      end
  end.

(** A request for signed URLs appends its [firstPart] and its [parts] to
    the values that the URL of the job has for these arguments. *)
Definition appends (job : uploadJob) (ev : Event) : Prop :=
  match http_with "GET" ev with
  | Some req =>
      Values_of (Query req) "firstPart" =
        Values_of (own_query job) "firstPart" ++
        [Values_Last (Query req) "firstPart"] /\
      Values_of (Query req) "parts" =
        Values_of (own_query job) "parts" ++ [Values_Last (Query req) "parts"]
  | None => True
  end.

(** A request for signed URLs has no other value for [firstPart] and for
    [parts] than its own. *)
Definition single_valued (ev : Event) : Prop :=
  match http_with "GET" ev with
  | Some req =>
      Query req !! "firstPart" = Some [Values_Last (Query req) "firstPart"] /\
      Query req !! "parts" = Some [Values_Last (Query req) "parts"]
  | None => True
  end.

End Observations.

(** The [k]-th chunk of a file. *)
Definition chunk (c : list byte) (k : Z) : list byte :=
  takeZ defaultSize (dropZ (k * defaultSize) c).

(** The round trips of a run: the method of each, and the status of its
    answer (0 for none). *)
Definition round_trips_of (tr : list Event) : list (string * Z) :=
  omap (fun ev => match ev with
                  | EvHttp req _ _ (inl response) =>
                      Some (Method req, StatusCode response)
                  | EvHttp req _ _ (inr _) => Some (Method req, 0)
                  | _ => None
                  end) tr.

(** The pauses of a run. *)
Definition pauses (tr : list Event) : list Z :=
  omap (fun ev => match ev with
                  | EvSleep d => Some d
                  | _ => None
                  end) tr.

(** The uploads of a run: for each, the signed URL, the bytes sent, the
    content length declared, and the status of the answer (0 for none). *)
Definition transfers (tr : list Event) : list (string * string * Z * Z) :=
  omap (fun ev => match ev with
                  | EvHttp req payload _ res =>
                      if decide (Method req = "PUT")
                      then Some (URL req, string_of_list_byte payload,
                                 ContentLength req,
                                 match res with
                                 | inl response => StatusCode response
                                 | inr _ => 0
                                 end)
                      else None
                  | _ => None
                  end) tr.

(** ** The order of the chunks *)

Section Order.

Context {W : Type} `{Externals W}.

(** What the [k]-th read of a file of content [c] is, when the chunk read
    is for the signed URL [url]: it is made at the offset of chunk [k] (at
    the end of the file when the file is shorter); when it succeeds it
    returns chunk [k], which is not empty, and the next event is the upload
    of exactly these bytes to [url], with their number as content length
    (unless [http.NewRequest] refuses the URL); when it fails it returns no
    bytes, and at the end of the file chunk [k] is empty. *)
Definition read_in_order (c : list byte) (k : Z) (url : string)
    (r : Z * list byte * option error * option Event) : Prop :=
  let '(off, data, err, next) := r in
  off = Z.min (k * defaultSize) (lenZ c) /\
  match err with
  | None =>
      data = chunk c k /\ data <> [] /\
      (NewRequest_err "PUT" url = None ->
       exists p n res,
         next = Some (EvHttp (chunk_request url p (lenZ data)) data n res))
  | Some e => data = [] /\ (is_EOF e = true -> chunk c k = [])
  end.

(** The reads [rs] are the reads number [k], [k + 1], ... of the file, for
    the URLs [urls] in their order. *)
Fixpoint reads_in_order (c : list byte) (k : Z) (urls : list string)
    (rs : list (Z * list byte * option error * option Event)) {struct rs} : Prop :=
  match rs, urls with
  | [], _ => True
  | r :: rs', url :: urls' =>
      read_in_order c k url r /\ reads_in_order c (k + 1) urls' rs'
  | _ :: _, [] => False
  end.

End Order.

(** Every batch of signed URLs delivered in the run has as many URLs as its
    request asked for. *)
Definition honoured {W : Type} `{Externals W} (tr : list Event) : Prop :=
  forall ev u,
    In ev tr -> accepted ev = Some u ->
    exists firstPart,
      batch_request ev = Some (firstPart, Itoa (lenZ (Urls u))).

(** [honoured], as a test. *)
Definition honoured_b {W : Type} `{Externals W} (tr : list Event) : bool :=
  forallb (fun ev =>
             match accepted ev with
             | Some u =>
                 match batch_request ev with
                 | Some (_, parts) => String.eqb parts (Itoa (lenZ (Urls u)))
                 | None => false
                 end
             | None => true
             end) tr.

(** ** A scripted world

    The outcomes of the successive HTTP round trips, token requests and
    file reads are listed in advance; the file system holds one file. *)
Module Scripted.

Record World := {
  replies : list (nat * (Response + error));
  tokens : list (Bearer + error);
  faults : list (option string);
  file_size : Z + error;
  file_content : list byte + error
}.

Definition refused : error := errorString "connection refused".

Definition next_reply (w : World) : (nat * (Response + error)) * World :=
  match replies w with
  | [] => ((O, inr refused), w)
  | r :: rest =>
      (r, {| replies := rest; tokens := tokens w; faults := faults w;
             file_size := file_size w; file_content := file_content w |})
  end.

Definition next_token (w : World) : (Bearer + error) * World :=
  match tokens w with
  | [] => (inl {| AccessToken := "token" |}, w)
  | r :: rest =>
      (r, {| replies := replies w; tokens := rest; faults := faults w;
             file_size := file_size w; file_content := file_content w |})
  end.

Definition next_fault (w : World) : option string * World :=
  match faults w with
  | [] => (None, w)
  | r :: rest =>
      (r, {| replies := replies w; tokens := tokens w; faults := rest;
             file_size := file_size w; file_content := file_content w |})
  end.

(** Words of a text, separated by single spaces. *)
Fixpoint words (cur : string) (s : string) : list string :=
  match s with
  | EmptyString => [cur]
  | String c s' =>
      if decide (c = " "%char) then cur :: words "" s'
      else words (cur +:+ String c EmptyString) s'
  end.

(** A stand-in for the JSON codec: the body of a URL batch is the upload
    key followed by the URLs; the body of a completion response is the
    object identifier. *)
Definition decode_urls (r : Response) : signedUploadUrls + error :=
  match ReadErr r with
  | Some e => inr e
  | None =>
      match words "" (string_of_list_byte (Content r)) with
      | key :: urls => inl {| UploadKey := key; Urls := urls |}
      | [] => inr (errorString "unexpected end of JSON input")
      end
  end.

Definition decode_result (r : Response) : UploadResult + error :=
  match ReadErr r with
  | Some e => inr e
  | None =>
      inl {| ObjectId := string_of_list_byte (Content r);
             ObjectSize := 0; Location := "" |}
  end.

Definition marshal (key : string) (size : Z) : list byte :=
  list_byte_of_string ("uploadKey=" +:+ key +:+ " size=" +:+ Itoa size).

(** The text before the first [c], and the text after it, if there is
    one. *)
Fixpoint before (c : ascii) (s : string) : string :=
  match s with
  | EmptyString => EmptyString
  | String x s' => if decide (x = c) then EmptyString else String x (before c s')
  end.

Fixpoint after (c : ascii) (s : string) : option string :=
  match s with
  | EmptyString => None
  | String x s' => if decide (x = c) then Some s' else after c s'
  end.

(** A stand-in for [net/url] on URLs without escapes ([%], [+]) and
    semicolons, where it does the same: the raw query of a URL is what
    follows its first question mark, up to a [#]; the arguments are
    separated by [&], empty ones are skipped, and the key of an argument
    ends at its first [=]. *)
Definition parse_query (url : string) : gmap string (list string) :=
  match after "?" (before "#" url) with
  | None => ∅
  | Some raw =>
      foldl (fun q arg =>
               if decide (arg = "") then q
               else Values_Add q (before "=" arg) (default "" (after "=" arg)))
            ∅ (fields "&" "" raw)
  end.

#[global] Instance externals : Externals World := {|
  GetToken := fun _ w => next_token w;
  NewRequest_err := fun _ url =>
    if decide (url = "") then Some (errorString "empty url") else None;
  URL_Query := parse_query;
  Transport := fun _ _ w => next_reply w;
  Stat := fun _ w => file_size w;
  Open := fun _ w => file_content w;
  ReadFault := next_fault;
  Decode_signedUploadUrls := decode_urls;
  Decode_UploadResult := decode_result;
  Marshal_completeBody := marshal
|}.

Definition ok (text : string) : Response + error :=
  inl {| StatusCode := 200; Content := list_byte_of_string text; ReadErr := None |}.

Definition status (code : Z) (text : string) : Response + error :=
  inl {| StatusCode := code; Content := list_byte_of_string text; ReadErr := None |}.

Definition start (w : World) : State World := {| world := w; heap := [] |}.

Definition the_api : BucketAPI :=
  {| HostPath := "https://developer.api.autodesk.com";
     BucketAPIPath := "/oss/v2/buckets" |}.

(** A world with the given round trips in store and one file of the given
    size and content. *)
Definition make (rs : list (nat * (Response + error))) (size : Z)
    (content : string) : World :=
  {| replies := rs; tokens := []; faults := [];
     file_size := inl size;
     file_content := inl (list_byte_of_string content) |}.

(** A state with one buffer, holding the given text. *)
Definition with_buffer (w : World) (text : string) : State World :=
  {| world := w; heap := [list_byte_of_string text] |}.

(** A transfer endpoint that reads the body and answers 500 three times, and
    would answer 200 at a fourth request. *)
Definition down : World :=
  make [(3%nat, status 500 "busy"); (O, status 500 "busy");
        (O, status 500 "busy"); (O, ok "")] 3 "abc".

(** A job of thirty parts that has its upload key. *)
Definition keyed_job : uploadJob :=
  {| api := the_api; bucketKey := "bucket"; objectKey := "object";
     fileToUpload := "file"; job_minutesExpiration := minutesExpiration;
     uploadKey := "K"; fileSize := 3040870400; totalParts := 30;
     numberOfBatches := 2 |}.


(** A job of one part, as [newUploadJob] plans it, for an object whose key
    has a question mark in it: its signeds3upload URL has a [parts]
    argument of its own. *)
Definition parts_job : uploadJob :=
  {| api := the_api; bucketKey := "bucket"; objectKey := "o?parts=7";
     fileToUpload := "file"; job_minutesExpiration := minutesExpiration;
     uploadKey := ""; fileSize := 3; totalParts := 1; numberOfBatches := 1 |}.

(** A signed download of a declared size of five bytes, answered with
    three. *)
Definition short_download : signedDownloadUrl :=
  {| Status := "complete"; Url := "https://cdn.example/object";
     Params := {| ContentType := "application/octet-stream";
                  ContentDisposition := "" |};
     Size := 5; Sha1 := "" |}.

(** Three worlds in which the upload of a file of three bytes fails inside
    the batch loop: the requests for signed URLs are answered 500; the
    uploads of the chunk are answered 500; the read of the file fails. *)
Definition no_urls : World :=
  make [(O, status 500 "boom"); (O, status 500 "boom"); (O, status 500 "boom")]
       3 "abc".

Definition no_upload : World :=
  make [(O, ok "K u1"); (3%nat, status 500 "boom"); (O, status 500 "boom");
        (O, status 500 "boom")] 3 "abc".

Definition no_read : World :=
  {| replies := [(O, ok "K u1")]; tokens := [];
     faults := [Some "input/output error"];
     file_size := inl 3;
     file_content := inl (list_byte_of_string "abc") |}.

(** The job of these worlds, as [newUploadJob] makes it. *)
Definition small_job : uploadJob :=
  {| api := the_api; bucketKey := "bucket"; objectKey := "object";
     fileToUpload := "file"; job_minutesExpiration := minutesExpiration;
     uploadKey := ""; fileSize := 3; totalParts := 1; numberOfBatches := 1 |}.

Definition small_file : File :=
  {| contents := list_byte_of_string "abc"; offset := 0 |}.

(** A job of two batches (27 parts), and a world that takes it through
    both: one URL and one chunk in the first batch, one URL in the second,
    for which the file has no bytes left. *)
Definition two_batch_job : uploadJob :=
  {| api := the_api; bucketKey := "bucket"; objectKey := "object";
     fileToUpload := "file"; job_minutesExpiration := minutesExpiration;
     uploadKey := ""; fileSize := 2726297600; totalParts := 27;
     numberOfBatches := 2 |}.

Definition two_batches : World :=
  make [(O, ok "K u1"); (3%nat, ok ""); (O, ok "K2 u26"); (O, ok "object-id")]
       2726297600 "abc".

(** The same job for an object whose key has a question mark in it: the
    signeds3upload URL has an [uploadKey] argument of its own. *)
Definition query_two_batch_job : uploadJob :=
  {| api := the_api; bucketKey := "bucket"; objectKey := "o?uploadKey=evil";
     fileToUpload := "file"; job_minutesExpiration := minutesExpiration;
     uploadKey := ""; fileSize := 2726297600; totalParts := 27;
     numberOfBatches := 2 |}.

(** A job of thirty parts, so of two batches, and a world that takes it
    through both. *)
Definition thirty_job : uploadJob :=
  {| api := the_api; bucketKey := "bucket"; objectKey := "object";
     fileToUpload := "file"; job_minutesExpiration := minutesExpiration;
     uploadKey := ""; fileSize := 3040870400; totalParts := 30;
     numberOfBatches := 2 |}.

Definition thirty : World :=
  make [(O, ok "K u1"); (3%nat, ok ""); (O, ok "K u26"); (O, ok "object-id")]
       3040870400 "abc".

(** A job of twenty-five parts: two batches, the second one for no part;
    and a world that takes it through both. *)
Definition full_batch_job : uploadJob :=
  {| api := the_api; bucketKey := "bucket"; objectKey := "object";
     fileToUpload := "file"; job_minutesExpiration := minutesExpiration;
     uploadKey := ""; fileSize := 2516582400; totalParts := 25;
     numberOfBatches := 2 |}.

Definition full_batch : World :=
  make [(O, ok "K u1"); (3%nat, ok ""); (O, ok "K"); (O, ok "object-id")]
       2516582400 "abc".

(** A world that takes the upload of the file of three bytes to its end. *)
Definition fine : World :=
  make [(O, ok "K u1"); (3%nat, ok ""); (O, ok "object-id")] 3 "abc".

(** The upload of the file of three bytes where the transfer endpoint
    answers 500 twice, then 200. *)
Definition flaky_upload : World :=
  make [(O, ok "K u1"); (3%nat, status 500 "busy"); (O, status 500 "busy");
        (O, ok ""); (O, ok "object-id")] 3 "abc".

(** The upload of the file of three bytes where the endpoint of one
    operation answers 500 twice and then 200, or 500 three times, with a
    200 in store for a fourth request. *)
Definition flaky_urls : World :=
  make [(O, status 500 "first"); (O, status 500 "second"); (O, ok "K u1");
        (3%nat, ok ""); (O, ok "object-id")] 3 "abc".

Definition down_urls : World :=
  make [(O, status 500 "first"); (O, status 500 "second");
        (O, status 500 "third"); (O, ok "K u1"); (3%nat, ok "");
        (O, ok "object-id")] 3 "abc".

Definition down_upload : World :=
  make [(O, ok "K u1"); (3%nat, status 500 "first"); (O, status 500 "second");
        (O, status 500 "third"); (O, ok ""); (O, ok "object-id")] 3 "abc".

Definition flaky_completion : World :=
  make [(O, ok "K u1"); (3%nat, ok ""); (O, status 500 "first");
        (O, status 500 "second"); (O, ok "object-id")] 3 "abc".

Definition down_completion : World :=
  make [(O, ok "K u1"); (3%nat, ok ""); (O, status 500 "first");
        (O, status 500 "second"); (O, status 500 "third");
        (O, ok "object-id")] 3 "abc".

(** A world without the file, and one in which the file cannot be
    opened. *)
Definition no_file : World :=
  {| replies := []; tokens := []; faults := [];
     file_size := inr (errorString "stat file: no such file or directory");
     file_content := inr (errorString "open file: no such file or directory") |}.

Definition unreadable : World :=
  {| replies := []; tokens := []; faults := [];
     file_size := inl 3;
     file_content := inr (errorString "open file: permission denied") |}.

(** A world in which the authenticator refuses the token. *)
Definition no_token : World :=
  {| replies := [(O, ok "K u1")];
     tokens := [inr (errorString "401 Unauthorized")]; faults := [];
     file_size := inl 3;
     file_content := inl (list_byte_of_string "abc") |}.

(** A job as the zero value of its type has it: without batches. *)
Definition idle_job : uploadJob :=
  {| api := the_api; bucketKey := "bucket"; objectKey := "object";
     fileToUpload := "file"; job_minutesExpiration := minutesExpiration;
     uploadKey := ""; fileSize := 0; totalParts := 0; numberOfBatches := 0 |}.

(** An empty file. *)
Definition empty_file : World :=
  make [(O, ok "K u1"); (O, ok "object-id")] 0 "".

Definition empty_job : uploadJob :=
  {| api := the_api; bucketKey := "bucket"; objectKey := "object";
     fileToUpload := "file"; job_minutesExpiration := minutesExpiration;
     uploadKey := ""; fileSize := 0; totalParts := 1; numberOfBatches := 1 |}.

(** A request without headers, and one with an empty value for a
    header. *)
Definition bare_request : Request :=
  {| Method := "GET"; URL := "https://example.com/x"; Query := ∅; Header := ∅;
     ContentLength := 0; Body := None |}.

Definition blank_request : Request :=
  {| Method := "GET"; URL := "https://example.com/x"; Query := ∅;
     Header := {["Accept" := [""]]}; ContentLength := 0; Body := None |}.

(** A download of three bytes, and a listing. *)
Definition download : World :=
  make [(O, ok "https://cdn.example/object 3"); (O, ok "abc")] 0 "".

Definition listing : World := make [(O, ok "a.rvt b.rvt")] 0 "".

End Scripted.

(** ** The plan of the batch loop *)

(** The value of [partsCounter] when batch [i] starts: 0 before the loop,
    and [partsCounter += maxParts] at the end of every iteration. *)
Fixpoint partsCounter_at (i : nat) : Z :=
  match i with
  | O => 0
  | S i' => int_add (partsCounter_at i') maxParts
  end.

(** [firstPart := (i * maxParts) + 1] at batch [i]. *)
Definition firstPart_at (i : nat) : Z :=
  int_add (int_mul (Z.of_nat i) maxParts) 1.

(** The numbers of parts that the batches 0, ..., [n - 1] ask for:
    [parts := job.getParts(partsCounter)]. *)
Definition parts_of_batches (job : uploadJob) (n : nat) : list Z :=
  map (fun i => getParts job (partsCounter_at i)) (seq 0 n).

Definition sumZ (l : list Z) : Z := foldr Z.add 0 l.

(** Two jobs that differ in their upload key at most. *)
Definition same_upload (job job' : uploadJob) : Prop :=
  api job' = api job /\ bucketKey job' = bucketKey job /\
  objectKey job' = objectKey job /\ fileToUpload job' = fileToUpload job /\
  job_minutesExpiration job' = job_minutesExpiration job /\
  fileSize job' = fileSize job /\ totalParts job' = totalParts job /\
  numberOfBatches job' = numberOfBatches job.

(** ** More readings of a trace *)

(** A token request is for the scope [scope]. *)
Definition token_for (scope : string) (ev : Event) : Prop :=
  match ev with
  | EvToken sc => sc = scope
  | _ => True
  end.

(** An upload to a signed URL declares the bytes that its body holds: as
    the content length of the request and in its [Content-Length] header;
    its content type is that of a byte stream. *)
Definition declares_its_payload (ev : Event) : Prop :=
  match ev with
  | EvHttp req payload _ _ =>
      Method req = "PUT" ->
      ContentLength req = lenZ payload /\
      Values_Get (Header req) "Content-Length" = Itoa (lenZ payload) /\
      Values_Get (Header req) "Content-Type" = "application/octet-stream"
  | _ => True
  end.

(** Where the requests of an upload go: a PUT has no [Authorization]
    header; every other request is a GET or a POST to the signeds3upload
    path of the job. *)
Definition addressed (job : uploadJob) (ev : Event) : Prop :=
  match ev with
  | EvHttp req _ _ _ =>
      (Method req = "PUT" /\ Values_Get (Header req) "Authorization" = "" /\
       Header req !! "Authorization" = None) \/
      ((Method req = "GET" \/ Method req = "POST") /\
       URL req = getSignedS3UploadPath job)
  | _ => True
  end.



(** ** Listing and downloading objects *)

(** Modelled from the spec: [a.BaseUrl()] and the type [BucketContent] are
    declared outside the sources, and the spec (1, 6) gives listing and
    download at their interface only. They are left open here, with the
    JSON decoders of the two responses: what is proved holds whatever they
    are. A decoder gives what [Decode(&result)] leaves in [result], and its
    error. *)
Class ObjectExternals (BucketContent : Type) := {
  BaseUrl : BucketAPI -> string;
  zero_BucketContent : BucketContent;
  Decode_BucketContent : Response -> BucketContent * option error;
  Decode_signedDownloadUrl : Response -> signedDownloadUrl * option error
}.

Definition zero_signedDownloadUrl : signedDownloadUrl :=
  {| Status := ""; Url := "";
     Params := {| ContentType := ""; ContentDisposition := "" |};
     Size := 0; Sha1 := "" |}.

Section Objects.

Context {W : Type} `{Externals W}.
Context {BucketContent : Type} `{ObjectExternals BucketContent}.

(** [a.Authenticator.GetToken(scope)] *)
Definition Authenticator_GetToken (scope : string) : M W (Bearer + error) :=
  fun s =>
    let '(r, w) := GetToken scope (world s) in
    (r, {| world := w; heap := heap s |}, [EvToken scope]).

(** [req.Header.Set(key, value)] *)
Definition Header_Set (req : Request) (key value : string) : Request :=
  with_Header req (Values_Set (Header req) key value).

Definition listObjects (path bucketKey limit beginsWith startAt token : string)
  : M W (BucketContent * option error) :=
  let* (req, err) :=
    http_NewRequest "GET" (path +:+ "/" +:+ bucketKey +:+ "/objects") None in
  match err with
  | Some e => ret (zero_BucketContent, Some e)
  | None =>
      let params := Query req in
      let params := if decide (String.length beginsWith = 0%nat) then params
                    else Values_Add params "beginsWith" beginsWith in
      let params := if decide (String.length limit = 0%nat) then params
                    else Values_Add params "limit" limit in
      let params := if decide (String.length startAt = 0%nat) then params
                    else Values_Add params "startAt" startAt in
      let req := with_Query req params in
      let req := Header_Set req "Authorization" ("Bearer " +:+ token) in
      let* res := Client_Do req in
      match res with
      | inr e => ret (zero_BucketContent, Some e)
      | inl response =>
          if decide (StatusCode response = http_StatusOK)
          then ret (Decode_BucketContent response)
          else ret (zero_BucketContent, Some (status_error response))
      end
  end.

(** ListObjects returns the bucket contains along with details on each
    item. *)
Definition ListObjects (a : BucketAPI) (bucketKey limit beginsWith startAt : string)
  : M W (BucketContent * option error) :=
  let* r := Authenticator_GetToken "data:read" in
  match r with
  | inr e => ret (zero_BucketContent, Some e)
  | inl bearer =>
      listObjects (BaseUrl a) bucketKey limit beginsWith startAt
        (AccessToken bearer)
  end.

Definition getSignedDownloadUrl (path bucketKey objectName token : string)
  : M W (signedDownloadUrl * option error) :=
  let* (req, err) :=
    http_NewRequest "GET"
      (path +:+ "/" +:+ bucketKey +:+ "/objects/" +:+ objectName +:+
       "/signeds3download") None in
  match err with
  | Some e => ret (zero_signedDownloadUrl, Some e)
  | None =>
      let req := Header_Set req "Authorization" ("Bearer " +:+ token) in
      let* res := Client_Do req in
      match res with
      | inr e => ret (zero_signedDownloadUrl, Some e)
      | inl response =>
          if decide (StatusCode response = http_StatusOK)
          then ret (Decode_signedDownloadUrl response)
          else ret (zero_signedDownloadUrl, Some (status_error response))
      end
  end.

(** DownloadObject downloads an on object, given the URL-encoded object
    name. *)
Definition DownloadObject (a : BucketAPI) (bucketKey objectName : string)
  : M W (list byte * option error) :=
  let* r := Authenticator_GetToken "data:read" in
  match r with
  | inr e => ret ([], Some e)
  | inl bearer =>
      let* (downloadUrl, err) :=
        getSignedDownloadUrl (BaseUrl a) bucketKey objectName
          (AccessToken bearer) in
      match err with
      | Some e => ret ([], Some e)
      | None => downloadObjectUsingSignedUrl downloadUrl
      end
  end.

End Objects.

(** The URLs of these operations. *)
Definition objects_url (path bucketKey : string) : string :=
  path +:+ "/" +:+ bucketKey +:+ "/objects".

Definition signed_download_url (path bucketKey objectName : string) : string :=
  path +:+ "/" +:+ bucketKey +:+ "/objects/" +:+ objectName +:+
  "/signeds3download".

(** The request that [getSignedDownloadUrl] sends: its query is that of
    the URL. *)
Definition signed_download_request {W : Type} `{Externals W}
    (path bucketKey objectName token : string) : Request :=
  {| Method := "GET";
     URL := signed_download_url path bucketKey objectName;
     Query := URL_Query (signed_download_url path bucketKey objectName);
     Header := {["Authorization" := ["Bearer " +:+ token]]};
     ContentLength := 0; Body := None |}.

(** What a listing adds to the values of a query argument for an argument
    of the call: nothing for the empty string. *)
Definition list_parameter (value : string) : list string :=
  if decide (value = "") then [] else [value].


(** ** A scripted codec for listings and signed downloads *)

Module ScriptedObjects.

(** A stand-in for the JSON codec: the body of a listing is the keys of the
    objects; the body of a signed download is the URL and the size. *)
Definition decode_listing (r : Response) : list string * option error :=
  match ReadErr r with
  | Some e => ([], Some e)
  | None => (Scripted.words "" (string_of_list_byte (Content r)), None)
  end.

Definition decode_download (r : Response) : signedDownloadUrl * option error :=
  match ReadErr r with
  | Some e => (zero_signedDownloadUrl, Some e)
  | None =>
      match Scripted.words "" (string_of_list_byte (Content r)) with
      | [url; size] =>
          match NilZero.int_of_string size with
          | Some n =>
              ({| Status := "complete"; Url := url;
                  Params := {| ContentType := "application/octet-stream";
                               ContentDisposition := "" |};
                  Size := Z.of_int n; Sha1 := "" |}, None)
          | None => (zero_signedDownloadUrl, Some (errorString "invalid character"))
          end
      | _ => (zero_signedDownloadUrl,
              Some (errorString "unexpected end of JSON input"))
      end
  end.

#[global] Instance objects : ObjectExternals (list string) := {|
  BaseUrl := fun a => HostPath a +:+ BucketAPIPath a;
  zero_BucketContent := [];
  Decode_BucketContent := decode_listing;
  Decode_signedDownloadUrl := decode_download
|}.

End ScriptedObjects.

(** * Properties *)

(** ** Integers *)

Lemma wrap64_id (z : Z) : in_int64 z -> wrap64 z = z.
Proof.
  unfold in_int64, wrap64. intros Hz.
  rewrite Z.mod_small by lia. lia.
Qed.

Lemma int_add_id (a b : Z) : in_int64 (a + b) -> int_add a b = a + b.
Proof. apply wrap64_id. Qed.

Lemma int_sub_id (a b : Z) : in_int64 (a - b) -> int_sub a b = a - b.
Proof. apply wrap64_id. Qed.

Lemma int_mul_id (a b : Z) : in_int64 (a * b) -> int_mul a b = a * b.
Proof. apply wrap64_id. Qed.

Lemma int_quo_floor (a b : Z) :
  0 <= a < 2 ^ 63 -> 0 < b -> int_quo a b = a / b.
Proof.
  intros Ha Hb. unfold int_quo.
  rewrite Z.quot_div_nonneg by lia.
  apply wrap64_id. unfold in_int64.
  assert (0 <= a / b) by (apply Z.div_pos; lia).
  assert (a / b <= a) by (apply Z.div_le_upper_bound; nia).
  lia.
Qed.

Lemma defaultSize_value : defaultSize = 104857600.
Proof. reflexivity. Qed.

Lemma planned_totalParts (job : uploadJob) :
  planned job -> 1 <= totalParts job < 2 ^ 40.
Proof.
  intros (Hs & Ht & _). rewrite Ht, defaultSize_value.
  assert (0 <= fileSize job / 104857600) by (apply Z.div_pos; lia).
  assert (fileSize job / 104857600 < 2 ^ 39)
    by (apply Z.div_lt_upper_bound; lia).
  lia.
Qed.

Lemma planned_numberOfBatches (job : uploadJob) :
  planned job -> 1 <= numberOfBatches job < 2 ^ 40.
Proof.
  intros Hp. pose proof (planned_totalParts job Hp) as Ht.
  destruct Hp as (_ & _ & Hn). rewrite Hn. unfold maxParts.
  assert (0 <= totalParts job / 25) by (apply Z.div_pos; lia).
  assert (totalParts job / 25 < 2 ^ 39)
    by (apply Z.div_lt_upper_bound; lia).
  lia.
Qed.

Section Partitioning.

Context {W : Type} `{Externals W}.

Lemma newUploadJob_ok (a : BucketAPI) (bk on f : string) (s : State W) (size : Z) :
  Stat f (world s) = inl size -> 0 <= size < 2 ^ 63 ->
  newUploadJob a bk on f s =
    ({| api := a; bucketKey := bk; objectKey := on; fileToUpload := f;
        job_minutesExpiration := 60; uploadKey := ""; fileSize := size;
        totalParts := size / defaultSize + 1;
        numberOfBatches := (size / defaultSize + 1) / maxParts + 1 |},
     None, s, []).
Proof.
  intros Hstat Hsize. unfold newUploadJob. rewrite Hstat.
  assert (Hq : int_quo size defaultSize = size / defaultSize)
    by (apply int_quo_floor; [lia | reflexivity]).
  assert (0 <= size / defaultSize < 2 ^ 39).
  { rewrite defaultSize_value. split.
    - apply Z.div_pos; lia.
    - apply Z.div_lt_upper_bound; lia. }
  assert (Ht : int_add (int_quo size defaultSize) 1 = size / defaultSize + 1).
  { rewrite Hq. apply int_add_id. unfold in_int64. lia. }
  rewrite Ht.
  assert (Hq2 : int_quo (size / defaultSize + 1) maxParts
                = (size / defaultSize + 1) / maxParts)
    by (apply int_quo_floor; [lia | reflexivity]).
  rewrite Hq2.
  assert (0 <= (size / defaultSize + 1) / maxParts < 2 ^ 39).
  { unfold maxParts. split.
    - apply Z.div_pos; lia.
    - apply Z.div_lt_upper_bound; lia. }
  rewrite int_add_id by (unfold in_int64; lia).
  reflexivity.
Qed.

Lemma newUploadJob_planned (a : BucketAPI) (bk on f : string) (s : State W) (size : Z) :
  Stat f (world s) = inl size -> 0 <= size < 2 ^ 63 ->
  planned (result_of (newUploadJob a bk on f s)).1.
Proof.
  intros Hstat Hsize. rewrite (newUploadJob_ok a bk on f s size Hstat Hsize).
  unfold planned, result_of. simpl. auto.
Qed.

(** C2. For every file size >= 0 (an int64), [newUploadJob] succeeds with
    totalParts = floor(fileSize / chunkSize) + 1, where the chunk size is
    100 MiB; this is at least 1, also for an empty file; and
    numberOfBatches = floor(totalParts / 25) + 1. A size of 0 gives one
    part, a size of 250 MiB gives three. *)
Theorem newUploadJob_partitioning
    (a : BucketAPI) (bk on f : string) (s : State W) (size : Z) :
  Stat f (world s) = inl size ->
  0 <= size < 2 ^ 63 ->
  let r := result_of (newUploadJob a bk on f s) in
  r.2 = None /\
  fileSize r.1 = size /\
  defaultSize = 100 * 2 ^ 20 /\
  totalParts r.1 = size / defaultSize + 1 /\
  1 <= totalParts r.1 /\
  numberOfBatches r.1 = totalParts r.1 / 25 + 1 /\
  (size = 0 -> totalParts r.1 = 1) /\
  (size = 250 * 2 ^ 20 -> totalParts r.1 = 3).
Proof.
  intros Hstat Hsize r. subst r.
  rewrite (newUploadJob_ok a bk on f s size Hstat Hsize).
  unfold result_of. simpl.
  assert (0 <= size / defaultSize) by (apply Z.div_pos; [lia | reflexivity]).
  repeat split; try reflexivity; try lia.
  - intros ->. reflexivity.
  - intros ->. reflexivity.
Qed.

End Partitioning.

(** The plan of a file of 250 MiB. *)
Lemma newUploadJob_partitioning_witness :
  let s := Scripted.start
             {| Scripted.replies := []; Scripted.tokens := [];
                Scripted.faults := [];
                Scripted.file_size := inl (250 * 2 ^ 20);
                Scripted.file_content := inl [] |} in
  let r := result_of (newUploadJob Scripted.the_api "bucket" "object" "file" s) in
  r.2 = None /\
  fileSize r.1 = 250 * 2 ^ 20 /\
  defaultSize = 100 * 2 ^ 20 /\
  totalParts r.1 = 250 * 2 ^ 20 / defaultSize + 1 /\
  1 <= totalParts r.1 /\
  numberOfBatches r.1 = totalParts r.1 / 25 + 1 /\
  (250 * 2 ^ 20 = 0 -> totalParts r.1 = 1) /\
  (250 * 2 ^ 20 = 250 * 2 ^ 20 -> totalParts r.1 = 3).
Proof.
  intros s.
  apply (newUploadJob_partitioning Scripted.the_api "bucket" "object" "file" s
           (250 * 2 ^ 20)).
  - reflexivity.
  - lia.
Defined.

(** ** The retry policy *)

Section Retry.

Context {W : Type} `{Externals W}.

Lemma retry_more_unfold {R : Type} (more : nat) (d : Z)
    (fn : M W (R * option error)) (s : State W) :
  retry_more more d fn s =
    match fn s with
    | (r, None, s1, t1) => (inl r, s1, t1)
    | (r, Some e, s1, t1) =>
        match more with
        | O => (inr e, s1, t1)
        | S more' =>
            let '(x, s2, t2) := retry_more more' d fn s1 in
            (x, s2, t1 ++ EvSleep d :: t2)
        end
    end.
Proof.
  destruct more; simpl; unfold bind, ret, time_Sleep;
    destruct (fn s) as [[[r [e|]] s1] t1]; simpl;
    rewrite ?app_nil_r; try reflexivity.
  destruct (retry_more more d fn s1) as [[x s2] t2]. reflexivity.
Qed.

End Retry.

(** C6. Every network operation of an upload is made through
    [retry.Do(3, 3*time.Second, ...)]. In the runs below the endpoint of
    one operation (the request for signed URLs, the upload of the chunk,
    the completion) answers 500 twice and then 200, or 500 three times (and
    would answer 200 to a fourth request); the bodies of the answers tell
    the attempts apart.
    - After two failures the third attempt succeeds, and so does the
      upload: three invocations, two pauses of three seconds.
    - After three failures there is no fourth invocation, and [retry.Do]
      returns the last error, which the loop annotates. For the completion
      [uploadFile] returns this error; for the two operations of the batch
      loop it returns a nil error and the zero result: there the last error
      does not come to the surface. *)
Theorem uploadFile_three_attempts_and_the_last_error :
  let run w := UploadObject Scripted.the_api "bucket" "object" "file"
                 (Scripted.start w) in
  let loop w := (result_of (batches 1 0 0 Scripted.small_job Scripted.small_file
                              (Scripted.start w))).1.1 in
  let done := ({| ObjectId := "object-id"; ObjectSize := 0; Location := "" |},
               @None error) in
  let three := [3 * time_Second; 3 * time_Second] in
  (round_trips_of (trace_of (run Scripted.flaky_urls))
   = [("GET", 500); ("GET", 500); ("GET", 200); ("PUT", 200); ("POST", 200)] /\
   pauses (trace_of (run Scripted.flaky_urls)) = three /\
   result_of (run Scripted.flaky_urls) = done) /\
  (round_trips_of (trace_of (run Scripted.flaky_upload))
   = [("GET", 200); ("PUT", 500); ("PUT", 500); ("PUT", 200); ("POST", 200)] /\
   pauses (trace_of (run Scripted.flaky_upload)) = three /\
   result_of (run Scripted.flaky_upload) = done) /\
  (round_trips_of (trace_of (run Scripted.flaky_completion))
   = [("GET", 200); ("PUT", 200); ("POST", 500); ("POST", 500); ("POST", 200)] /\
   pauses (trace_of (run Scripted.flaky_completion)) = three /\
   result_of (run Scripted.flaky_completion) = done) /\
  (round_trips_of (trace_of (run Scripted.down_urls))
   = [("GET", 500); ("GET", 500); ("GET", 500)] /\
   pauses (trace_of (run Scripted.down_urls)) = three /\
   loop Scripted.down_urls
   = Some (urls_failure 1 1 (errorString "[500] third")) /\
   result_of (run Scripted.down_urls) = (zero_UploadResult, None)) /\
  (round_trips_of (trace_of (run Scripted.down_upload))
   = [("GET", 200); ("PUT", 500); ("PUT", 500); ("PUT", 500)] /\
   pauses (trace_of (run Scripted.down_upload)) = three /\
   loop Scripted.down_upload
   = Some (chunk_failure "u1" (errorString "[500] third")) /\
   result_of (run Scripted.down_upload) = (zero_UploadResult, None)) /\
  (round_trips_of (trace_of (run Scripted.down_completion))
   = [("GET", 200); ("PUT", 200); ("POST", 500); ("POST", 500); ("POST", 500)] /\
   pauses (trace_of (run Scripted.down_completion)) = three /\
   result_of (run Scripted.down_completion)
   = (zero_UploadResult,
      Some (complete_failure (errorString "[500] third")))).
Proof.
  intros run loop done three.
  repeat split; vm_compute; reflexivity.
Qed.

(** ** The requests for signed URLs *)

Section Requests.

Context {W : Type} `{Externals W}.

Lemma Values_Add_lookup (v : gmap string (list string)) (key value : string) :
  Values_Add v key value !! key = Some (default [] (v !! key) ++ [value]).
Proof. unfold Values_Add. apply lookup_insert_eq. Qed.

Lemma Values_Add_lookup_ne (v : gmap string (list string)) (key key' value : string) :
  key <> key' -> Values_Add v key value !! key' = v !! key'.
Proof. intros Hne. unfold Values_Add. apply lookup_insert_ne. exact Hne. Qed.

Lemma addOrSetHeader_empty (req : Request) (key value : string) :
  Header req = ∅ ->
  addOrSetHeader req key value = with_Header req {[key := [value]]}.
Proof.
  intros Hh. unfold addOrSetHeader, Values_Get, Values_Add.
  rewrite Hh, lookup_empty.
  destruct (decide ("" = "")) as [_|Hne]; [| congruence].
  simpl. rewrite insert_empty. reflexivity.
Qed.

Lemma Client_Do_unfold (req : Request) (s : State W) :
  Client_Do req s =
    let payload := match Body req with
                   | Some p => unread s p
                   | None => []
                   end in
    let r := Transport req payload (world s) in
    (r.1.2,
     {| world := r.2;
        heap := match Body req with
                | Some p => <[p := drop r.1.1 payload]> (heap s)
                | None => heap s
                end |},
     [EvHttp req payload r.1.1 r.1.2]).
Proof.
  unfold Client_Do. simpl.
  destruct (Transport req _ (world s)) as [[n res] w]. reflexivity.
Qed.

Lemma Values_of_Add (v : gmap string (list string)) (key value : string) :
  Values_of (Values_Add v key value) key = Values_of v key ++ [value].
Proof. unfold Values_of. rewrite Values_Add_lookup. reflexivity. Qed.

Lemma Values_Last_snoc (v : gmap string (list string)) (key : string)
    (l : list string) (x : string) :
  Values_of v key = l ++ [x] -> Values_Last v key = x.
Proof. intros Hv. unfold Values_Last. rewrite Hv, last_snoc. reflexivity. Qed.

Lemma Values_of_None (v : gmap string (list string)) (key : string) :
  v !! key = None -> Values_of v key = [].
Proof. intros Hv. unfold Values_of. rewrite Hv. reflexivity. Qed.

(** The arguments of the query of a request for signed URLs: for each of
    the three that every request has, the values of the URL and after them
    the value of the request; for the upload key the same, if the job has
    one, and else what the URL has. *)
Lemma signed_query_lookup (job : uploadJob) (firstPart parts : Z) :
  let q := signed_query job firstPart parts in
  let own := own_query job in
  q !! "firstPart" = Some (Values_of own "firstPart" ++ [Itoa firstPart]) /\
  q !! "parts" = Some (Values_of own "parts" ++ [Itoa parts]) /\
  q !! "minutesExpiration"
  = Some (Values_of own "minutesExpiration" ++
          [Itoa (job_minutesExpiration job)]) /\
  q !! "uploadKey" = (if decide (uploadKey job = "") then own !! "uploadKey"
                      else Some (Values_of own "uploadKey" ++ [uploadKey job])).
Proof.
  unfold signed_query, Values_of. cbv zeta.
  rewrite Values_Add_lookup.
  rewrite !(Values_Add_lookup_ne _ "minutesExpiration") by discriminate.
  rewrite Values_Add_lookup.
  rewrite !(Values_Add_lookup_ne _ "parts") by discriminate.
  rewrite Values_Add_lookup.
  rewrite !(Values_Add_lookup_ne _ "firstPart") by discriminate.
  destruct (decide (uploadKey job = "")).
  - repeat split.
  - rewrite Values_Add_lookup.
    rewrite !(Values_Add_lookup_ne _ "uploadKey") by discriminate.
    repeat split.
Qed.

Lemma signed_query_values (job : uploadJob) (firstPart parts : Z) :
  let q := signed_query job firstPart parts in
  let own := own_query job in
  Values_of q "firstPart" = Values_of own "firstPart" ++ [Itoa firstPart] /\
  Values_of q "parts" = Values_of own "parts" ++ [Itoa parts] /\
  Values_of q "uploadKey"
  = Values_of own "uploadKey" ++
    (if decide (uploadKey job = "") then [] else [uploadKey job]).
Proof.
  destruct (signed_query_lookup job firstPart parts) as (Hf & Hp & _ & Hk).
  cbv zeta in *. unfold Values_of at 1 3 5. rewrite Hf, Hp, Hk.
  split; [reflexivity |]. split; [reflexivity |].
  destruct (decide (uploadKey job = "")).
  - rewrite app_nil_r. reflexivity.
  - reflexivity.
Qed.

(** [getSignedUploadUrls] in closed form: a token request, then one round
    trip unless the token or the request fails; the call succeeds exactly
    when the round trip delivers a batch. *)
Lemma getSignedUploadUrls_trace (job : uploadJob) (firstPart parts : Z) (s : State W) :
  let scope := "data:write data:read" in
  let a := getSignedUploadUrls job firstPart parts s in
  (trace_of a = [EvToken scope] /\ (result_of a).2 <> None) \/
  exists bearer req n res,
    (GetToken scope (world s)).1 = inl bearer /\
    trace_of a = [EvToken scope; EvHttp req [] n res] /\
    Method req = "GET" /\
    URL req = getSignedS3UploadPath job /\
    Header req = {["Authorization" := ["Bearer " +:+ AccessToken bearer]]} /\
    Body req = None /\
    Query req = signed_query job firstPart parts /\
    match accepted (EvHttp req [] n res) with
    | Some u => result_of a = (u, None)
    | None => (result_of a).2 <> None
    end.
Proof.
  intros scope a. subst scope a.
  unfold getSignedUploadUrls, authenticate, http_NewRequest, bind, ret,
    trace_of, result_of.
  destruct (GetToken "data:write data:read" (world s)) as [[bearer|e] w] eqn:Htok;
    [| left; split; [reflexivity | discriminate]].
  cbv beta iota.
  destruct (NewRequest_err "GET" (getSignedS3UploadPath job)) as [e|] eqn:Hnew;
    [left; split; [reflexivity | discriminate] |].
  right. cbv beta iota.
  rewrite addOrSetHeader_empty by reflexivity.
  rewrite Client_Do_unfold. cbv zeta.
  set (req := with_Query _ _).
  set (r := Transport req _ _).
  exists bearer, req, r.1.1, r.1.2.
  split; [reflexivity |].
  split.
  { simpl. destruct r.1.2 as [response|e]; simpl.
    - destruct (decide (StatusCode response = http_StatusOK)); simpl.
      + destruct (Decode_signedUploadUrls response); reflexivity.
      + reflexivity.
    - reflexivity. }
  split; [reflexivity |]. split; [reflexivity |]. split; [reflexivity |].
  split; [reflexivity |].
  split.
  { subst req. unfold signed_query. simpl.
    destruct (decide (uploadKey job = "")); reflexivity. }
  unfold accepted.
  destruct (decide (Method req = "GET")) as [_|Hne]; [| exfalso; apply Hne; reflexivity].
  simpl. destruct r.1.2 as [response|e]; simpl; [| discriminate].
  destruct (decide (StatusCode response = http_StatusOK)); simpl; [| discriminate].
  destruct (Decode_signedUploadUrls response); simpl; [reflexivity | discriminate].
Qed.


End Requests.



(** ** The signed download *)

Section Download.

Context {W : Type} `{Externals W}.

(** C8. When the answer to a signed download has status 200 and a body
    whose number of bytes differs from the size declared in the
    signed-download metadata, [downloadObjectUsingSignedUrl] returns a
    non-nil error, the size-mismatch error, and so does not report
    success. *)
Theorem downloadObjectUsingSignedUrl_size_mismatch
    (sd : signedDownloadUrl) (s : State W) (response : Response) :
  NewRequest_err "GET" (Url sd) = None ->
  (Transport (download_request sd) [] (world s)).1.2 = inl response ->
  StatusCode response = 200 ->
  ReadErr response = None ->
  lenZ (Content response) <> Size sd ->
  let r := result_of (downloadObjectUsingSignedUrl sd s) in
  r.2 <> None /\
  r = (Content response,
       Some (errorString
               ("the file size doesn't match, expected " +:+ Itoa (Size sd) +:+
                ", but received " +:+ Itoa (lenZ (Content response))))).
Proof.
  intros Hnew Htr Hst Hrd Hsz r. subst r.
  unfold downloadObjectUsingSignedUrl, http_NewRequest, bind, ret, result_of.
  rewrite Hnew. cbv beta iota.
  rewrite Client_Do_unfold. cbv zeta. simpl.
  unfold download_request in Htr. rewrite Htr. simpl.
  destruct (decide (StatusCode response = http_StatusOK)) as [_|Hne];
    [| contradiction].
  rewrite Hrd. simpl.
  destruct (decide (lenZ (Content response) = Size sd)) as [He|_];
    [contradiction |].
  simpl. split; [discriminate | reflexivity].
Qed.

End Download.

(** Five bytes declared, three received. *)
Lemma downloadObjectUsingSignedUrl_size_mismatch_witness :
  let s := Scripted.start (Scripted.make [(O, Scripted.ok "abc")] 0 "") in
  let r := result_of (downloadObjectUsingSignedUrl Scripted.short_download s) in
  r.2 <> None /\
  r = (list_byte_of_string "abc",
       Some (errorString "the file size doesn't match, expected 5, but received 3")).
Proof.
  intros s.
  apply (downloadObjectUsingSignedUrl_size_mismatch Scripted.short_download s
           {| StatusCode := 200; Content := list_byte_of_string "abc";
              ReadErr := None |});
    try reflexivity.
  vm_compute. discriminate.
Defined.

(** ** The transfer of a chunk *)

Section Chunk.

Context {W : Type} `{Externals W}.

Lemma addOrSetHeader_fresh_key (req : Request) (key value : string) :
  Header req !! key = None ->
  addOrSetHeader req key value = with_Header req (<[key := [value]]> (Header req)).
Proof.
  intros Hk. unfold addOrSetHeader, Values_Get, Values_Add. rewrite Hk.
  destruct (decide ("" = "")) as [_|Hne]; [| congruence].
  reflexivity.
Qed.

(** [uploadChunk] in closed form: one round trip, unless the request cannot
    be built; the buffer keeps what the transport did not read. *)
Lemma uploadChunk_unfold (signedUrl : string) (buffer : nat) (s : State W) :
  uploadChunk signedUrl buffer s =
    match NewRequest_err "PUT" signedUrl with
    | Some e => ((tt, Some e), s, [])
    | None =>
        let req := chunk_request signedUrl buffer (lenZ (unread s buffer)) in
        let r := Transport req (unread s buffer) (world s) in
        ((tt, outcome_error r.1.2),
         {| world := r.2;
            heap := <[buffer := drop r.1.1 (unread s buffer)]> (heap s) |},
         [EvHttp req (unread s buffer) r.1.1 r.1.2])
    end.
Proof.
  unfold uploadChunk, http_NewRequest, Buffer_Len, bind, ret.
  destruct (NewRequest_err "PUT" signedUrl) as [e|]; [reflexivity |].
  cbv beta iota.
  rewrite (addOrSetHeader_empty (with_ContentLength _ _) "Content-Type")
    by reflexivity.
  rewrite addOrSetHeader_fresh_key by (simpl; apply lookup_singleton_ne; discriminate).
  rewrite Client_Do_unfold. cbv zeta. simpl.
  unfold chunk_request, with_Header, with_ContentLength. simpl.
  destruct (Transport _ _ _) as [[n [response|e]] w]; simpl.
  - destruct (decide (StatusCode response = http_StatusOK)); reflexivity.
  - reflexivity.
Qed.

Lemma unread_insert (s : State W) (w : W) (p : nat) (bs : list byte) :
  unread s p <> [] ->
  unread {| world := w; heap := <[p := bs]> (heap s) |} p = bs.
Proof.
  unfold unread. simpl. intros Hne.
  destruct (heap s !! p) as [x|] eqn:Hp; [| contradiction].
  rewrite list_lookup_insert_eq by (eapply lookup_lt_Some; exact Hp).
  reflexivity.
Qed.

Lemma unread_insert_nil (s : State W) (w : W) (p : nat) :
  unread {| world := w; heap := <[p := []]> (heap s) |} p = [].
Proof.
  unfold unread. simpl.
  destruct (heap s !! p) as [x|] eqn:Hp; simpl.
  - rewrite list_lookup_insert_eq by (eapply lookup_lt_Some; exact Hp).
    reflexivity.
  - rewrite list_insert_ge by (apply lookup_ge_None; exact Hp).
    rewrite Hp. reflexivity.
Qed.

(** An attempt on an empty buffer declares and sends nothing, and leaves
    the buffer empty. *)
Lemma uploadChunk_empty (signedUrl : string) (buffer : nat) (s : State W) :
  NewRequest_err "PUT" signedUrl = None ->
  unread s buffer = [] ->
  exists n res,
    trace_of (uploadChunk signedUrl buffer s) =
      [EvHttp (chunk_request signedUrl buffer 0) [] n res] /\
    (result_of (uploadChunk signedUrl buffer s)).2 = outcome_error res /\
    unread (state_of (uploadChunk signedUrl buffer s)) buffer = [].
Proof.
  intros Hnew He. rewrite uploadChunk_unfold, Hnew. cbv zeta.
  rewrite He. unfold trace_of, result_of, state_of. simpl.
  eexists _, _. split; [reflexivity |]. split; [reflexivity |].
  rewrite drop_nil. apply unread_insert_nil.
Qed.

(** C10. [uploadChunk] sends its request from the [*bytes.Buffer] it is
    given, which keeps only the bytes that the transport did not read, and
    nothing restores it when the attempt fails. So when the first attempt
    of [retry.Do(3, 3*time.Second, uploadChunk, url, buffer)] fails after
    the buffer was read to its end, the second attempt is made on the same,
    now empty, buffer: it sends a request of content length 0, header
    [Content-Length: 0], and no payload, not the bytes of the chunk; a third
    attempt does the same. *)
Theorem uploadChunk_retry_sends_empty_buffer
    (url : string) (buffer : nat) (s0 : State W) :
  let d := 3 * time_Second in
  let a1 := uploadChunk url buffer s0 in
  let retried := retry_Do 3 d (uploadChunk url buffer) s0 in
  unread s0 buffer <> [] ->
  (result_of a1).2 <> None ->
  unread (state_of a1) buffer = [] ->
  exists n1 res1 req2 n2 res2 rest,
    trace_of retried =
      EvHttp (chunk_request url buffer (lenZ (unread s0 buffer)))
             (unread s0 buffer) n1 res1
      :: EvSleep d :: EvHttp req2 [] n2 res2 :: rest /\
    (length (unread s0 buffer) <= n1)%nat /\
    Method req2 = "PUT" /\ URL req2 = url /\ Body req2 = Some buffer /\
    ContentLength req2 = 0 /\
    Header req2 !! "Content-Length" = Some ["0"] /\
    Forall (fun ev => match ev with
                      | EvHttp req payload _ _ =>
                          payload = [] /\ ContentLength req = 0
                      | _ => True
                      end) rest /\
    unread (state_of retried) buffer = [].
Proof.
  intros d a1 retried Hfull Hfail Hdrained. subst retried a1.
  unfold retry_Do. simpl Nat.sub.
  rewrite retry_more_unfold.
  rewrite uploadChunk_unfold in Hfail, Hdrained |- *.
  destruct (NewRequest_err "PUT" url) as [e|] eqn:Hnew.
  { unfold state_of in Hdrained. simpl in Hdrained. contradiction. }
  cbv zeta in Hfail, Hdrained |- *.
  set (r1 := Transport _ (unread s0 buffer) (world s0)) in *.
  unfold result_of in Hfail. unfold state_of in Hdrained.
  simpl in Hfail, Hdrained.
  rewrite unread_insert in Hdrained by exact Hfull.
  set (s1 := {| world := r1.2; heap := _ |}).
  assert (Hs1 : unread s1 buffer = [])
    by (subst s1; rewrite unread_insert by exact Hfull; exact Hdrained).
  destruct (outcome_error r1.1.2) as [e1|] eqn:Ho1; [| contradiction].
  rewrite retry_more_unfold.
  destruct (uploadChunk_empty url buffer s1 Hnew Hs1) as (n2 & res2 & Ht2 & Hr2 & Hu2).
  destruct (uploadChunk url buffer s1) as [[[[] o2] s2] t2] eqn:Ha2.
  unfold trace_of, result_of, state_of in Ht2, Hr2, Hu2. simpl in Ht2, Hr2, Hu2.
  subst t2.
  assert (Hn1 : (length (unread s0 buffer) <= r1.1.1)%nat).
  { destruct (Nat.le_gt_cases (length (unread s0 buffer)) r1.1.1) as [Hle|Hgt];
      [exact Hle |].
    apply (f_equal length) in Hdrained. rewrite length_drop in Hdrained.
    simpl in Hdrained. lia. }
  destruct o2 as [e2|].
  - (* the second attempt fails as well: a third one follows *)
    rewrite retry_more_unfold.
    destruct (uploadChunk_empty url buffer s2 Hnew Hu2) as (n3 & res3 & Ht3 & Hr3 & Hu3).
    destruct (uploadChunk url buffer s2) as [[[[] o3] s3] t3] eqn:Ha3.
    unfold trace_of, result_of, state_of in Ht3, Hr3, Hu3. simpl in Ht3, Hr3, Hu3.
    subst t3.
    exists r1.1.1, r1.1.2, (chunk_request url buffer 0), n2, res2,
           [EvSleep d; EvHttp (chunk_request url buffer 0) [] n3 res3].
    split.
    { destruct o3; reflexivity. }
    split; [exact Hn1 |].
    repeat (split; [reflexivity |]).
    split.
    { repeat constructor. }
    destruct o3; exact Hu3.
  - exists r1.1.1, r1.1.2, (chunk_request url buffer 0), n2, res2, [].
    split; [reflexivity |].
    split; [exact Hn1 |].
    repeat (split; [reflexivity |]).
    split; [constructor | exact Hu2].
Qed.

End Chunk.

(** The first attempt answered 500 after the three bytes of the chunk were
    read: the two later requests carry nothing. *)
Lemma uploadChunk_retry_sends_empty_buffer_witness :
  let s0 := Scripted.with_buffer Scripted.down "abc" in
  let retried := retry_Do 3 (3 * time_Second) (uploadChunk "u1" 0) s0 in
  exists n1 res1 req2 n2 res2 rest,
    trace_of retried =
      EvHttp (chunk_request "u1" 0 (lenZ (unread s0 0))) (unread s0 0) n1 res1
      :: EvSleep (3 * time_Second) :: EvHttp req2 [] n2 res2 :: rest /\
    (length (unread s0 0) <= n1)%nat /\
    Method req2 = "PUT" /\ URL req2 = "u1" /\ Body req2 = Some O /\
    ContentLength req2 = 0 /\
    Header req2 !! "Content-Length" = Some ["0"] /\
    Forall (fun ev => match ev with
                      | EvHttp req payload _ _ =>
                          payload = [] /\ ContentLength req = 0
                      | _ => True
                      end) rest /\
    unread (state_of retried) 0 = [].
Proof.
  intros s0.
  apply (uploadChunk_retry_sends_empty_buffer "u1" 0 s0).
  - vm_compute. discriminate.
  - vm_compute. discriminate.
  - reflexivity.
Defined.

(** ** Failures inside the batch loop *)

Section LoopFailure.

Context {W : Type} `{Externals W}.

(** Whatever error the batch loop ends with, [uploadFile] returns the zero
    result and a nil error. *)
Lemma uploadFile_after_loop_failure (job : uploadJob) (s : State W) (c : list byte)
    (e : error) :
  Open (fileToUpload job) (world s) = inl c ->
  (result_of (batches (Z.to_nat (numberOfBatches job)) 0 0 job
                {| contents := c; offset := 0 |} s)).1.1 = Some e ->
  (result_of (uploadFile job s)).1 = (zero_UploadResult, None).
Proof.
  intros Hopen Hloop.
  unfold uploadFile, os_Open, bind, ret, result_of in *.
  rewrite Hopen. cbv beta iota.
  destruct (batches _ 0 0 job _ s) as [[[[loop_err job'] file'] s1] t1].
  simpl in Hloop. subst loop_err. reflexivity.
Qed.

End LoopFailure.

(** C1. A failure inside the batch loop (the requests for signed URLs
    fail three times, the uploads of a chunk fail three times, a read of the
    file fails) is to make [uploadFile] return a non-nil error that names
    the stage. The code does not: in each of three such runs the batch loop
    ends with the annotated error for the stage, the job is given up, and
    [uploadFile], and with it [UploadObject], returns a nil error and the
    zero result. *)
Theorem uploadFile_loses_the_error_of_the_loop :
  let run_loop w :=
    (result_of (batches 1 0 0 Scripted.small_job Scripted.small_file
                  (Scripted.start w))).1.1 in
  let run w :=
    result_of (UploadObject Scripted.the_api "bucket" "object" "file"
                 (Scripted.start w)) in
  run_loop Scripted.no_urls =
    Some (wrapError
            ("Error getting signed URLs for parts 1-1 :" +:+ newline +:+ "[500] boom")
            (errorString "[500] boom")) /\
  run Scripted.no_urls = (zero_UploadResult, None) /\
  run_loop Scripted.no_upload =
    Some (wrapError
            ("Error uploading a chunk to URL:" +:+ newline +:+ "- u1" +:+ newline
             +:+ "[500] boom")
            (errorString "[500] boom")) /\
  run Scripted.no_upload = (zero_UploadResult, None) /\
  run_loop Scripted.no_read =
    Some (wrapError
            ("Error reading the file to upload:" +:+ newline +:+ "input/output error")
            (errorString "input/output error")) /\
  run Scripted.no_read = (zero_UploadResult, None).
Proof.
  vm_compute. repeat split.
Qed.

(** ** The events of the operations *)

Section Operations.

Context {W : Type} `{Externals W}.

Lemma result_of_mk {A : Type} (a : A) (s : State W) (t : list Event) :
  result_of (a, s, t) = a.
Proof. reflexivity. Qed.

Lemma state_of_mk {A : Type} (a : A) (s : State W) (t : list Event) :
  state_of (a, s, t) = s.
Proof. reflexivity. Qed.

Lemma trace_of_mk {A : Type} (a : A) (s : State W) (t : list Event) :
  trace_of (a, s, t) = t.
Proof. reflexivity. Qed.

(** What holds of every event of every attempt, and of a pause, holds of
    every event of the repeated operation. *)
Lemma retry_more_Forall {R : Type} (P : Event -> Prop) (d : Z)
    (fn : M W (R * option error)) :
  P (EvSleep d) ->
  (forall s, Forall P (trace_of (fn s))) ->
  forall more s, Forall P (trace_of (retry_more more d fn s)).
Proof.
  intros Hsleep Hfn more. induction more as [|more IH]; intros s;
    rewrite retry_more_unfold; specialize (Hfn s);
    destruct (fn s) as [[[r [e|]] s1] t1]; unfold trace_of in *; simpl in *;
    try exact Hfn.
  specialize (IH s1).
  destruct (retry_more more d fn s1) as [[x s2] t2]. simpl in *.
  apply Forall_app. split; [exact Hfn |].
  constructor; [exact Hsleep | exact IH].
Qed.

Lemma getSignedUploadUrls_events (job : uploadJob) (firstPart parts : Z) (s : State W) :
  Forall (get_event job firstPart parts)
         (trace_of (getSignedUploadUrls job firstPart parts s)).
Proof.
  destruct (getSignedUploadUrls_trace job firstPart parts s)
    as [[Ht _] | (bearer & req & n & res & _ & Ht & Hm & _ & _ & _ & Hq & _)];
    rewrite Ht.
  - repeat constructor.
  - repeat constructor; assumption.
Qed.

(** One request for signed URLs succeeds exactly when its round trip
    delivers a batch. *)
Lemma getSignedUploadUrls_outcome (job : uploadJob) (firstPart parts : Z) (s : State W) :
  let a := getSignedUploadUrls job firstPart parts s in
  match (result_of a).2 with
  | None =>
      exists ev,
        trace_of a = [EvToken "data:write data:read"; ev] /\
        accepted ev = Some (result_of a).1
  | Some _ => Forall (fun e => accepted e = None) (trace_of a)
  end.
Proof.
  intros a. subst a.
  destruct (getSignedUploadUrls_trace job firstPart parts s)
    as [[Ht Hr] | (bearer & req & n & res & _ & Ht & _ & _ & _ & _ & _ & Hacc)].
  - destruct ((result_of (getSignedUploadUrls job firstPart parts s)).2);
      [| contradiction].
    rewrite Ht. repeat constructor.
  - destruct (accepted (EvHttp req [] n res)) as [u|] eqn:Ha.
    + rewrite Hacc. simpl. exists (EvHttp req [] n res).
      split; [exact Ht | exact Ha].
    + destruct ((result_of (getSignedUploadUrls job firstPart parts s)).2);
        [| contradiction].
      rewrite Ht. repeat constructor. exact Ha.
Qed.

(** The repeated request for signed URLs: on success the last event is the
    round trip that delivers the batch, and none before it delivers one;
    on failure no event delivers a batch. *)
Lemma retry_get_accepted (job : uploadJob) (firstPart parts : Z) (d : Z) :
  forall more s,
    let a := retry_more more d (getSignedUploadUrls job firstPart parts) s in
    match result_of a with
    | inl u =>
        exists pre ev,
          trace_of a = pre ++ [ev] /\
          Forall (fun e => accepted e = None) pre /\
          accepted ev = Some u
    | inr _ => Forall (fun e => accepted e = None) (trace_of a)
    end.
Proof.
  induction more as [|more IH]; intros s a; subst a;
    rewrite retry_more_unfold;
    pose proof (getSignedUploadUrls_outcome job firstPart parts s) as Ho;
    cbv zeta in Ho;
    destruct (getSignedUploadUrls job firstPart parts s) as [[[u [e|]] s1] t1];
    unfold trace_of, result_of in Ho |- *; cbn [fst snd] in Ho |- *.
  - exact Ho.
  - destruct Ho as (ev & -> & Hev).
    exists [EvToken "data:write data:read"], ev.
    split; [reflexivity |]. split; [| exact Hev].
    repeat constructor.
  - specialize (IH s1). cbv zeta in IH.
    destruct (retry_more more d _ s1) as [[[u'|e'] s2] t2];
      unfold trace_of, result_of in IH; cbn [fst snd] in IH |- *.
    + destruct IH as (pre & ev & -> & Hpre & Hev).
      exists (t1 ++ EvSleep d :: pre), ev.
      split; [rewrite <- app_assoc; reflexivity |].
      split; [| exact Hev].
      apply Forall_app. split; [exact Ho |].
      constructor; [reflexivity | exact Hpre].
    + apply Forall_app. split; [exact Ho |].
      constructor; [reflexivity | exact IH].
  - destruct Ho as (ev & -> & Hev).
    exists [EvToken "data:write data:read"], ev.
    split; [reflexivity |]. split; [| exact Hev].
    repeat constructor.
Qed.

Lemma uploadChunk_events (url : string) (buffer : nat) (s : State W) :
  Forall chunk_event (trace_of (uploadChunk url buffer s)).
Proof.
  rewrite uploadChunk_unfold.
  destruct (NewRequest_err "PUT" url); unfold trace_of; simpl;
    repeat constructor.
Qed.

(** [completeUpload] in closed form, as far as its events go. *)
Lemma completeUpload_events (job : uploadJob) (s : State W) :
  Forall (post_event job) (trace_of (completeUpload job s)).
Proof.
  unfold completeUpload, authenticate, bytes_NewBuffer, http_NewRequest,
    bind, ret, trace_of.
  destruct (GetToken "data:write data:read" (world s)) as [[bearer|e] w];
    [| repeat constructor].
  cbv beta iota.
  destruct (NewRequest_err "POST" (getSignedS3UploadPath job)) as [e|];
    [repeat constructor |].
  cbv beta iota.
  rewrite Client_Do_unfold. cbv zeta.
  set (req := addOrSetHeader _ "x-ads-meta-Content-Type" _).
  assert (Hm : Method req = "POST").
  { subst req. unfold addOrSetHeader.
    repeat (destruct (decide _); simpl); reflexivity. }
  assert (Hb : Body req = Some (length (heap s))).
  { subst req. unfold addOrSetHeader.
    repeat (destruct (decide _); simpl); reflexivity. }
  rewrite Hb. simpl.
  set (r := Transport req _ _).
  assert (Hp : unread {| world := w; heap := heap s ++ [Marshal_completeBody (uploadKey job) (fileSize job)] |}
                 (length (heap s))
               = Marshal_completeBody (uploadKey job) (fileSize job)).
  { unfold unread. simpl. rewrite lookup_app_r by lia.
    rewrite Nat.sub_diag. reflexivity. }
  destruct r.1.2 as [response|e]; simpl;
    [destruct (decide (StatusCode response = http_StatusOK)); simpl;
     [destruct (Decode_UploadResult response); simpl |] |];
    (constructor; [exact I |]); (constructor; [| constructor]);
    (split; [exact Hm | exact Hp]).
Qed.

End Operations.

(** ** The loops, one iteration at a time *)

Section Loops.

Context {W : Type} `{Externals W}.

Lemma File_Read_cases (f : File) (n : Z) (s : State W) :
  let a := File_Read f n s in
  let data := takeZ n (dropZ (offset f) (contents f)) in
  heap (state_of a) = heap s /\
  ((exists msg,
      result_of a = ([], Some (errorString msg), f) /\
      trace_of a = [EvRead (offset f) [] (Some (errorString msg))]) \/
   (data = [] /\
    result_of a = ([], Some io_EOF, f) /\
    trace_of a = [EvRead (offset f) [] (Some io_EOF)]) \/
   (data <> [] /\
    result_of a =
      (data, None, {| contents := contents f; offset := offset f + lenZ data |}) /\
    trace_of a = [EvRead (offset f) data None])).
Proof.
  intros a data. subst a data. unfold File_Read, result_of, state_of, trace_of.
  destruct (ReadFault (world s)) as [[msg|] w]; simpl.
  - split; [reflexivity |]. left. exists msg. split; reflexivity.
  - destruct (takeZ n (dropZ (offset f) (contents f))) as [|b data] eqn:Hd; simpl.
    + split; [reflexivity |]. right. left. repeat split.
    + split; [reflexivity |]. right. right. repeat split. discriminate.
Qed.

Lemma uploadParts_cons (url : string) (urls : list string) (file : File) (s : State W) :
  uploadParts (url :: urls) file s =
    let rd := File_Read file defaultSize s in
    let data := (result_of rd).1.1 in
    let file' := (result_of rd).2 in
    match read_exit (result_of rd).1.2 with
    | Some e => ((Some e, file'), state_of rd, trace_of rd)
    | None =>
        if 0 <? lenZ data then
          let s1 := {| world := world (state_of rd);
                       heap := heap (state_of rd) ++ [data] |} in
          let up := retry_Do 3 (3 * time_Second)
                      (uploadChunk url (length (heap (state_of rd)))) s1 in
          match result_of up with
          | inr e =>
              ((Some (chunk_failure url e), file'), state_of up,
               trace_of rd ++ trace_of up)
          | inl _ =>
              let rest := uploadParts urls file' (state_of up) in
              (result_of rest, state_of rest,
               trace_of rd ++ trace_of up ++ trace_of rest)
          end
        else
          let rest := uploadParts urls file' (state_of rd) in
          (result_of rest, state_of rest, trace_of rd ++ trace_of rest)
    end.
Proof.
  simpl uploadParts.
  unfold bind, ret, bytes_NewBuffer, read_exit, result_of, state_of, trace_of.
  cbv zeta.
  destruct (File_Read file defaultSize s) as [[[[data err] file'] s1] t1].
  cbn [fst snd].
  destruct err as [e|]; [destruct (is_EOF e) |];
    try (cbn [fst snd]; rewrite app_nil_r; reflexivity);
    (destruct (0 <? lenZ data);
     [destruct (retry_Do 3 (3 * time_Second) _ _) as [[[x|e'] s2] t2];
      cbn [fst snd];
      [destruct (uploadParts urls file' s2) as [[r s3] t3]; reflexivity
      | rewrite app_nil_r; reflexivity]
     | destruct (uploadParts urls file' s1) as [[r s3] t3]; reflexivity]).
Qed.

Lemma batches_S (n : nat) (i partsCounter : Z) (job : uploadJob) (file : File)
    (s : State W) :
  batches (S n) i partsCounter job file s =
    let firstPart := int_add (int_mul i maxParts) 1 in
    let parts := getParts job partsCounter in
    let g := retry_Do 3 (3 * time_Second)
               (getSignedUploadUrls job firstPart parts) s in
    match result_of g with
    | inr e =>
        ((Some (urls_failure firstPart parts e), job, file), state_of g, trace_of g)
    | inl uploadUrls =>
        let job' := if decide (i = 0)
                    then set_uploadKey job (UploadKey uploadUrls) else job in
        let up := uploadParts (Urls uploadUrls) file (state_of g) in
        match (result_of up).1 with
        | Some e =>
            ((Some e, job', (result_of up).2), state_of up,
             trace_of g ++ trace_of up)
        | None =>
            let rest := batches n (int_add i 1) (int_add partsCounter maxParts)
                          job' (result_of up).2 (state_of up) in
            (result_of rest, state_of rest,
             trace_of g ++ trace_of up ++ trace_of rest)
        end
    end.
Proof.
  simpl batches.
  unfold bind, ret, result_of, state_of, trace_of. cbv zeta.
  destruct (retry_Do 3 (3 * time_Second) _ s) as [[[u|e] s1] t1];
    cbn [fst snd].
  - destruct (uploadParts (Urls u) file s1) as [[[[e|] file'] s2] t2];
      cbn [fst snd].
    + rewrite app_nil_r. reflexivity.
    + destruct (batches n _ _ _ file' s2) as [[r s3] t3]. reflexivity.
  - rewrite app_nil_r. reflexivity.
Qed.

Lemma uploadFile_unfold (job : uploadJob) (s : State W) :
  uploadFile job s =
    match Open (fileToUpload job) (world s) with
    | inr e => ((zero_UploadResult, Some e, job), s, [])
    | inl c =>
        let b := batches (Z.to_nat (numberOfBatches job)) 0 0 job
                   {| contents := c; offset := 0 |} s in
        let job' := (result_of b).1.2 in
        match (result_of b).1.1 with
        | Some _ => ((zero_UploadResult, None, job'), state_of b, trace_of b)
        | None =>
            let f := retry_Do 3 (3 * time_Second) (completeUpload job')
                       (state_of b) in
            ((match result_of f with
              | inr e => (zero_UploadResult, Some (complete_failure e))
              | inl result => (result, None)
              end, job'), state_of f, trace_of b ++ trace_of f)
        end
    end.
Proof.
  unfold uploadFile, os_Open, bind, ret, result_of, state_of, trace_of.
  cbv zeta.
  destruct (Open (fileToUpload job) (world s)) as [c|e]; [| reflexivity].
  destruct (batches _ 0 0 job _ s) as [[[[[e|] job'] file'] s1] t1];
    cbn [fst snd].
  - simpl. rewrite app_nil_r. reflexivity.
  - destruct (retry_Do 3 (3 * time_Second) _ s1) as [[[r|e] s2] t2];
      cbn [fst snd]; simpl; rewrite app_nil_r; reflexivity.
Qed.

End Loops.

(** ** The events of the loops *)

Section LoopEvents.

Context {W : Type} `{Externals W}.

Lemma retry_get_events (job : uploadJob) (firstPart parts : Z) (s : State W) :
  Forall (get_event job firstPart parts)
    (trace_of (retry_Do 3 (3 * time_Second)
                 (getSignedUploadUrls job firstPart parts) s)).
Proof.
  apply retry_more_Forall; [exact I |].
  apply getSignedUploadUrls_events.
Qed.

Lemma retry_Do_get_accepted (job : uploadJob) (firstPart parts : Z) (s : State W) :
  let a := retry_Do 3 (3 * time_Second)
             (getSignedUploadUrls job firstPart parts) s in
  match result_of a with
  | inl u =>
      exists pre ev,
        trace_of a = pre ++ [ev] /\
        Forall (fun e => accepted e = None) pre /\
        accepted ev = Some u
  | inr _ => Forall (fun e => accepted e = None) (trace_of a)
  end.
Proof. exact (retry_get_accepted job firstPart parts (3 * time_Second) 2 s). Qed.

Lemma retry_chunk_events (url : string) (buffer : nat) (s : State W) :
  Forall chunk_event
    (trace_of (retry_Do 3 (3 * time_Second) (uploadChunk url buffer) s)).
Proof.
  apply retry_more_Forall; [exact I |].
  apply uploadChunk_events.
Qed.

Lemma retry_complete_events (job : uploadJob) (s : State W) :
  Forall (post_event job)
    (trace_of (retry_Do 3 (3 * time_Second) (completeUpload job) s)).
Proof.
  apply retry_more_Forall; [exact I |].
  apply completeUpload_events.
Qed.

Lemma uploadParts_events (urls : list string) :
  forall file s, Forall chunk_event (trace_of (uploadParts urls file s)).
Proof.
  induction urls as [|url urls IH]; intros file s.
  - constructor.
  - rewrite uploadParts_cons. cbv zeta.
    assert (Hrd : Forall chunk_event (trace_of (File_Read file defaultSize s))).
    { destruct (File_Read_cases file defaultSize s)
        as (_ & [(msg & _ & ->) | [(_ & _ & ->) | (_ & _ & ->)]]);
        repeat constructor. }
    destruct (read_exit _); [exact Hrd |].
    destruct (0 <? _).
    + pose proof (retry_chunk_events url
                    (length (heap (state_of (File_Read file defaultSize s))))
                    {| world := world (state_of (File_Read file defaultSize s));
                       heap := heap (state_of (File_Read file defaultSize s)) ++
                               [(result_of (File_Read file defaultSize s)).1.1] |})
        as Hup.
      destruct (result_of (retry_Do 3 (3 * time_Second) _ _)).
      * unfold trace_of at 1. cbn [snd].
        apply Forall_app. split; [exact Hrd |].
        apply Forall_app. split; [exact Hup | apply IH].
      * unfold trace_of at 1. cbn [snd].
        apply Forall_app. split; [exact Hrd | exact Hup].
    + unfold trace_of at 1. cbn [snd].
      apply Forall_app. split; [exact Hrd | apply IH].
Qed.

Lemma uploadParts_nil (file : File) (s : State W) :
  uploadParts [] file s = ((None, file), s, []).
Proof. reflexivity. Qed.

Lemma chunk_event_upload (ev : Event) : chunk_event ev -> upload_event ev.
Proof. destruct ev; simpl; auto. Qed.

Lemma get_event_upload (job : uploadJob) (fp parts : Z) (ev : Event) :
  get_event job fp parts ev -> upload_event ev.
Proof. destruct ev; simpl; intuition. Qed.

Lemma chunk_event_not_accepted (ev : Event) : chunk_event ev -> accepted ev = None.
Proof.
  destruct ev as [| req payload n [response|e] | |]; simpl; try reflexivity.
  intros Hm. destruct (decide (Method req = "GET")) as [Hg|]; [| reflexivity].
  rewrite Hm in Hg. discriminate Hg.
Qed.

Lemma post_event_not_accepted (job : uploadJob) (ev : Event) :
  post_event job ev -> accepted ev = None.
Proof.
  destruct ev as [| req payload n [response|e] | |]; simpl; try reflexivity.
  intros [Hm _]. destruct (decide (Method req = "GET")) as [Hg|]; [| reflexivity].
  rewrite Hm in Hg. discriminate Hg.
Qed.

Lemma chunk_event_carries (job : uploadJob) (k : string) (ev : Event) :
  chunk_event ev -> carries job k ev.
Proof.
  destruct ev as [| req payload n res | |]; simpl; try exact (fun _ => I).
  intros Hm. split; intros Hm'; rewrite Hm in Hm'; discriminate Hm'.
Qed.

Lemma get_event_carries (job : uploadJob) (fp parts : Z) (ev : Event) :
  get_event job fp parts ev -> carries job (uploadKey job) ev.
Proof.
  destruct ev as [| req payload n res | |]; simpl; try exact (fun _ => I).
  intros (Hm & _ & Hq). split.
  - intros _.
    destruct (signed_query_lookup job fp parts) as (_ & _ & _ & Hk).
    destruct (signed_query_values job fp parts) as (_ & _ & Hv).
    cbv zeta in Hk, Hv. rewrite <- Hq in Hk, Hv.
    split; [exact Hv |].
    split.
    + intros Hne. destruct (decide (uploadKey job = "")); [contradiction |].
      apply (Values_Last_snoc _ _ _ _ Hv).
    + intros Hown. unfold Values_Get. rewrite Hk.
      rewrite (Values_of_None _ _ Hown).
      destruct (decide (uploadKey job = "")) as [He|Hne].
      * rewrite Hown. split; [symmetry; exact He | congruence].
      * split; [reflexivity | intros _; reflexivity].
  - intros Hm'. rewrite Hm in Hm'. discriminate Hm'.
Qed.

Lemma post_event_carries (job : uploadJob) (ev : Event) :
  post_event job ev -> carries job (uploadKey job) ev.
Proof.
  destruct ev as [| req payload n res | |]; simpl; try exact (fun _ => I).
  intros (Hm & Hp). split.
  - intros Hm'. rewrite Hm in Hm'. discriminate Hm'.
  - intros _. exact Hp.
Qed.

Lemma carries_fileSize (job job' : uploadJob) (k : string) (ev : Event) :
  fileSize job' = fileSize job -> own_query job' = own_query job ->
  carries job k ev -> carries job' k ev.
Proof.
  intros Hs Ho. destruct ev; simpl; try exact (fun x => x).
  rewrite Hs, Ho. auto.
Qed.

(** From the second batch on, the loop leaves the job as it is, and all its
    requests carry the upload key of the job. *)
Lemma batches_carries (n : nat) :
  forall i pc job file s,
    1 <= i -> i + Z.of_nat n < 2 ^ 63 ->
    let b := batches n i pc job file s in
    (result_of b).1.2 = job /\
    Forall (carries job (uploadKey job)) (trace_of b).
Proof.
  induction n as [|n IH]; intros i pc job file s Hi Hn b; subst b.
  - split; [reflexivity | constructor].
  - rewrite batches_S. cbv zeta.
    pose proof (retry_get_events job (int_add (int_mul i maxParts) 1)
                  (getParts job pc) s) as Hg.
    eapply Forall_impl in Hg; [| intros ev; apply get_event_carries].
    destruct (result_of (retry_Do 3 (3 * time_Second) _ s)) as [u|e].
    2: { split; [reflexivity | exact Hg]. }
    destruct (decide (i = 0)) as [Hz|_]; [lia |].
    set (g := retry_Do 3 (3 * time_Second) _ s) in *.
    pose proof (uploadParts_events (Urls u) file (state_of g)) as Hup.
    eapply Forall_impl in Hup;
      [| intros ev; apply (chunk_event_carries job (uploadKey job))].
    destruct ((result_of (uploadParts (Urls u) file (state_of g))).1) as [e|].
    { split; [reflexivity |].
      unfold trace_of at 1. cbn [snd].
      apply Forall_app. split; assumption. }
    assert (Hi1 : int_add i 1 = i + 1)
      by (apply int_add_id; unfold in_int64; lia).
    rewrite Hi1.
    destruct (IH (i + 1) (int_add pc maxParts) job
                (result_of (uploadParts (Urls u) file (state_of g))).2
                (state_of (uploadParts (Urls u) file (state_of g))))
      as [Hj Hrest]; [lia | lia |].
    split; [exact Hj |].
    unfold trace_of at 1. cbn [snd].
    apply Forall_app. split; [exact Hg |].
    apply Forall_app. split; [exact Hup | exact Hrest].
Qed.

End LoopEvents.

Lemma same_upload_refl (job : uploadJob) : same_upload job job.
Proof. repeat split. Qed.

Lemma same_upload_set (job job' : uploadJob) (k : string) :
  same_upload job job' -> same_upload job (set_uploadKey job' k).
Proof. intros Hs. exact Hs. Qed.

(** ** What holds of every event of a run *)

Section Everywhere.

Context {W : Type} `{Externals W}.

Variable P : Event -> Prop.
Variable job0 : uploadJob.

Hypothesis P_sleep : forall d, P (EvSleep d).
Hypothesis P_read : forall off data err, P (EvRead off data err).
Hypothesis P_get :
  forall job firstPart parts s,
    same_upload job0 job ->
    Forall P (trace_of (getSignedUploadUrls job firstPart parts s)).
Hypothesis P_put :
  forall url buffer s, Forall P (trace_of (uploadChunk url buffer s)).
Hypothesis P_post :
  forall job s,
    same_upload job0 job -> Forall P (trace_of (completeUpload job s)).

Lemma uploadParts_Forall (urls : list string) :
  forall file s, Forall P (trace_of (uploadParts urls file s)).
Proof.
  induction urls as [|url urls IH]; intros file s.
  - constructor.
  - rewrite uploadParts_cons. cbv zeta.
    assert (Hrd : Forall P (trace_of (File_Read file defaultSize s))).
    { destruct (File_Read_cases file defaultSize s)
        as (_ & [(msg & _ & ->) | [(_ & _ & ->) | (_ & _ & ->)]]);
        repeat constructor; apply P_read. }
    destruct (read_exit _); [exact Hrd |].
    destruct (0 <? _).
    + match goal with
      | |- context [retry_Do 3 ?d ?fn ?s1] =>
          assert (Hup : Forall P (trace_of (retry_Do 3 d fn s1)))
            by (apply retry_more_Forall; [apply P_sleep | apply P_put])
      end.
      destruct (result_of (retry_Do 3 (3 * time_Second) _ _)).
      * rewrite trace_of_mk.
        apply Forall_app. split; [exact Hrd |].
        apply Forall_app. split; [exact Hup | apply IH].
      * rewrite trace_of_mk.
        apply Forall_app. split; [exact Hrd | exact Hup].
    + rewrite trace_of_mk.
      apply Forall_app. split; [exact Hrd | apply IH].
Qed.

Lemma batches_Forall (n : nat) :
  forall i pc job file s,
    same_upload job0 job ->
    let b := batches n i pc job file s in
    Forall P (trace_of b) /\ same_upload job0 (result_of b).1.2.
Proof.
  induction n as [|n IH]; intros i pc job file s Hjob b; subst b.
  - split; [constructor | exact Hjob].
  - rewrite batches_S. cbv zeta.
    assert (Hg : Forall P (trace_of
                   (retry_Do 3 (3 * time_Second)
                      (getSignedUploadUrls job (int_add (int_mul i maxParts) 1)
                         (getParts job pc)) s))).
    { apply retry_more_Forall; [apply P_sleep |].
      intros s'. apply P_get. exact Hjob. }
    set (g := retry_Do 3 (3 * time_Second) _ s) in *.
    destruct (result_of g) as [u|e].
    2: { rewrite trace_of_mk, result_of_mk. split; [exact Hg | exact Hjob]. }
    set (job' := if decide (i = 0) then _ else _).
    assert (Hjob' : same_upload job0 job').
    { subst job'. destruct (decide (i = 0)); [| exact Hjob].
      apply same_upload_set. exact Hjob. }
    pose proof (uploadParts_Forall (Urls u) file (state_of g)) as Hup.
    destruct ((result_of (uploadParts (Urls u) file (state_of g))).1).
    + rewrite trace_of_mk, result_of_mk. split; [| exact Hjob'].
      apply Forall_app. split; assumption.
    + rewrite trace_of_mk.
      destruct (IH (int_add i 1) (int_add pc maxParts) job'
                  (result_of (uploadParts (Urls u) file (state_of g))).2
                  (state_of (uploadParts (Urls u) file (state_of g))) Hjob')
        as [Hrest Hsame].
      split; [| exact Hsame].
      apply Forall_app. split; [exact Hg |].
      apply Forall_app. split; [exact Hup | exact Hrest].
Qed.

Lemma uploadFile_Forall (s : State W) :
  Forall P (trace_of (uploadFile job0 s)) /\
  same_upload job0 (result_of (uploadFile job0 s)).2.
Proof.
  rewrite uploadFile_unfold.
  destruct (Open (fileToUpload job0) (world s)) as [c|e].
  2: { split; [constructor | apply same_upload_refl]. }
  cbv zeta.
  destruct (batches_Forall (Z.to_nat (numberOfBatches job0)) 0 0 job0
              {| contents := c; offset := 0 |} s (same_upload_refl job0))
    as [Hb Hsame].
  set (b := batches _ 0 0 job0 _ s) in *.
  destruct ((result_of b).1.1).
  - rewrite trace_of_mk, result_of_mk. split; assumption.
  - rewrite trace_of_mk, result_of_mk. split; [| exact Hsame].
    apply Forall_app. split; [exact Hb |].
    apply retry_more_Forall; [apply P_sleep |].
    intros s'. apply P_post. exact Hsame.
Qed.

End Everywhere.

Section SameUpload.

Context {W : Type} `{Externals W}.

Lemma getSignedS3UploadPath_same (job job' : uploadJob) :
  same_upload job job' -> getSignedS3UploadPath job' = getSignedS3UploadPath job.
Proof.
  intros (Ha & Hb & Ho & _). unfold getSignedS3UploadPath.
  rewrite Ha, Hb, Ho. reflexivity.
Qed.

Lemma own_query_same (job job' : uploadJob) :
  same_upload job job' -> own_query job' = own_query job.
Proof.
  intros Hs. unfold own_query. rewrite (getSignedS3UploadPath_same job job' Hs).
  reflexivity.
Qed.

Lemma get_event_appends (job job' : uploadJob) (fp parts : Z) (ev : Event) :
  same_upload job job' -> get_event job' fp parts ev -> appends job ev.
Proof.
  intros Hs. destruct ev as [| req payload n res | |]; simpl;
    try exact (fun _ => I).
  intros (Hm & _ & Hq). unfold appends, http_with.
  destruct (decide (Method req = "GET")) as [_|Hne]; [| contradiction].
  destruct (signed_query_values job' fp parts) as (Hf & Hp & _).
  cbv zeta in Hf, Hp. rewrite <- Hq in Hf, Hp.
  rewrite (Values_Last_snoc _ _ _ _ Hf), (Values_Last_snoc _ _ _ _ Hp).
  rewrite <- (own_query_same job job' Hs). split; assumption.
Qed.

Lemma other_event_appends (job : uploadJob) (ev : Event) :
  http_with "GET" ev = None -> appends job ev.
Proof. intros Hn. unfold appends. rewrite Hn. exact I. Qed.

(** Every request for signed URLs of a run appends its arguments to those
    of the URL of the job. *)
Lemma uploadFile_appends (job : uploadJob) (s : State W) :
  Forall (appends job) (trace_of (uploadFile job s)).
Proof.
  apply (uploadFile_Forall (appends job) job).
  - intros d. exact I.
  - intros off data err. exact I.
  - intros job' fp parts s' Hs.
    eapply Forall_impl; [apply getSignedUploadUrls_events |].
    intros ev. apply get_event_appends. exact Hs.
  - intros url buffer s'.
    eapply Forall_impl; [apply uploadChunk_events |].
    intros ev Hev. apply other_event_appends.
    destruct ev as [| req payload n res | |]; try reflexivity.
    simpl in Hev. unfold http_with. rewrite Hev.
    destruct (decide ("PUT" = "GET")) as [Hx|]; [discriminate Hx | reflexivity].
  - intros job' s' _.
    eapply Forall_impl; [apply completeUpload_events |].
    intros ev Hev. apply other_event_appends.
    destruct ev as [| req payload n res | |]; try reflexivity.
    simpl in Hev. destruct Hev as [Hm _]. unfold http_with. rewrite Hm.
    destruct (decide ("POST" = "GET")) as [Hx|]; [discriminate Hx | reflexivity].
Qed.

End SameUpload.

(** ** The upload key *)

Section UploadKey.

Context {W : Type} `{Externals W}.

(** C3. In every run of [uploadFile], of however many batches: the upload
    key taken from the first batch of signed URLs that is delivered (by
    [retry.Do] of the first batch, no earlier request having delivered one)
    is the upload key of the job from then on, and every later request
    carries it unchanged: every request for signed URLs as the value that it
    gives its [uploadKey] query argument, and the completion request as the
    [uploadKey] of its marshalled body. The request appends the key to the
    values that the URL of the job has for the argument (a key of the bucket
    or of the object with a question mark in it can give the URL some): the
    key is the last value of the argument, and its only value where the URL
    has none. (An empty key is carried by adding nothing, see C7.) *)
Theorem uploadFile_reuses_the_upload_key (job : uploadJob) (s : State W) :
  in_int64 (numberOfBatches job) ->
  let a := uploadFile job s in
  Forall (fun e => accepted e = None) (trace_of a) \/
  exists pre ev u post,
    trace_of a = pre ++ ev :: post /\
    Forall (fun e => accepted e = None) pre /\
    accepted ev = Some u /\
    uploadKey (result_of a).2 = UploadKey u /\
    Forall (carries job (UploadKey u)) post.
Proof.
  intros Hnb a. subst a. rewrite uploadFile_unfold.
  destruct (Open (fileToUpload job) (world s)) as [c|e];
    [| left; constructor].
  cbv zeta.
  destruct (Z.to_nat (numberOfBatches job)) as [|n] eqn:Hn.
  { (* no batch at all *)
    left. unfold result_of, state_of, trace_of. simpl.
    eapply Forall_impl; [apply retry_complete_events |].
    intros ev. apply post_event_not_accepted. }
  rewrite batches_S. cbv zeta.
  set (g := retry_Do 3 (3 * time_Second) _ s).
  pose proof (retry_Do_get_accepted job (int_add (int_mul 0 maxParts) 1)
                (getParts job 0) s) as Hacc.
  cbv zeta in Hacc. fold g in Hacc.
  destruct (result_of g) as [u|e].
  2: { left. exact Hacc. }
  destruct Hacc as (pre & ev & Hg & Hpre & Hev).
  right. exists pre, ev, u.
  destruct (decide (0 = 0)) as [_|Hne]; [| contradiction].
  set (job' := set_uploadKey job (UploadKey u)).
  set (up := uploadParts (Urls u) {| contents := c; offset := 0 |} (state_of g)).
  pose proof (uploadParts_events (Urls u) {| contents := c; offset := 0 |}
                (state_of g)) as Hup.
  fold up in Hup.
  eapply Forall_impl in Hup;
    [| intros x; apply (chunk_event_carries job (UploadKey u))].
  destruct ((result_of up).1) as [e|].
  { exists (trace_of up). unfold result_of, trace_of at 1. cbn [fst snd].
    split; [rewrite Hg, <- app_assoc; reflexivity |].
    split; [exact Hpre |]. split; [exact Hev |]. split; [reflexivity |].
    exact Hup. }
  destruct (batches_carries n (int_add 0 1) (int_add 0 maxParts) job'
              (result_of up).2 (state_of up)) as [Hj Hrest].
  { rewrite int_add_id by (unfold in_int64; lia). lia. }
  { rewrite int_add_id by (unfold in_int64; lia).
    unfold in_int64 in Hnb. lia. }
  set (rest := batches n _ _ job' _ (state_of up)) in *.
  eapply Forall_impl in Hrest;
    [| intros x; apply (carries_fileSize job' job); reflexivity].
  assert (Hfin : forall s', Forall (carries job (UploadKey u))
                   (trace_of (retry_Do 3 (3 * time_Second) (completeUpload job') s'))).
  { intros s'. eapply Forall_impl; [apply retry_complete_events |].
    intros x Hx. apply (carries_fileSize job' job); [reflexivity | reflexivity |].
    apply (post_event_carries job' x Hx). }
  rewrite !result_of_mk, !state_of_mk, !trace_of_mk.
  destruct (result_of rest) as [[loop_err job''] file''] eqn:Hres.
  cbn [fst snd] in Hj |- *. subst job''.
  destruct loop_err as [e|].
  - exists (trace_of up ++ trace_of rest).
    rewrite !result_of_mk, !trace_of_mk. cbn [fst snd].
    split; [rewrite Hg, <- app_assoc; reflexivity |].
    split; [exact Hpre |]. split; [exact Hev |]. split; [reflexivity |].
    apply Forall_app. split; assumption.
  - exists ((trace_of up ++ trace_of rest) ++
            trace_of (retry_Do 3 (3 * time_Second) (completeUpload job')
                        (state_of rest))).
    rewrite !result_of_mk, !trace_of_mk. cbn [fst snd].
    split; [rewrite Hg, <- !app_assoc; reflexivity |].
    split; [exact Hpre |]. split; [exact Hev |]. split; [reflexivity |].
    apply Forall_app. split; [apply Forall_app; split; assumption | apply Hfin].
Qed.

End UploadKey.

(** A run of two batches: the second request for signed URLs and the
    completion request carry the key "K" of the first batch. (And the same
    run for an object whose key gives the URL an [uploadKey] argument of its
    own: the second request has that value and, after it, the key "K".) *)
Lemma uploadFile_reuses_the_upload_key_witness :
  let a := uploadFile Scripted.two_batch_job
             (Scripted.start Scripted.two_batches) in
  let a' := uploadFile Scripted.query_two_batch_job
              (Scripted.start Scripted.two_batches) in
  let uploadKeys a :=
    omap (fun ev => match ev with
                    | EvHttp req payload _ _ =>
                        Some (Method req, Values_of (Query req) "uploadKey",
                              string_of_list_byte payload)
                    | _ => None
                    end) (trace_of a) in
  in_int64 (numberOfBatches Scripted.two_batch_job) /\
  (Forall (fun e => accepted e = None) (trace_of a) \/
   exists pre ev u post,
     trace_of a = pre ++ ev :: post /\
     Forall (fun e => accepted e = None) pre /\
     accepted ev = Some u /\
     uploadKey (result_of a).2 = UploadKey u /\
     Forall (carries Scripted.two_batch_job (UploadKey u)) post) /\
  uploadKey (result_of a).2 = "K" /\
  uploadKeys a =
    [("GET", [], ""); ("PUT", [], "abc"); ("GET", ["K"], "");
     ("POST", [], "uploadKey=K size=2726297600")] /\
  uploadKeys a' =
    [("GET", ["evil/signeds3upload"], ""); ("PUT", [], "abc");
     ("GET", ["evil/signeds3upload"; "K"], "");
     ("POST", ["evil/signeds3upload"], "uploadKey=K size=2726297600")].
Proof.
  intros a a' uploadKeys.
  assert (Hint : in_int64 (numberOfBatches Scripted.two_batch_job))
    by (unfold in_int64; simpl; lia).
  split; [exact Hint |].
  split; [| split; [reflexivity | split; vm_compute; reflexivity]].
  apply (uploadFile_reuses_the_upload_key Scripted.two_batch_job
           (Scripted.start Scripted.two_batches) Hint).
Defined.

(** ** The plan of the batches *)

Section Plan.

Context {W : Type} `{Externals W}.

Lemma get_event_request (job : uploadJob) (fp parts : Z) (ev : Event) :
  get_event job fp parts ev ->
  batch_request ev = None \/ batch_request ev = Some (Itoa fp, Itoa parts).
Proof.
  destruct ev as [| req payload n res | |]; simpl; auto.
  intros (Hm & _ & Hq). right.
  unfold batch_request, http_with.
  destruct (decide (Method req = "GET")) as [_|Hne]; [| contradiction].
  destruct (signed_query_values job fp parts) as (Hf & Hp & _).
  cbv zeta in Hf, Hp. rewrite <- Hq in Hf, Hp.
  rewrite (Values_Last_snoc _ _ _ _ Hf), (Values_Last_snoc _ _ _ _ Hp).
  reflexivity.
Qed.

Lemma chunk_event_no_request (ev : Event) :
  chunk_event ev -> batch_request ev = None.
Proof.
  destruct ev as [| req payload n res | |]; simpl; try reflexivity.
  intros Hm. unfold batch_request, http_with.
  destruct (decide (Method req = "GET")) as [Hg|]; [| reflexivity].
  rewrite Hm in Hg. discriminate Hg.
Qed.

Lemma post_event_no_request (job : uploadJob) (ev : Event) :
  post_event job ev -> batch_request ev = None.
Proof.
  destruct ev as [| req payload n res | |]; simpl; try reflexivity.
  intros [Hm _]. unfold batch_request, http_with.
  destruct (decide (Method req = "GET")) as [Hg|]; [| reflexivity].
  rewrite Hm in Hg. discriminate Hg.
Qed.

Lemma batch_requests_none (tr : list Event) :
  Forall (fun ev => batch_request ev = None) tr -> batch_requests tr = [].
Proof.
  induction 1 as [|ev tr Hev _ IH]; [reflexivity |].
  unfold batch_requests in *. simpl. rewrite Hev. exact IH.
Qed.

Lemma batch_requests_app (t1 t2 : list Event) :
  batch_requests (t1 ++ t2) = batch_requests t1 ++ batch_requests t2.
Proof. apply omap_app. Qed.

Lemma batch_requests_replicate (job : uploadJob) (fp parts : Z) (tr : list Event) :
  Forall (get_event job fp parts) tr ->
  batch_requests tr =
    replicate (length (batch_requests tr)) (Itoa fp, Itoa parts).
Proof.
  induction 1 as [|ev tr Hev _ IH]; [reflexivity |].
  unfold batch_requests in *. simpl.
  destruct (get_event_request job fp parts ev Hev) as [-> | ->].
  - exact IH.
  - simpl. f_equal. exact IH.
Qed.

(** Each attempt sends at most one request. *)
Lemma getSignedUploadUrls_one_request (job : uploadJob) (fp parts : Z) (s : State W) :
  (length (batch_requests (trace_of (getSignedUploadUrls job fp parts s))) <= 1)%nat.
Proof.
  destruct (getSignedUploadUrls_trace job fp parts s)
    as [[Ht _] | (bearer & req & n & res & _ & Ht & _)]; rewrite Ht.
  - simpl. lia.
  - unfold batch_requests. simpl. destruct (batch_request _); simpl; lia.
Qed.

Lemma retry_more_requests {R : Type} (d : Z) (fn : M W (R * option error)) :
  (forall s, (length (batch_requests (trace_of (fn s))) <= 1)%nat) ->
  forall more s,
    (length (batch_requests (trace_of (retry_more more d fn s))) <= S more)%nat.
Proof.
  intros Hfn more. induction more as [|more IH]; intros s;
    rewrite retry_more_unfold; specialize (Hfn s);
    destruct (fn s) as [[[r [e|]] s1] t1]; rewrite ?trace_of_mk in *;
    try lia.
  specialize (IH s1).
  destruct (retry_more more d fn s1) as [[x s2] t2].
  rewrite ?trace_of_mk in *. rewrite batch_requests_app, length_app.
  change (batch_requests (EvSleep d :: t2)) with (batch_requests t2). lia.
Qed.

(** The requests of the repeated request for signed URLs: between one and
    three on success, at most three on failure, all for the same parts. *)
Lemma retry_get_requests (job : uploadJob) (fp parts : Z) (s : State W) :
  let a := retry_Do 3 (3 * time_Second) (getSignedUploadUrls job fp parts) s in
  exists c,
    (c <= 3)%nat /\
    batch_requests (trace_of a) = replicate c (Itoa fp, Itoa parts) /\
    (forall u, result_of a = inl u -> (1 <= c)%nat).
Proof.
  intros a.
  exists (length (batch_requests (trace_of a))).
  split.
  { apply (retry_more_requests _ _ (getSignedUploadUrls_one_request job fp parts) 2). }
  split.
  { apply (batch_requests_replicate job). apply retry_get_events. }
  intros u Hu.
  pose proof (retry_Do_get_accepted job fp parts s) as Hacc.
  cbv zeta in Hacc. fold a in Hacc. rewrite Hu in Hacc.
  destruct Hacc as (pre & ev & Ht & _ & Hev).
  rewrite Ht, batch_requests_app, length_app.
  assert (Hreq : batch_request ev <> None).
  { destruct ev as [| req payload n [response|e] | |]; simpl in Hev;
      try discriminate Hev.
    unfold batch_request, http_with.
    destruct (decide (Method req = "GET")); [discriminate | discriminate Hev]. }
  unfold batch_requests at 2. simpl.
  destruct (batch_request ev); [simpl; lia | contradiction].
Qed.

End Plan.

Section PlanOfTheLoop.

Context {W : Type} `{Externals W}.

Lemma firstPart_value (i : Z) :
  0 <= i < 2 ^ 41 -> int_add (int_mul i maxParts) 1 = i * 25 + 1.
Proof.
  intros Hi. unfold maxParts.
  rewrite int_mul_id by (unfold in_int64; lia).
  apply int_add_id. unfold in_int64. lia.
Qed.

Lemma getParts_value (job : uploadJob) (i : Z) :
  0 <= i < 2 ^ 41 -> 0 <= totalParts job < 2 ^ 41 ->
  getParts job (25 * i) = Z.min 25 (totalParts job - 25 * i).
Proof.
  intros Hi Ht. unfold getParts, maxParts.
  rewrite int_add_id by (unfold in_int64; lia).
  destruct (Z.ltb_spec (totalParts job) (25 * i + 25)).
  - rewrite int_sub_id by (unfold in_int64; lia). lia.
  - lia.
Qed.

Lemma batches_upload_events (n : nat) :
  forall i pc job file s,
    Forall upload_event (trace_of (batches n i pc job file s)).
Proof.
  induction n as [|n IH]; intros i pc job file s.
  - constructor.
  - rewrite batches_S. cbv zeta.
    pose proof (retry_get_events job (int_add (int_mul i maxParts) 1)
                  (getParts job pc) s) as Hg.
    eapply Forall_impl in Hg; [| intros ev; apply get_event_upload].
    set (g := retry_Do 3 (3 * time_Second) _ s) in *.
    destruct (result_of g) as [u|e]; [| exact Hg].
    pose proof (uploadParts_events (Urls u) file (state_of g)) as Hup.
    eapply Forall_impl in Hup; [| intros ev; apply chunk_event_upload].
    destruct ((result_of (uploadParts (Urls u) file (state_of g))).1).
    + rewrite trace_of_mk. apply Forall_app. split; assumption.
    + rewrite trace_of_mk. apply Forall_app. split; [exact Hg |].
      apply Forall_app. split; [exact Hup | apply IH].
Qed.

Lemma upload_event_not_completion (ev : Event) :
  upload_event ev -> ~ is_completion ev.
Proof.
  destruct ev as [| req payload n res | |]; simpl;
    unfold is_completion, http_with; intros Hu [x Hx]; try discriminate Hx.
  destruct (decide (Method req = "POST")) as [Hp|]; [| discriminate Hx].
  rewrite Hp in Hu. destruct Hu as [Hu|Hu]; discriminate Hu.
Qed.

(** The requests for signed URLs that the loop makes from batch [i] on:
    batch after batch those of the plan, each at most three times, and, if
    the loop runs to its end, each at least once. *)
Lemma batches_requests (n : nat) :
  forall i pc job file s,
    0 <= i -> pc = 25 * i -> i + Z.of_nat n < 2 ^ 41 ->
    0 <= totalParts job < 2 ^ 41 ->
    let b := batches n i pc job file s in
    exists attempts,
      (length attempts <= n)%nat /\
      Forall (fun c => (c <= 3)%nat) attempts /\
      batch_requests (trace_of b) =
        requests_of_plan (totalParts job) (Z.to_nat i) attempts /\
      ((result_of b).1.1 = None ->
       length attempts = n /\ Forall (fun c => (1 <= c)%nat) attempts).
Proof.
  induction n as [|n IH]; intros i pc job file s Hi Hpc Hn Ht b; subst b.
  - exists []. simpl. repeat split; try constructor.
  - rewrite batches_S. cbv zeta.
    rewrite firstPart_value by lia. subst pc.
    rewrite getParts_value by lia.
    destruct (retry_get_requests job (i * 25 + 1)
                (Z.min 25 (totalParts job - 25 * i)) s) as (c & Hc & Hreq & Hok).
    set (g := retry_Do 3 (3 * time_Second) _ s) in *.
    assert (Hplan : (Itoa (i * 25 + 1), Itoa (Z.min 25 (totalParts job - 25 * i)))
                    = planned_request (totalParts job) (Z.to_nat i)).
    { unfold planned_request. rewrite Z2Nat.id by lia. reflexivity. }
    rewrite Hplan in Hreq.
    destruct (result_of g) as [u|e] eqn:Hres.
    2: { exists [c]. rewrite result_of_mk, trace_of_mk. simpl.
         split; [lia |]. split; [constructor; [exact Hc | constructor] |].
         split; [rewrite app_nil_r; exact Hreq | discriminate]. }
    specialize (Hok u eq_refl).
    set (job' := if decide (i = 0) then set_uploadKey job (UploadKey u) else job).
    assert (Hjob : totalParts job' = totalParts job)
      by (subst job'; destruct (decide (i = 0)); reflexivity).
    set (up := uploadParts (Urls u) file (state_of g)).
    assert (Hup : batch_requests (trace_of up) = []).
    { apply batch_requests_none.
      eapply Forall_impl; [apply uploadParts_events |].
      intros ev. apply chunk_event_no_request. }
    destruct ((result_of up).1) as [e|].
    { exists [c]. rewrite result_of_mk, trace_of_mk. simpl.
      split; [lia |]. split; [constructor; [exact Hc | constructor] |].
      split; [| discriminate].
      rewrite batch_requests_app, Hup, Hreq, !app_nil_r. reflexivity. }
    unfold maxParts.
    rewrite (int_add_id i 1) by (unfold in_int64; lia).
    rewrite (int_add_id (25 * i) 25) by (unfold in_int64; lia).
    destruct (IH (i + 1) (25 * i + 25) job' (result_of up).2 (state_of up))
      as (attempts & Hlen & Hall & Hrest & Hdone);
      [lia | lia | lia | rewrite Hjob; lia |].
    rewrite Hjob in Hrest.
    exists (c :: attempts). rewrite trace_of_mk. simpl.
    split; [lia |]. split; [constructor; assumption |].
    split.
    + rewrite !batch_requests_app, Hup, Hreq, Hrest. simpl.
      replace (Z.to_nat (i + 1)) with (S (Z.to_nat i)) by lia. reflexivity.
    + intros Hnone. destruct (Hdone Hnone) as [Hl Hf].
      split; [lia | constructor; assumption].
Qed.

(** The requests for signed URLs of a run follow the plan. *)
Lemma uploadFile_requests (job : uploadJob) (s : State W) :
  planned job ->
  let tr := trace_of (uploadFile job s) in
  exists attempts,
    (length attempts <= Z.to_nat (numberOfBatches job))%nat /\
    Forall (fun c => (c <= 3)%nat) attempts /\
    batch_requests tr = requests_of_plan (totalParts job) 0 attempts /\
    (Exists is_completion tr ->
     length attempts = Z.to_nat (numberOfBatches job) /\
     Forall (fun c => (1 <= c)%nat) attempts).
Proof.
  intros Hplan tr. subst tr.
  pose proof (planned_totalParts job Hplan) as Ht.
  pose proof (planned_numberOfBatches job Hplan) as Hn.
  rewrite uploadFile_unfold.
  destruct (Open (fileToUpload job) (world s)) as [c|e].
  2: { exists []. rewrite trace_of_mk. simpl.
       split; [lia |]. split; [constructor |]. split; [reflexivity |].
       intros Hex. inversion Hex. }
  cbv zeta.
  destruct (batches_requests (Z.to_nat (numberOfBatches job)) 0 0 job
              {| contents := c; offset := 0 |} s)
    as (attempts & Hlen & Hall & Hreq & Hdone); [lia | lia | lia | lia |].
  set (b := batches _ 0 0 job _ s) in *.
  pose proof (batches_upload_events (Z.to_nat (numberOfBatches job)) 0 0 job
                {| contents := c; offset := 0 |} s) as Hev.
  fold b in Hev.
  exists attempts.
  split; [exact Hlen |]. split; [exact Hall |].
  destruct ((result_of b).1.1) as [e|].
  - rewrite trace_of_mk. split; [exact Hreq |].
    intros Hex. apply Exists_exists in Hex. destruct Hex as (ev & Hin & Hc).
    rewrite Forall_forall in Hev.
    exfalso. apply (upload_event_not_completion ev); [| exact Hc].
    apply Hev. exact Hin.
  - rewrite trace_of_mk. split; [| intros _; apply Hdone; reflexivity].
    rewrite batch_requests_app, Hreq.
    rewrite (batch_requests_none (trace_of (retry_Do _ _ _ _))).
    + apply app_nil_r.
    + eapply Forall_impl; [apply retry_complete_events |].
      intros ev. apply post_event_no_request.
Qed.

Lemma appends_single_valued (job : uploadJob) (ev : Event) :
  own_query job !! "firstPart" = None -> own_query job !! "parts" = None ->
  appends job ev -> single_valued ev.
Proof.
  intros Hf Hp. unfold appends, single_valued.
  destruct (http_with "GET" ev) as [req|]; [| exact (fun x => x)].
  rewrite (Values_of_None _ _ Hf), (Values_of_None _ _ Hp).
  unfold Values_of. simpl app.
  destruct (Query req !! "firstPart") as [vf|]; simpl;
    [| intros [Hx _]; discriminate Hx].
  destruct (Query req !! "parts") as [vp|]; simpl;
    [| intros [_ Hx]; discriminate Hx].
  intros [-> ->]. split; reflexivity.
Qed.

(** C4. For a job as [newUploadJob] plans it, the requests for signed URLs
    of any run of [uploadFile] are, batch after batch from batch 0 on,
    those of the plan: for batch [i], first part 25 i + 1 and
    min(25, totalParts - 25 i) parts, sent between one and three times
    (the attempts of [retry.Do]; fewer than one only where the token or the
    request fails). There are at most [numberOfBatches] batches, and
    exactly as many in a run that reaches the completion request. With 30
    parts this gives two batches: 25 parts from part 1 on, 5 parts from
    part 26 on.

    The first part and the number of parts of a request are the values
    that it gives its [firstPart] and [parts] arguments. It appends them to
    the values that the URL of the job has for these arguments (a key with
    a question mark in it can give the URL some): they are the last values
    of the arguments, and their only values where the URL has none. *)
Theorem uploadFile_batch_requests (job : uploadJob) (s : State W) :
  planned job ->
  let tr := trace_of (uploadFile job s) in
  (exists attempts,
     (length attempts <= Z.to_nat (numberOfBatches job))%nat /\
     Forall (fun c => (c <= 3)%nat) attempts /\
     batch_requests tr = requests_of_plan (totalParts job) 0 attempts /\
     (Exists is_completion tr ->
      length attempts = Z.to_nat (numberOfBatches job) /\
      Forall (fun c => (1 <= c)%nat) attempts)) /\
  (forall i, 0 <= i < numberOfBatches job ->
     planned_request (totalParts job) (Z.to_nat i) =
       (Itoa (i * 25 + 1), Itoa (Z.min 25 (totalParts job - 25 * i))) /\
     0 <= Z.min 25 (totalParts job - 25 * i)) /\
  (totalParts job = 30 ->
   numberOfBatches job = 2 /\
   planned_request (totalParts job) 0 = ("1", "25") /\
   planned_request (totalParts job) 1 = ("26", "5")) /\
  Forall (appends job) tr /\
  (own_query job !! "firstPart" = None -> own_query job !! "parts" = None ->
   Forall single_valued tr).
Proof.
  intros Hplan tr. subst tr.
  pose proof (planned_totalParts job Hplan) as Ht.
  pose proof (planned_numberOfBatches job Hplan) as Hn.
  split; [| split; [| split; [| split]]].
  - apply uploadFile_requests. exact Hplan.
  - intros i Hi. unfold planned_request. rewrite Z2Nat.id by lia.
    split; [reflexivity |].
    destruct Hplan as (_ & _ & Hnb). unfold maxParts in Hnb.
    assert (25 * (totalParts job / 25) <= totalParts job)
      by (apply Z.mul_div_le; lia).
    lia.
  - intros H30. destruct Hplan as (_ & _ & Hnb).
    rewrite H30 in *. split; [rewrite Hnb; reflexivity |].
    split; reflexivity.
  - apply uploadFile_appends.
  - intros Hf Hp. eapply Forall_impl; [apply uploadFile_appends |].
    intros ev. apply appends_single_valued; assumption.
Qed.

End PlanOfTheLoop.

(** The two batches of a job of thirty parts. (And the one batch of a job
    whose URL has a [parts] argument of its own: the request asks for one
    part from part 1 on, after the value of the URL.) *)
Lemma uploadFile_batch_requests_witness :
  let job := Scripted.thirty_job in
  let tr := trace_of (uploadFile job (Scripted.start Scripted.thirty)) in
  let tr' := trace_of (uploadFile Scripted.parts_job
                         (Scripted.start Scripted.fine)) in
  planned job /\
  batch_requests tr = [("1", "25"); ("26", "5")] /\
  ((exists attempts,
      (length attempts <= Z.to_nat (numberOfBatches job))%nat /\
      Forall (fun c => (c <= 3)%nat) attempts /\
      batch_requests tr = requests_of_plan (totalParts job) 0 attempts /\
      (Exists is_completion tr ->
       length attempts = Z.to_nat (numberOfBatches job) /\
       Forall (fun c => (1 <= c)%nat) attempts)) /\
   Forall single_valued tr) /\
  batch_requests tr' = [("1", "1")] /\
  omap (fun ev => match http_with "GET" ev with
                  | Some req => Some (Values_of (Query req) "parts")
                  | None => None
                  end) tr' = [["7/signeds3upload"; "1"]].
Proof.
  intros job tr tr'.
  assert (Hplan : planned job).
  { unfold planned. simpl. split; [lia |]. split; reflexivity. }
  split; [exact Hplan |]. split; [reflexivity |].
  split; [| split; vm_compute; reflexivity].
  destruct (uploadFile_batch_requests job (Scripted.start Scripted.thirty) Hplan)
    as (Hreq & _ & _ & _ & Hsingle).
  split; [exact Hreq |].
  apply Hsingle; vm_compute; reflexivity.
Defined.

(** ** The batch after a full last batch *)

Section ExtraBatch.

Context {W : Type} `{Externals W}.

Lemma accepted_is_request (ev : Event) (u : signedUploadUrls) :
  accepted ev = Some u -> batch_request ev <> None.
Proof.
  destruct ev as [| req payload n [response|e] | |]; simpl;
    try discriminate.
  unfold batch_request, http_with.
  destruct (decide (Method req = "GET")); discriminate.
Qed.

(** When the loop runs to its end, the last batch of signed URLs was
    delivered to the request planned for the last batch, and after it come
    only the transfers of the chunks of this batch. *)
Lemma batches_last (n : nat) :
  forall i pc job file s,
    0 <= i -> pc = 25 * i -> i + Z.of_nat (S n) < 2 ^ 41 ->
    0 <= totalParts job < 2 ^ 41 ->
    let b := batches (S n) i pc job file s in
    (result_of b).1.1 = None ->
    exists pre ev u chunks,
      trace_of b = pre ++ ev :: chunks /\
      batch_request ev =
        Some (planned_request (totalParts job) (Z.to_nat i + n)) /\
      accepted ev = Some u /\
      Forall chunk_event chunks /\
      (Urls u = [] -> chunks = []).
Proof.
  induction n as [|n IH]; intros i pc job file s Hi Hpc Hn Ht b; subst b;
    rewrite batches_S; cbv zeta;
    rewrite firstPart_value by lia; subst pc;
    rewrite getParts_value by lia;
    pose proof (retry_Do_get_accepted job (i * 25 + 1)
                  (Z.min 25 (totalParts job - 25 * i)) s) as Hacc;
    pose proof (retry_get_events job (i * 25 + 1)
                  (Z.min 25 (totalParts job - 25 * i)) s) as Hev;
    cbv zeta in Hacc;
    set (g := retry_Do 3 (3 * time_Second) _ s) in *;
    (destruct (result_of g) as [u|e];
     [| rewrite result_of_mk; discriminate]);
    destruct Hacc as (pre0 & ev & Hg & _ & Hu);
    set (job' := if decide (i = 0) then set_uploadKey job (UploadKey u) else job);
    assert (Hjob : totalParts job' = totalParts job)
      by (subst job'; destruct (decide (i = 0)); reflexivity);
    set (up := uploadParts (Urls u) file (state_of g));
    pose proof (uploadParts_events (Urls u) file (state_of g)) as Hup;
    fold up in Hup;
    (destruct ((result_of up).1) as [e|];
     [rewrite result_of_mk; discriminate |]).
  - (* the last batch *)
    intros _. simpl batches. unfold ret. rewrite trace_of_mk, app_nil_r.
    exists pre0, ev, u, (trace_of up).
    split; [rewrite Hg, <- app_assoc; reflexivity |].
    split.
    { rewrite Hg in Hev. apply Forall_app in Hev. destruct Hev as [_ Hev].
      inversion Hev as [|x l Hx _]; subst.
      destruct (get_event_request _ _ _ _ Hx) as [Hnone | Hsome].
      - exfalso. exact (accepted_is_request ev u Hu Hnone).
      - rewrite Hsome. unfold planned_request.
        rewrite Nat.add_0_r, Z2Nat.id by lia. reflexivity. }
    split; [exact Hu |]. split; [exact Hup |].
    intros Hnil. subst up. rewrite Hnil. reflexivity.
  - (* an earlier batch *)
    unfold maxParts.
    rewrite (int_add_id i 1) by (unfold in_int64; lia).
    rewrite (int_add_id (25 * i) 25) by (unfold in_int64; lia).
    rewrite result_of_mk. intros Hnone.
    destruct (IH (i + 1) (25 * i + 25) job' (result_of up).2 (state_of up))
      as (pre & ev' & u' & chunks & Ht' & Hreq & Hu' & Hch & Hnil);
      [lia | lia | lia | rewrite Hjob; lia | exact Hnone |].
    rewrite trace_of_mk.
    exists (trace_of g ++ trace_of up ++ pre), ev', u', chunks.
    split; [rewrite Ht', <- !app_assoc; reflexivity |].
    split.
    { rewrite Hreq, Hjob. do 2 f_equal. lia. }
    split; [exact Hu' |]. split; assumption.
Qed.

Lemma Exists_is_completion (tr : list Event) :
  existsb is_completion_b tr = true -> Exists is_completion tr.
Proof.
  induction tr as [|ev tr IH]; simpl; [discriminate |].
  destruct (is_completion_b ev) eqn:Hb; simpl.
  - intros _. apply Exists_cons_hd. unfold is_completion_b in Hb.
    unfold is_completion. destruct (http_with "POST" ev); [eauto | discriminate].
  - intros Htr. apply Exists_cons_tl, IH, Htr.
Qed.

(** C9. For a job as [newUploadJob] plans it whose number of parts is a
    positive multiple 25 m of 25, the number of batches is m + 1, and for
    the last batch, batch m counted from 0, [getParts] gives 0 parts: the
    plan, which the requests of every run follow, ends with the request for
    0 parts from part 25 m + 1 on. So every run of [uploadFile] that reaches
    the completion request has made, before it, this one more request for
    signed URLs, and has had it answered; between the answer and the
    completion phase come only transfers for the URLs of this answer: none
    when the answer has no URL. (The parts and the first part of a request
    are the values that it gives these arguments, which it appends to those
    of the URL of the job, if that has any.) *)
Theorem uploadFile_extra_empty_batch (job : uploadJob) (m : Z) :
  planned job -> 1 <= m -> totalParts job = 25 * m ->
  numberOfBatches job = m + 1 /\
  getParts job (25 * m) = 0 /\
  planned_request (totalParts job) (Z.to_nat m) = (Itoa (25 * m + 1), "0") /\
  forall s : State W,
    let tr := trace_of (uploadFile job s) in
    (exists attempts,
       (length attempts <= Z.to_nat (m + 1))%nat /\
       batch_requests tr = requests_of_plan (totalParts job) 0 attempts) /\
    Forall (appends job) tr /\
    (Exists is_completion tr ->
     exists pre ev u chunks fin,
       tr = pre ++ ev :: chunks ++ fin /\
       batch_request ev = Some (Itoa (25 * m + 1), "0") /\
       accepted ev = Some u /\
       Forall chunk_event chunks /\
       (Urls u = [] -> chunks = []) /\
       Forall completion_event fin /\
       Exists is_completion fin).
Proof.
  intros Hplan Hm Htp.
  pose proof (planned_totalParts job Hplan) as Ht.
  assert (Hnb : numberOfBatches job = m + 1).
  { destruct Hplan as (_ & _ & Hnb). rewrite Hnb, Htp. unfold maxParts.
    rewrite (Z.mul_comm 25 m), Z.div_mul by lia. reflexivity. }
  split; [exact Hnb |].
  split.
  { rewrite getParts_value by lia. lia. }
  split.
  { unfold planned_request. rewrite Z2Nat.id by lia. rewrite Htp.
    replace (m * 25 + 1) with (25 * m + 1) by lia.
    replace (25 * m - 25 * m) with 0 by lia. reflexivity. }
  intros s tr. split.
  { destruct (uploadFile_requests job s Hplan) as (attempts & Hlen & _ & Hreq & _).
    exists attempts. rewrite <- Hnb. split; [exact Hlen | exact Hreq]. }
  split; [apply uploadFile_appends |].
  intros Hex. subst tr.
  rewrite uploadFile_unfold in Hex |- *.
  destruct (Open (fileToUpload job) (world s)) as [c|e].
  2: { rewrite trace_of_mk in Hex. inversion Hex. }
  cbv zeta in Hex |- *.
  assert (Hn : Z.to_nat (numberOfBatches job) = S (Z.to_nat m))
    by (rewrite Hnb; lia).
  rewrite Hn in Hex |- *.
  pose proof (batches_upload_events (S (Z.to_nat m)) 0 0 job
                {| contents := c; offset := 0 |} s) as Hev.
  destruct (batches_last (Z.to_nat m) 0 0 job
              {| contents := c; offset := 0 |} s)
    as (pre & ev & u & chunks & Htr & Hreq & Hu & Hch & Hnil);
    [lia | lia | lia | lia | |].
  { (* the loop ran to its end *)
    destruct ((result_of (batches _ 0 0 job _ s)).1.1) as [e|];
      [| reflexivity].
    rewrite trace_of_mk in Hex.
    apply Exists_exists in Hex. destruct Hex as (x & Hin & Hc).
    rewrite Forall_forall in Hev.
    exfalso. exact (upload_event_not_completion x (Hev x Hin) Hc). }
  set (b := batches _ 0 0 job _ s) in *.
  destruct ((result_of b).1.1) as [e|].
  { rewrite trace_of_mk in Hex.
    apply Exists_exists in Hex. destruct Hex as (x & Hin & Hc).
    rewrite Forall_forall in Hev.
    exfalso. exact (upload_event_not_completion x (Hev x Hin) Hc). }
  rewrite trace_of_mk in Hex |- *.
  set (f := retry_Do 3 (3 * time_Second) _ (state_of b)) in *.
  exists pre, ev, u, chunks, (trace_of f).
  split; [rewrite Htr, <- app_assoc; reflexivity |].
  split.
  { rewrite Hreq. unfold planned_request. simpl Z.to_nat.
    rewrite Nat.add_0_l, Z2Nat.id by lia. rewrite Htp.
    replace (m * 25 + 1) with (25 * m + 1) by lia.
    replace (25 * m - 25 * m) with 0 by lia.
    reflexivity. }
  split; [exact Hu |]. split; [exact Hch |]. split; [exact Hnil |].
  split.
  { eapply Forall_impl; [apply retry_complete_events |].
    intros x. destruct x; simpl; tauto. }
  apply Exists_app in Hex. destruct Hex as [Hex | Hex]; [| exact Hex].
  apply Exists_exists in Hex. destruct Hex as (x & Hin & Hc).
  rewrite Forall_forall in Hev.
  exfalso. exact (upload_event_not_completion x (Hev x Hin) Hc).
Qed.

End ExtraBatch.

(** A job of twenty-five parts: its second batch asks for no part. *)
Lemma uploadFile_extra_empty_batch_witness :
  let job := Scripted.full_batch_job in
  let tr := trace_of (uploadFile job (Scripted.start Scripted.full_batch)) in
  planned job /\
  batch_requests tr = [("1", "25"); ("26", "0")] /\
  exists pre ev u chunks fin,
    tr = pre ++ ev :: chunks ++ fin /\
    batch_request ev = Some (Itoa (25 * 1 + 1), "0") /\
    accepted ev = Some u /\
    Forall chunk_event chunks /\
    (Urls u = [] -> chunks = []) /\
    Forall completion_event fin /\
    Exists is_completion fin.
Proof.
  intros job tr.
  assert (Hplan : planned job).
  { unfold planned. simpl. split; [lia |]. split; reflexivity. }
  split; [exact Hplan |]. split; [reflexivity |].
  apply (proj2 (proj2 (proj2 (proj2 (proj2 (uploadFile_extra_empty_batch job 1
                                              Hplan ltac:(lia)
                                              ltac:(reflexivity))))
                         (Scripted.start Scripted.full_batch)))).
  apply Exists_is_completion. vm_compute. reflexivity.
Defined.

(** ** Slices *)

Lemma takeZ_take {A : Type} (l : list A) :
  forall n, takeZ n l = take (Z.to_nat n) l.
Proof.
  induction l as [|x l IH]; intros n; simpl.
  - destruct (Z.to_nat n); reflexivity.
  - destruct (Z.leb_spec n 0).
    + replace (Z.to_nat n) with O by lia. reflexivity.
    + replace (Z.to_nat n) with (S (Z.to_nat (n - 1))) by lia.
      simpl. rewrite IH. reflexivity.
Qed.

Lemma dropZ_drop {A : Type} (l : list A) :
  forall n, dropZ n l = drop (Z.to_nat n) l.
Proof.
  induction l as [|x l IH]; intros n; simpl.
  - destruct (Z.to_nat n); reflexivity.
  - destruct (Z.leb_spec n 0).
    + replace (Z.to_nat n) with O by lia. reflexivity.
    + replace (Z.to_nat n) with (S (Z.to_nat (n - 1))) by lia.
      simpl. rewrite IH. reflexivity.
Qed.

Lemma dropZ_min {A : Type} (l : list A) (n : Z) :
  dropZ (Z.min n (lenZ l)) l = dropZ n l.
Proof.
  rewrite !dropZ_drop. unfold lenZ.
  destruct (Z.le_gt_cases n (Z.of_nat (length l))).
  - rewrite Z.min_l by lia. reflexivity.
  - rewrite Z.min_r by lia. rewrite Nat2Z.id.
    rewrite !drop_ge by lia. reflexivity.
Qed.

Lemma lenZ_chunk (c : list byte) (k : Z) :
  0 <= k ->
  lenZ (chunk c k) = Z.max 0 (Z.min defaultSize (lenZ c - k * defaultSize)).
Proof.
  intros Hk. unfold chunk, lenZ.
  rewrite takeZ_take, dropZ_drop, length_take, length_drop.
  rewrite defaultSize_value. lia.
Qed.

Lemma chunk_nil (c : list byte) (k : Z) :
  0 <= k -> chunk c k = [] -> lenZ c <= k * defaultSize.
Proof.
  intros Hk Hnil. pose proof (lenZ_chunk c k Hk) as Hl.
  rewrite Hnil in Hl. unfold lenZ at 1 in Hl. simpl in Hl.
  rewrite defaultSize_value in *. lia.
Qed.

Lemma chunk_not_nil (c : list byte) (k : Z) :
  0 <= k -> chunk c k <> [] -> k * defaultSize < lenZ c.
Proof.
  intros Hk Hne. pose proof (lenZ_chunk c k Hk) as Hl.
  destruct (chunk c k) as [|b l] eqn:Hc; [contradiction |].
  unfold lenZ at 1 in Hl. simpl length in Hl.
  rewrite defaultSize_value in *. lia.
Qed.

(** ** The reads of a trace *)

Lemma reads_then_app (a b : list Event) :
  reads_then (a ++ b) = map (patch_next (head b)) (reads_then a) ++ reads_then b.
Proof.
  induction a as [|ev a IH]; [reflexivity |].
  destruct ev as [scope | req payload n res | off data err | d]; simpl;
    try exact IH.
  rewrite IH. unfold patch_next at 1. simpl.
  destruct a as [|ev' a']; reflexivity.
Qed.

Lemma reads_then_none (a : list Event) :
  Forall (fun ev => file_read ev = None) a -> reads_then a = [].
Proof.
  induction 1 as [|ev a Hev _ IH]; [reflexivity |].
  destruct ev; simpl in *; try exact IH. discriminate Hev.
Qed.

Lemma reads_then_skip (a b : list Event) :
  Forall (fun ev => file_read ev = None) a -> reads_then (a ++ b) = reads_then b.
Proof.
  intros Ha. rewrite reads_then_app, (reads_then_none a Ha). reflexivity.
Qed.

Lemma transfer_event_no_read (ev : Event) :
  transfer_event ev -> file_read ev = None.
Proof. destruct ev; simpl; intros Ht; try reflexivity; contradiction. Qed.

Section ReadsOfTheOperations.

Context {W : Type} `{Externals W}.

Lemma get_event_no_read (job : uploadJob) (fp parts : Z) (ev : Event) :
  get_event job fp parts ev -> file_read ev = None.
Proof. destruct ev; simpl; intros Ht; try reflexivity; contradiction. Qed.

Lemma post_event_no_read (job : uploadJob) (ev : Event) :
  post_event job ev -> file_read ev = None.
Proof. destruct ev; simpl; intros Ht; try reflexivity; contradiction. Qed.

Lemma issued_app (a b : list Event) : issued (a ++ b) = issued a ++ issued b.
Proof. unfold issued. rewrite omap_app, map_app, concat_app. reflexivity. Qed.

Lemma issued_none (a : list Event) :
  Forall (fun ev => accepted ev = None) a -> issued a = [].
Proof.
  induction 1 as [|ev a Hev _ IH]; [reflexivity |].
  unfold issued in *. simpl. rewrite Hev. exact IH.
Qed.

Lemma uploadChunk_transfer (url : string) (buffer : nat) (s : State W) :
  Forall transfer_event (trace_of (uploadChunk url buffer s)).
Proof.
  rewrite uploadChunk_unfold.
  destruct (NewRequest_err "PUT" url); rewrite trace_of_mk;
    repeat constructor.
Qed.

Lemma retry_chunk_transfer (url : string) (buffer : nat) (s : State W) :
  Forall transfer_event
    (trace_of (retry_Do 3 (3 * time_Second) (uploadChunk url buffer) s)).
Proof.
  apply retry_more_Forall; [exact I |].
  apply uploadChunk_transfer.
Qed.

(** The first event of the transfer of a chunk is the upload of the whole
    buffer. *)
Lemma retry_chunk_head (url : string) (buffer : nat) (s : State W) :
  NewRequest_err "PUT" url = None ->
  exists n res more,
    trace_of (retry_Do 3 (3 * time_Second) (uploadChunk url buffer) s) =
      EvHttp (chunk_request url buffer (lenZ (unread s buffer)))
             (unread s buffer) n res :: more.
Proof.
  intros Hnew. unfold retry_Do. simpl Nat.sub.
  rewrite retry_more_unfold, uploadChunk_unfold, Hnew. cbv zeta.
  destruct (outcome_error _) as [e|].
  - destruct (retry_more 1 _ _ _) as [[x s2] t2]. rewrite trace_of_mk.
    eexists _, _, _. reflexivity.
  - rewrite trace_of_mk. eexists _, _, _. reflexivity.
Qed.

Lemma read_in_order_patch (c : list byte) (k : Z) (url : string)
    (next : option Event) (r : Z * list byte * option error * option Event) :
  read_in_order c k url r -> read_in_order c k url (patch_next next r).
Proof.
  destruct r as [[[off data] err] nx]. unfold read_in_order, patch_next. simpl.
  intros [Hoff Hr]. split; [exact Hoff |].
  destruct err as [e|]; [exact Hr |].
  destruct Hr as (Hd & Hne & Hnx). split; [exact Hd |]. split; [exact Hne |].
  intros Hnew. destruct (Hnx Hnew) as (p & n & res & ->).
  exists p, n, res. reflexivity.
Qed.

Lemma reads_in_order_patch (c : list byte) (next : option Event)
    (rs : list (Z * list byte * option error * option Event)) :
  forall k urls,
    reads_in_order c k urls rs ->
    reads_in_order c k urls (map (patch_next next) rs).
Proof.
  induction rs as [|r rs IH]; intros k urls; simpl; [auto |].
  destruct urls as [|url urls]; [auto |].
  intros [Hr Hrs]. split; [apply read_in_order_patch; exact Hr | apply IH; exact Hrs].
Qed.

Lemma reads_in_order_app (c : list byte)
    (rs1 rs2 : list (Z * list byte * option error * option Event)) :
  forall k urls1 urls2,
    reads_in_order c k urls1 rs1 ->
    length rs1 = length urls1 ->
    reads_in_order c (k + lenZ urls1) urls2 rs2 ->
    reads_in_order c k (urls1 ++ urls2) (rs1 ++ rs2).
Proof.
  induction rs1 as [|r rs1 IH]; intros k urls1 urls2 H1 Hlen H2.
  - destruct urls1; [| discriminate Hlen]. simpl.
    unfold lenZ in H2. simpl in H2. rewrite Z.add_0_r in H2. exact H2.
  - destruct urls1 as [|url urls1]; [discriminate Hlen |].
    simpl in *. destruct H1 as [Hr Hrs]. split; [exact Hr |].
    apply IH; [exact Hrs | lia |].
    unfold lenZ in *. simpl length in H2.
    replace (k + 1 + Z.of_nat (length urls1))
      with (k + Z.of_nat (S (length urls1))) by lia.
    exact H2.
Qed.

Lemma reads_in_order_lookup (c : list byte)
    (rs : list (Z * list byte * option error * option Event)) :
  forall k urls j r,
    reads_in_order c k urls rs ->
    rs !! j = Some r ->
    exists url, urls !! j = Some url /\ read_in_order c (k + Z.of_nat j) url r.
Proof.
  induction rs as [|r0 rs IH]; intros k urls j r Hrs Hj; [discriminate Hj |].
  destruct urls as [|url urls]; [contradiction |].
  simpl in Hrs. destruct Hrs as [Hr Hrs].
  destruct j as [|j]; simpl in Hj.
  - injection Hj as <-. exists url. split; [reflexivity |].
    rewrite Z.add_0_r. exact Hr.
  - destruct (IH (k + 1) urls j r Hrs Hj) as (url' & Hu & Hr').
    exists url'. split; [exact Hu |].
    replace (k + Z.of_nat (S j)) with (k + 1 + Z.of_nat j) by lia. exact Hr'.
Qed.

End ReadsOfTheOperations.

(** ** The chunks of a batch *)

Section ChunksOfABatch.

Context {W : Type} `{Externals W}.

Lemma unread_fresh (s : State W) (data : list byte) :
  unread {| world := world s; heap := heap s ++ [data] |} (length (heap s)) = data.
Proof.
  unfold unread. simpl. rewrite lookup_app_r by lia.
  rewrite Nat.sub_diag. reflexivity.
Qed.

Lemma offset_next (c : list byte) (k : Z) :
  0 <= k -> chunk c k <> [] ->
  Z.min (k * defaultSize) (lenZ c) + lenZ (chunk c k)
  = Z.min ((k + 1) * defaultSize) (lenZ c).
Proof.
  intros Hk Hne. pose proof (chunk_not_nil c k Hk Hne) as Hlt.
  rewrite (lenZ_chunk c k Hk). rewrite defaultSize_value in *. lia.
Qed.

Lemma offset_stays (c : list byte) (k : Z) :
  0 <= k -> chunk c k = [] ->
  Z.min (k * defaultSize) (lenZ c) = Z.min ((k + 1) * defaultSize) (lenZ c).
Proof.
  intros Hk Hnil. pose proof (chunk_nil c k Hk Hnil) as Hle.
  rewrite defaultSize_value in *. lia.
Qed.

(** The loop over the URLs of a batch, entered after [k] reads: it reads
    chunk [k] for the first URL, chunk [k + 1] for the second, and so on,
    and uploads each chunk that is not empty right after reading it. *)
Lemma uploadParts_reads (c : list byte) (urls : list string) :
  forall file s k,
    contents file = c -> 0 <= k ->
    offset file = Z.min (k * defaultSize) (lenZ c) ->
    let a := uploadParts urls file s in
    reads_in_order c k urls (reads_then (trace_of a)) /\
    contents (result_of a).2 = c /\
    ((result_of a).1 = None ->
     length (reads_then (trace_of a)) = length urls /\
     offset (result_of a).2 = Z.min ((k + lenZ urls) * defaultSize) (lenZ c)).
Proof.
  induction urls as [|url urls IH]; intros file s k Hc Hk Hoff a; subst a.
  { rewrite uploadParts_nil, result_of_mk, trace_of_mk. simpl.
    split; [exact I |]. split; [exact Hc |]. intros _.
    split; [reflexivity |]. unfold lenZ. simpl. rewrite Z.add_0_r. exact Hoff. }
  rewrite uploadParts_cons. cbv zeta.
  assert (Hchunk : takeZ defaultSize (dropZ (offset file) (contents file)) = chunk c k).
  { rewrite Hoff, Hc, dropZ_min. reflexivity. }
  destruct (File_Read_cases file defaultSize s)
    as (_ & [(msg & Hres & Htr) | [(Hnil & Hres & Htr) | (Hne & Hres & Htr)]]);
    cbv zeta in *; rewrite Hres, Htr; cbn [fst snd].
  - (* the read fails *)
    unfold read_exit, is_EOF. cbv beta iota.
    rewrite result_of_mk, trace_of_mk. simpl.
    split; [| split; [exact Hc | discriminate]].
    split; [| exact I]. split; [exact Hoff |].
    split; [reflexivity | discriminate].
  - (* the end of the file *)
    rewrite Hchunk in Hnil.
    unfold read_exit, is_EOF. cbv beta iota.
    change (0 <? lenZ []) with false. cbv iota.
    rewrite result_of_mk, trace_of_mk.
    destruct (IH file (state_of (File_Read file defaultSize s)) (k + 1))
      as (Hrs & Hc' & Hdone);
      [exact Hc | lia | rewrite Hoff; apply offset_stays; assumption |].
    split; [| split; [exact Hc' |]].
    + simpl. split; [| exact Hrs].
      split; [exact Hoff |]. split; [reflexivity | intros _; exact Hnil].
    + intros Hnone. destruct (Hdone Hnone) as [Hlen Hoff'].
      split; [simpl; rewrite Hlen; reflexivity |].
      rewrite Hoff'. f_equal. f_equal. unfold lenZ. simpl length. lia.
  - (* a chunk *)
    rewrite Hchunk in Hne |- *.
    unfold read_exit. cbv beta iota.
    assert (Hpos : (0 <? lenZ (chunk c k)) = true).
    { apply Z.ltb_lt. unfold lenZ. destruct (chunk c k); [contradiction |].
      simpl length. lia. }
    rewrite Hpos.
    set (s0 := state_of (File_Read file defaultSize s)).
    set (s1 := {| world := world s0; heap := heap s0 ++ [chunk c k] |}).
    set (up := retry_Do 3 (3 * time_Second)
                 (uploadChunk url (length (heap s0))) s1).
    pose proof (retry_chunk_transfer url (length (heap s0)) s1) as Hup.
    fold up in Hup.
    assert (Hskip : Forall (fun ev => file_read ev = None) (trace_of up)).
    { eapply Forall_impl; [exact Hup |]. intros ev. apply transfer_event_no_read. }
    assert (Hhead : forall rest,
               NewRequest_err "PUT" url = None ->
               exists p n res,
                 head (trace_of up ++ rest) =
                   Some (EvHttp (chunk_request url p (lenZ (chunk c k)))
                                (chunk c k) n res)).
    { intros rest Hnew.
      destruct (retry_chunk_head url (length (heap s0)) s1 Hnew)
        as (n & res & more & Ht).
      fold up in Ht. rewrite Ht. subst s1. rewrite unread_fresh.
      exists (length (heap s0)), n, res. reflexivity. }
    set (file' := {| contents := contents file;
                     offset := offset file + lenZ (chunk c k) |}).
    destruct (result_of up) as [x|e].
    + (* uploaded: on to the next URL *)
      rewrite result_of_mk, trace_of_mk.
      destruct (IH file' (state_of up) (k + 1)) as (Hrs & Hc' & Hdone);
        [exact Hc | lia
        | subst file'; simpl; rewrite Hoff; apply offset_next; assumption |].
      simpl reads_then. rewrite reads_then_skip by exact Hskip.
      split; [| split; [exact Hc' |]].
      * split; [| exact Hrs].
        split; [exact Hoff |]. split; [reflexivity |]. split; [exact Hne |].
        apply Hhead.
      * intros Hnone. destruct (Hdone Hnone) as [Hlen Hoff'].
        split; [simpl; rewrite Hlen; reflexivity |].
        rewrite Hoff'. f_equal. f_equal. unfold lenZ. simpl length. lia.
    + (* the upload fails *)
      rewrite result_of_mk, trace_of_mk.
      simpl reads_then. rewrite <- (app_nil_r (trace_of up)) at 2.
      rewrite reads_then_skip by exact Hskip.
      split; [| split; [exact Hc | discriminate]].
      simpl. split; [| exact I].
      split; [exact Hoff |]. split; [reflexivity |]. split; [exact Hne |].
      intros Hnew. destruct (Hhead [] Hnew) as (p & n & res & Hh).
      rewrite app_nil_r in Hh. exists p, n, res. exact Hh.
Qed.

End ChunksOfABatch.

(** ** The chunks of a run *)

Section ChunksOfARun.

Context {W : Type} `{Externals W}.

Lemma retry_get_issued (job : uploadJob) (fp parts : Z) (s : State W) :
  let g := retry_Do 3 (3 * time_Second) (getSignedUploadUrls job fp parts) s in
  issued (trace_of g) = match result_of g with
                        | inl u => Urls u
                        | inr _ => []
                        end.
Proof.
  intros g. pose proof (retry_Do_get_accepted job fp parts s) as Hacc.
  cbv zeta in Hacc. fold g in Hacc.
  destruct (result_of g) as [u|e].
  - destruct Hacc as (pre & ev & -> & Hpre & Hev).
    rewrite issued_app, (issued_none pre Hpre).
    unfold issued. simpl. rewrite Hev. simpl. apply app_nil_r.
  - apply issued_none, Hacc.
Qed.

Lemma uploadParts_issued (urls : list string) (file : File) (s : State W) :
  issued (trace_of (uploadParts urls file s)) = [].
Proof.
  apply issued_none.
  eapply Forall_impl; [apply uploadParts_events |].
  intros ev. apply chunk_event_not_accepted.
Qed.

(** The batch loop, entered after [k] reads: the reads of the file go on
    from chunk [k], one for each signed URL in the order of issue. *)
Lemma batches_reads (c : list byte) (n : nat) :
  forall i pc job file s k,
    contents file = c -> 0 <= k ->
    offset file = Z.min (k * defaultSize) (lenZ c) ->
    let b := batches n i pc job file s in
    reads_in_order c k (issued (trace_of b)) (reads_then (trace_of b)) /\
    contents (result_of b).2 = c /\
    ((result_of b).1.1 = None ->
     length (reads_then (trace_of b)) = length (issued (trace_of b)) /\
     offset (result_of b).2 =
       Z.min ((k + lenZ (issued (trace_of b))) * defaultSize) (lenZ c)).
Proof.
  induction n as [|n IH]; intros i pc job file s k Hc Hk Hoff b; subst b.
  { simpl. unfold ret, result_of, trace_of. simpl.
    split; [exact I |]. split; [exact Hc |]. intros _.
    split; [reflexivity |]. unfold lenZ. simpl. rewrite Z.add_0_r. exact Hoff. }
  rewrite batches_S. cbv zeta.
  pose proof (retry_get_events job (int_add (int_mul i maxParts) 1)
                (getParts job pc) s) as Hg.
  eapply Forall_impl in Hg; [| intros ev; apply get_event_no_read].
  pose proof (retry_get_issued job (int_add (int_mul i maxParts) 1)
                (getParts job pc) s) as Hiss.
  cbv zeta in Hiss.
  set (g := retry_Do 3 (3 * time_Second) _ s) in *.
  destruct (result_of g) as [u|e].
  2: { rewrite result_of_mk, trace_of_mk, (reads_then_none _ Hg). simpl.
       split; [exact I |]. split; [exact Hc | discriminate]. }
  set (job' := if decide (i = 0) then set_uploadKey job (UploadKey u) else job).
  destruct (uploadParts_reads c (Urls u) file (state_of g) k Hc Hk Hoff)
    as (Hrs & Hc' & Hdone).
  pose proof (uploadParts_issued (Urls u) file (state_of g)) as Hiu.
  set (up := uploadParts (Urls u) file (state_of g)) in *.
  destruct ((result_of up).1) as [e|].
  { rewrite result_of_mk, trace_of_mk. cbn [fst snd].
    rewrite (reads_then_skip _ _ Hg), issued_app, Hiss, Hiu, app_nil_r.
    split; [exact Hrs |]. split; [exact Hc' | discriminate]. }
  destruct (Hdone eq_refl) as [Hlen Hoff'].
  destruct (IH (int_add i 1) (int_add pc maxParts) job' (result_of up).2
              (state_of up) (k + lenZ (Urls u)))
    as (Hrs' & Hc'' & Hdone');
    [exact Hc' | unfold lenZ; lia | exact Hoff' |].
  set (rest := batches n _ _ job' _ (state_of up)) in *.
  rewrite result_of_mk, trace_of_mk.
  rewrite (reads_then_skip _ _ Hg), reads_then_app.
  rewrite !issued_app, Hiss, Hiu. simpl app.
  split; [| split; [exact Hc'' |]].
  - apply reads_in_order_app.
    + apply reads_in_order_patch. exact Hrs.
    + rewrite length_map. exact Hlen.
    + exact Hrs'.
  - intros Hnone. destruct (Hdone' Hnone) as [Hlen' Hoff''].
    split.
    + rewrite !length_app, length_map. lia.
    + rewrite Hoff''. f_equal. f_equal. unfold lenZ.
      rewrite length_app. lia.
Qed.

End ChunksOfARun.

(** ** Decimal numerals *)

Lemma Itoa_inj (a b : Z) : Itoa a = Itoa b -> a = b.
Proof.
  unfold Itoa. intros Heq.
  assert (Hnz : forall z, Z.to_int z <> Decimal.Pos Decimal.Nil /\
                          Z.to_int z <> Decimal.Neg Decimal.Nil).
  { intros z. destruct z as [|p|p]; simpl; split; try discriminate;
      intros Hp; injection Hp as Hp;
      apply (DecimalPos.Unsigned.to_uint_nonnil p); exact Hp. }
  apply DecimalZ.to_int_inj.
  assert (Some (Z.to_int a) = Some (Z.to_int b)) as Hs.
  { rewrite <- (NilZero.isi (Z.to_int a)) by apply Hnz.
    rewrite <- (NilZero.isi (Z.to_int b)) by apply Hnz.
    rewrite Heq. reflexivity. }
  injection Hs as Hs. exact Hs.
Qed.

(** ** The bytes read *)

Lemma bytes_read_app (a b : list Event) :
  bytes_read (a ++ b) = bytes_read a ++ bytes_read b.
Proof. unfold bytes_read. rewrite omap_app, concat_app. reflexivity. Qed.

Lemma bytes_read_none (a : list Event) :
  Forall (fun ev => file_read ev = None) a -> bytes_read a = [].
Proof.
  induction 1 as [|ev a Hev _ IH]; [reflexivity |].
  unfold bytes_read in *. destruct ev; simpl in *; try exact IH.
  discriminate Hev.
Qed.

Lemma takeZ_all {A : Type} (l : list A) : takeZ (lenZ l) l = l.
Proof.
  rewrite takeZ_take. unfold lenZ. rewrite Nat2Z.id. apply take_ge. lia.
Qed.

Lemma takeZ_next {A : Type} (c : list A) (off n : Z) :
  0 <= off ->
  takeZ (off + lenZ (takeZ n (dropZ off c))) c
  = takeZ off c ++ takeZ n (dropZ off c).
Proof.
  intros Hoff. rewrite !takeZ_take, dropZ_drop. unfold lenZ.
  set (a := Z.to_nat off). set (m := Z.to_nat n).
  replace (Z.to_nat (off + Z.of_nat (length (take m (drop a c)))))
    with (a + length (take m (drop a c)))%nat by lia.
  destruct (Nat.le_gt_cases a (length c)) as [Hle|Hgt].
  - assert (Hc : c = take a c ++ drop a c) by (symmetry; apply take_drop).
    assert (Hp : length (take a c) = a) by (rewrite length_take; lia).
    remember (drop a c) as d eqn:Hd. remember (take a c) as p eqn:Hp'.
    rewrite Hc. rewrite <- Hp at 1.
    rewrite take_app_add'  by reflexivity.
    f_equal. rewrite length_take.
    destruct (Nat.le_gt_cases m (length d)).
    + rewrite Nat.min_l by lia. reflexivity.
    + rewrite Nat.min_r by lia. rewrite !take_ge by lia. reflexivity.
  - rewrite (drop_ge c a) by lia. rewrite take_nil. simpl.
    rewrite Nat.add_0_r, app_nil_r. reflexivity.
Qed.

Section BytesOfARun.

Context {W : Type} `{Externals W}.

(** The file up to the cursor is what was there before and the bytes read
    since. *)
Lemma uploadParts_consumed (urls : list string) :
  forall file s,
    0 <= offset file ->
    let a := uploadParts urls file s in
    contents (result_of a).2 = contents file /\
    0 <= offset (result_of a).2 /\
    takeZ (offset (result_of a).2) (contents file)
    = takeZ (offset file) (contents file) ++ bytes_read (trace_of a).
Proof.
  induction urls as [|url urls IH]; intros file s Hoff a; subst a.
  { rewrite uploadParts_nil, result_of_mk, trace_of_mk. simpl.
    rewrite app_nil_r. split; [reflexivity |]. split; [exact Hoff | reflexivity]. }
  rewrite uploadParts_cons. cbv zeta.
  destruct (File_Read_cases file defaultSize s)
    as (_ & [(msg & Hres & Htr) | [(Hnil & Hres & Htr) | (Hne & Hres & Htr)]]);
    cbv zeta in *; rewrite Hres, Htr; cbn [fst snd];
    unfold read_exit, is_EOF; cbv beta iota.
  - rewrite result_of_mk, trace_of_mk. simpl. rewrite app_nil_r.
    split; [reflexivity |]. split; [exact Hoff | reflexivity].
  - change (0 <? lenZ []) with false. cbv iota.
    rewrite result_of_mk, trace_of_mk.
    destruct (IH file (state_of (File_Read file defaultSize s)) Hoff)
      as (Hc & Hpos & Heq).
    split; [exact Hc |]. split; [exact Hpos |]. rewrite Heq. reflexivity.
  - set (data := takeZ defaultSize (dropZ (offset file) (contents file))) in *.
    set (file' := {| contents := contents file; offset := offset file + lenZ data |}).
    assert (Hoff' : 0 <= offset file') by (subst file'; unfold lenZ; simpl; lia).
    assert (Hstep : takeZ (offset file') (contents file)
                    = takeZ (offset file) (contents file) ++ data)
      by (subst file' data; simpl; apply takeZ_next; exact Hoff).
    assert (Hpos : (0 <? lenZ data) = true).
    { apply Z.ltb_lt. unfold lenZ. destruct data; [contradiction |].
      simpl length. lia. }
    rewrite Hpos.
    set (s1 := {| world := _; heap := _ |}).
    set (up := retry_Do 3 (3 * time_Second) _ s1).
    assert (Hup : bytes_read (trace_of up) = []).
    { apply bytes_read_none.
      eapply Forall_impl; [apply (retry_chunk_transfer url _ s1) |].
      intros ev. apply transfer_event_no_read. }
    destruct (result_of up) as [x|e]; rewrite result_of_mk, trace_of_mk.
    + destruct (IH file' (state_of up) Hoff') as (Hc & Hpos' & Heq).
      split; [exact Hc |]. split; [exact Hpos' |].
      change (contents file') with (contents file) in Heq.
      rewrite Heq, Hstep, !bytes_read_app, Hup.
      unfold bytes_read at 2. simpl. rewrite app_nil_r, <- app_assoc. reflexivity.
    + cbn [snd]. split; [reflexivity |]. split; [exact Hoff' |].
      rewrite Hstep, bytes_read_app, Hup.
      unfold bytes_read. simpl. rewrite !app_nil_r. reflexivity.
Qed.

Lemma batches_consumed (n : nat) :
  forall i pc job file s,
    0 <= offset file ->
    let b := batches n i pc job file s in
    0 <= offset (result_of b).2 /\
    takeZ (offset (result_of b).2) (contents file)
    = takeZ (offset file) (contents file) ++ bytes_read (trace_of b).
Proof.
  induction n as [|n IH]; intros i pc job file s Hoff b; subst b.
  { simpl. unfold ret, result_of, trace_of. simpl.
    rewrite app_nil_r. split; [exact Hoff | reflexivity]. }
  rewrite batches_S. cbv zeta.
  pose proof (retry_get_events job (int_add (int_mul i maxParts) 1)
                (getParts job pc) s) as Hg.
  eapply Forall_impl in Hg; [| intros ev; apply get_event_no_read].
  apply bytes_read_none in Hg.
  set (g := retry_Do 3 (3 * time_Second) _ s) in *.
  destruct (result_of g) as [u|e].
  2: { rewrite result_of_mk, trace_of_mk, Hg, app_nil_r.
       split; [exact Hoff | reflexivity]. }
  destruct (uploadParts_consumed (Urls u) file (state_of g) Hoff)
    as (Hc & Hpos & Heq).
  set (up := uploadParts (Urls u) file (state_of g)) in *.
  destruct ((result_of up).1) as [e|]; rewrite result_of_mk, trace_of_mk.
  - cbn [snd]. split; [exact Hpos |].
    rewrite Heq, bytes_read_app, Hg. reflexivity.
  - destruct (IH (int_add i 1) (int_add pc maxParts)
                (if decide (i = 0) then set_uploadKey job (UploadKey u) else job)
                (result_of up).2 (state_of up) Hpos) as [Hpos' Heq'].
    split; [exact Hpos' |].
    rewrite Hc in Heq'. rewrite Heq', Heq, !bytes_read_app, Hg.
    rewrite <- app_assoc. reflexivity.
Qed.

End BytesOfARun.

(** ** Batches that are answered as asked *)

Section Honoured.

Context {W : Type} `{Externals W}.

Lemma lenZ_app {A : Type} (a b : list A) : lenZ (a ++ b) = lenZ a + lenZ b.
Proof. unfold lenZ. rewrite length_app. lia. Qed.

Lemma deliveries_app (a b : list Event) :
  forall before,
    deliveries before (a ++ b)
    = deliveries before a ++ deliveries (before + lenZ (issued a)) b.
Proof.
  induction a as [|ev a IH]; intros before.
  - simpl. unfold issued, lenZ. simpl. rewrite Z.add_0_r. reflexivity.
  - simpl. unfold issued. simpl omap.
    destruct (accepted ev) as [u|].
    + simpl. rewrite IH. rewrite lenZ_app.
      unfold issued. rewrite Z.add_assoc. reflexivity.
    + apply IH.
Qed.

Lemma deliveries_none (a : list Event) (before : Z) :
  Forall (fun ev => accepted ev = None) a -> deliveries before a = [].
Proof.
  induction 1 as [|ev a Hev _ IH]; [reflexivity |].
  simpl. rewrite Hev. exact IH.
Qed.

Lemma honoured_app (a b : list Event) :
  honoured (a ++ b) -> honoured a /\ honoured b.
Proof.
  intros Hab. split; intros ev u Hin Hacc; apply (Hab ev u); try exact Hacc;
    apply in_or_app; [left | right]; exact Hin.
Qed.

(** The batch that the repeated request for signed URLs delivers. *)
Lemma retry_get_delivery (job : uploadJob) (fp parts : Z) (s : State W) :
  let g := retry_Do 3 (3 * time_Second) (getSignedUploadUrls job fp parts) s in
  forall before,
    match result_of g with
    | inl u =>
        deliveries before (trace_of g) = [(Itoa fp, before)] /\
        (honoured (trace_of g) -> lenZ (Urls u) = parts)
    | inr _ => deliveries before (trace_of g) = []
    end.
Proof.
  intros g before.
  pose proof (retry_Do_get_accepted job fp parts s) as Hacc.
  pose proof (retry_get_events job fp parts s) as Hev.
  cbv zeta in Hacc. fold g in Hacc, Hev.
  destruct (result_of g) as [u|e]; [| apply deliveries_none, Hacc].
  destruct Hacc as (pre & ev & Ht & Hpre & Hu).
  rewrite Ht in Hev |- *. apply Forall_app in Hev. destruct Hev as [_ Hev].
  inversion Hev as [|x l Hx _]; subst.
  assert (Hreq : batch_request ev = Some (Itoa fp, Itoa parts)).
  { destruct (get_event_request _ _ _ _ Hx) as [Hnone | Hsome]; [| exact Hsome].
    exfalso. exact (accepted_is_request ev u Hu Hnone). }
  split.
  - rewrite deliveries_app, (deliveries_none pre before Hpre),
      (issued_none pre Hpre).
    simpl. rewrite Hu, Hreq. unfold lenZ. simpl. rewrite Z.add_0_r. reflexivity.
  - intros Hhon.
    destruct (Hhon ev u) as (fp' & Hreq'); [apply in_or_app; right; left; reflexivity
                                           | exact Hu |].
    rewrite Hreq in Hreq'. injection Hreq' as _ Hparts.
    symmetry. apply Itoa_inj. exact Hparts.
Qed.

(** For a job whose last batch is batch [i + n - 1], in a run in which
    every batch delivered has the number of URLs asked for: each batch is
    delivered to the request for the parts that follow the URLs issued so
    far, and when the loop runs to its end there is one URL for every
    part. *)
Lemma batches_honoured (n : nat) :
  forall i pc job file s,
    0 <= i -> pc = 25 * i -> i + Z.of_nat n < 2 ^ 41 ->
    0 <= totalParts job < 2 ^ 41 ->
    25 * (i + Z.of_nat n - 1) <= totalParts job < 25 * (i + Z.of_nat n) ->
    let b := batches n i pc job file s in
    honoured (trace_of b) ->
    Forall (fun d => d.1 = Itoa (d.2 + 1)) (deliveries (25 * i) (trace_of b)) /\
    ((result_of b).1.1 = None -> (1 <= n)%nat ->
     lenZ (issued (trace_of b)) = totalParts job - 25 * i).
Proof.
  induction n as [|n IH]; intros i pc job file s Hi Hpc Hn Ht Hlast b Hhon;
    subst b.
  { simpl. unfold ret, trace_of. simpl. split; [constructor | lia]. }
  rewrite batches_S in Hhon |- *. cbv zeta in Hhon |- *.
  rewrite firstPart_value in Hhon |- * by lia. subst pc.
  rewrite getParts_value in Hhon |- * by lia.
  pose proof (retry_get_delivery job (i * 25 + 1)
                (Z.min 25 (totalParts job - 25 * i)) s) as Hdel.
  pose proof (retry_get_issued job (i * 25 + 1)
                (Z.min 25 (totalParts job - 25 * i)) s) as Hiss.
  cbv zeta in Hdel, Hiss.
  set (g := retry_Do 3 (3 * time_Second) _ s) in *.
  specialize (Hdel (25 * i)).
  destruct (result_of g) as [u|e].
  2: { rewrite result_of_mk, trace_of_mk, Hdel.
       split; [constructor | discriminate]. }
  destruct Hdel as [Hdel Hparts].
  assert (Hfirst : Forall (fun d : string * Z => d.1 = Itoa (d.2 + 1))
                     [(Itoa (i * 25 + 1), 25 * i)]).
  { constructor; [| constructor]. simpl. f_equal. lia. }
  set (job' := if decide (i = 0) then set_uploadKey job (UploadKey u) else job)
    in *.
  assert (Hjob : totalParts job' = totalParts job)
    by (subst job'; destruct (decide (i = 0)); reflexivity).
  pose proof (uploadParts_issued (Urls u) file (state_of g)) as Hiu.
  assert (Hdu : forall before,
             deliveries before (trace_of (uploadParts (Urls u) file (state_of g)))
             = []).
  { intros before. apply deliveries_none.
    eapply Forall_impl; [apply uploadParts_events |].
    intros ev. apply chunk_event_not_accepted. }
  set (up := uploadParts (Urls u) file (state_of g)) in *.
  destruct ((result_of up).1) as [e|].
  { rewrite result_of_mk, trace_of_mk in *.
    rewrite deliveries_app, Hdel, Hdu. simpl.
    split; [exact Hfirst | discriminate]. }
  unfold maxParts in Hhon |- *.
  rewrite (int_add_id i 1) in Hhon |- * by (unfold in_int64; lia).
  rewrite (int_add_id (25 * i) 25) in Hhon |- * by (unfold in_int64; lia).
  rewrite result_of_mk, trace_of_mk in *.
  apply honoured_app in Hhon. destruct Hhon as [Hhg Hhon].
  apply honoured_app in Hhon. destruct Hhon as [_ Hhr].
  specialize (Hparts Hhg).
  set (rest := batches n (i + 1) (25 * i + 25) job' (result_of up).2 (state_of up))
    in *.
  rewrite !deliveries_app, Hdel, Hdu, !issued_app, Hiss, Hiu.
  simpl app. change (lenZ (@nil string)) with 0. rewrite Z.add_0_r.
  destruct n as [|n].
  - (* this was the last batch *)
    subst rest. simpl batches. unfold ret. rewrite result_of_mk, trace_of_mk.
    simpl. split; [exact Hfirst |].
    intros _ _. unfold issued. simpl. rewrite app_nil_r. lia.
  - destruct (IH (i + 1) (25 * i + 25) job' (result_of up).2 (state_of up))
      as [Hrest Hcount];
      [lia | lia | lia | rewrite Hjob; lia | rewrite Hjob; lia | exact Hhr |].
    fold rest in Hrest, Hcount.
    assert (H25 : lenZ (Urls u) = 25) by lia.
    rewrite H25. replace (25 * i + 25) with (25 * (i + 1)) by lia.
    split.
    + inversion Hfirst; subst. constructor; assumption.
    + intros Hnone _. rewrite lenZ_app, H25, Hcount, Hjob by (assumption || lia).
      lia.
Qed.

End Honoured.

(** ** The order of the parts *)

Section OrderOfTheParts.

Context {W : Type} `{Externals W}.

Lemma honoured_b_true (tr : list Event) : honoured_b tr = true -> honoured tr.
Proof.
  unfold honoured_b, honoured. intros Hb ev u Hin Hacc.
  rewrite forallb_forall in Hb. specialize (Hb ev Hin).
  rewrite Hacc in Hb.
  destruct (batch_request ev) as [[fp parts]|]; [| discriminate Hb].
  apply String.eqb_eq in Hb. subst parts. exists fp. reflexivity.
Qed.

Lemma takeZ_0 {A : Type} (l : list A) : takeZ 0 l = [].
Proof. destruct l; reflexivity. Qed.

Lemma retry_complete_quiet (job : uploadJob) (s : State W) :
  let f := retry_Do 3 (3 * time_Second) (completeUpload job) s in
  reads_then (trace_of f) = [] /\ issued (trace_of f) = [] /\
  bytes_read (trace_of f) = [] /\
  forall before, deliveries before (trace_of f) = [].
Proof.
  intros f. pose proof (retry_complete_events job s) as Hf. fold f in Hf.
  assert (Hnr : Forall (fun ev => file_read ev = None) (trace_of f))
    by (eapply Forall_impl; [exact Hf | intros ev; apply post_event_no_read]).
  assert (Hna : Forall (fun ev => accepted ev = None) (trace_of f))
    by (eapply Forall_impl; [exact Hf | intros ev; apply post_event_not_accepted]).
  split; [apply reads_then_none, Hnr |].
  split; [apply issued_none, Hna |].
  split; [apply bytes_read_none, Hnr |].
  intros before. apply deliveries_none, Hna.
Qed.

(** X1. The reads of a run and the first attempt at the upload of each
    chunk. In every run of [uploadFile] on a file of content [c]:
    - the [k]-th read of the file (counted from 0) is made at the offset
      of chunk [k], and returns exactly chunk [k], the bytes
      [k * chunkSize, (k + 1) * chunkSize) of the file, fewer at its end;
      it is made for the [k]-th signed URL in the order of issue, and the
      next event is the upload of exactly these bytes, with their number
      as content length, to that URL (the first attempt at it: what later
      attempts send is another matter);
    - so the bytes read are always a prefix of the file: nothing is read
      twice or out of order;
    - when every batch delivered has as many URLs as were asked for, each
      batch is delivered to the request whose first part is the number of
      URLs issued before plus one, so that the [k]-th URL issued is the URL
      of part [k + 1]; and if moreover the size of the file is the planned
      one and the run reaches the completion request, the file was read in
      [totalParts] reads from its first to its last byte: nothing is left
      out. *)
Theorem uploadFile_chunks_in_order (job : uploadJob) (s : State W) (c : list byte) :
  Open (fileToUpload job) (world s) = inl c ->
  let tr := trace_of (uploadFile job s) in
  (forall k r,
     reads_then tr !! k = Some r ->
     exists url,
       issued tr !! k = Some url /\ read_in_order c (Z.of_nat k) url r) /\
  (exists n, bytes_read tr = takeZ n c) /\
  (planned job -> honoured tr ->
   Forall (fun d => d.1 = Itoa (d.2 + 1)) (deliveries 0 tr) /\
   (fileSize job = lenZ c -> Exists is_completion tr ->
    length (reads_then tr) = Z.to_nat (totalParts job) /\
    bytes_read tr = c)).
Proof.
  intros Hopen tr. subst tr. rewrite uploadFile_unfold, Hopen. cbv zeta.
  set (file := {| contents := c; offset := 0 |}).
  assert (Hoff0 : offset file = Z.min (0 * defaultSize) (lenZ c)).
  { subst file. unfold lenZ. simpl. lia. }
  destruct (batches_reads c (Z.to_nat (numberOfBatches job)) 0 0 job file s 0
              eq_refl (Z.le_refl 0) Hoff0) as (Hrs & Hc & Hdone).
  destruct (batches_consumed (Z.to_nat (numberOfBatches job)) 0 0 job file s
              (Z.le_refl 0)) as [Hpos Hcons].
  change (contents file) with c in Hcons. change (offset file) with 0 in Hcons.
  rewrite takeZ_0 in Hcons. simpl app in Hcons.
  pose proof (batches_upload_events (Z.to_nat (numberOfBatches job)) 0 0 job
                file s) as Hev.
  set (b := batches _ 0 0 job file s) in *.
  assert (Hnc : ~ Exists is_completion (trace_of b)).
  { intros Hex. apply Exists_exists in Hex. destruct Hex as (x & Hin & Hx).
    rewrite Forall_forall in Hev.
    exact (upload_event_not_completion x (Hev x Hin) Hx). }
  assert (Hplanned : planned job -> honoured (trace_of b) ->
            Forall (fun d => d.1 = Itoa (d.2 + 1)) (deliveries 0 (trace_of b)) /\
            ((result_of b).1.1 = None -> fileSize job = lenZ c ->
             length (reads_then (trace_of b)) = Z.to_nat (totalParts job) /\
             bytes_read (trace_of b) = c)).
  { intros Hplan Hhon.
    pose proof (planned_totalParts job Hplan) as Ht.
    pose proof (planned_numberOfBatches job Hplan) as Hn.
    destruct Hplan as (Hsize & Htp & Hnb). unfold maxParts in Hnb.
    assert (25 * (totalParts job / 25) <= totalParts job)
      by (apply Z.mul_div_le; lia).
    assert (totalParts job < 25 * Z.succ (totalParts job / 25))
      by (apply Z.mul_succ_div_gt; lia).
    destruct (batches_honoured (Z.to_nat (numberOfBatches job)) 0 0 job file s)
      as [Hdel Hcount]; [lia | lia | lia | lia | lia | exact Hhon |].
    fold b in Hdel, Hcount. split; [exact Hdel |].
    intros Hnone Hlen. destruct (Hdone Hnone) as [Hl Hoff].
    specialize (Hcount Hnone ltac:(lia)).
    rewrite Z.sub_0_r in Hcount.
    split.
    - rewrite Hl. unfold lenZ in Hcount. lia.
    - rewrite <- Hcons, Hoff, Hcount.
      assert (fileSize job < defaultSize * Z.succ (fileSize job / defaultSize))
        by (apply Z.mul_succ_div_gt; rewrite defaultSize_value; lia).
      rewrite Z.min_r by (rewrite Htp, <- Hlen; lia).
      apply takeZ_all. }
  destruct ((result_of b).1.1) as [e|]; rewrite trace_of_mk.
  - (* the loop was left early *)
    split; [| split].
    + intros k r Hk.
      destruct (reads_in_order_lookup c _ 0 _ k r Hrs Hk) as (url & Hu & Hr).
      exists url. split; [exact Hu | exact Hr].
    + exists (offset (result_of b).2). symmetry. exact Hcons.
    + intros Hplan Hhon. destruct (Hplanned Hplan Hhon) as [Hdel _].
      split; [exact Hdel |]. intros _ Hex. contradiction.
  - (* the loop ran to its end: the completion phase follows *)
    destruct (retry_complete_quiet (result_of b).1.2 (state_of b))
      as (Hfr & Hfi & Hfb & Hfd).
    cbv zeta in Hfr, Hfi, Hfb, Hfd.
    set (f := retry_Do 3 (3 * time_Second) _ (state_of b)) in *.
    rewrite reads_then_app, Hfr, app_nil_r, issued_app, Hfi, app_nil_r,
      bytes_read_app, Hfb, app_nil_r, deliveries_app, Hfd, app_nil_r.
    split; [| split].
    + intros k r Hk.
      apply (reads_in_order_patch c (head (trace_of f))) in Hrs.
      destruct (reads_in_order_lookup c _ 0 _ k r Hrs Hk) as (url & Hu & Hr).
      exists url. split; [exact Hu | exact Hr].
    + exists (offset (result_of b).2). symmetry. exact Hcons.
    + intros Hplan Hhon. apply honoured_app in Hhon. destruct Hhon as [Hhon _].
      destruct (Hplanned Hplan Hhon) as [Hdel Hall].
      split; [exact Hdel |]. intros Hlen _.
      rewrite length_map. apply Hall; [reflexivity | exact Hlen].
Qed.

End OrderOfTheParts.

(** The upload of a file of three bytes: one read, of the whole file, and
    its upload to the one URL issued. *)
Lemma uploadFile_chunks_in_order_witness :
  let job := Scripted.small_job in
  let s := Scripted.start Scripted.fine in
  let c := list_byte_of_string "abc" in
  let tr := trace_of (uploadFile job s) in
  Open (fileToUpload job) (world s) = inl c /\
  planned job /\ honoured tr /\ fileSize job = lenZ c /\
  Exists is_completion tr /\
  (forall k r,
     reads_then tr !! k = Some r ->
     exists url,
       issued tr !! k = Some url /\ read_in_order c (Z.of_nat k) url r) /\
  Forall (fun d => d.1 = Itoa (d.2 + 1)) (deliveries 0 tr) /\
  length (reads_then tr) = Z.to_nat (totalParts job) /\
  bytes_read tr = c /\
  omap (fun ev => match ev with
                  | EvHttp req payload _ _ =>
                      if decide (Method req = "PUT")
                      then Some (URL req, string_of_list_byte payload,
                                 ContentLength req)
                      else None
                  | _ => None
                  end) tr = [("u1", "abc", 3)].
Proof.
  intros job s c tr.
  assert (Hopen : Open (fileToUpload job) (world s) = inl c) by reflexivity.
  assert (Hplan : planned job).
  { unfold planned. simpl. split; [lia |]. split; reflexivity. }
  assert (Hhon : honoured tr)
    by (apply honoured_b_true; vm_compute; reflexivity).
  assert (Hlen : fileSize job = lenZ c) by reflexivity.
  assert (Hex : Exists is_completion tr)
    by (apply Exists_is_completion; vm_compute; reflexivity).
  destruct (uploadFile_chunks_in_order job s c Hopen) as (Hreads & _ & Hrest).
  destruct (Hrest Hplan Hhon) as [Hdel Hall].
  destruct (Hall Hlen Hex) as [Hcount Hbytes].
  repeat (split; [assumption |]).
  reflexivity.
Defined.

(** ** The bytes of a part that is sent again *)

(** C5. The parts are to be transferred in the order of the file, part
    [k + 1] with exactly the bytes of chunk [k]. The reads are in this order
    and return these bytes, and the first attempt at the upload of a chunk
    sends them; but a later attempt sends what the first one left of the
    buffer. In this run the file is "abc", one signed URL is issued, and the
    transfer endpoint reads the three bytes and answers 500, answers 500
    again, and then 200: the one transfer of the part that is accepted has
    no byte of the chunk, and declares none; the upload is completed all the
    same and [UploadObject] reports success. *)
Theorem uploadFile_sends_a_part_without_its_bytes :
  let a := UploadObject Scripted.the_api "bucket" "object" "file"
             (Scripted.start Scripted.flaky_upload) in
  bytes_read (trace_of a) = list_byte_of_string "abc" /\
  chunk (list_byte_of_string "abc") 0 = list_byte_of_string "abc" /\
  issued (trace_of a) = ["u1"] /\
  transfers (trace_of a)
  = [("u1", "abc", 3, 500); ("u1", "", 0, 500); ("u1", "", 0, 200)] /\
  round_trips_of (trace_of a)
  = [("GET", 200); ("PUT", 500); ("PUT", 500); ("PUT", 200); ("POST", 200)] /\
  result_of a
  = ({| ObjectId := "object-id"; ObjectSize := 0; Location := "" |}, None).
Proof.
  intros a. repeat split; vm_compute; reflexivity.
Qed.

(** ** Every part is asked for once *)

Lemma partsCounter_at_value (i : nat) :
  Z.of_nat i < 2 ^ 41 -> partsCounter_at i = 25 * Z.of_nat i.
Proof.
  induction i as [|i IH]; intros Hi; [reflexivity |].
  simpl partsCounter_at. rewrite IH by lia. unfold maxParts.
  rewrite int_add_id by (unfold in_int64; lia). lia.
Qed.

Lemma sumZ_app (a b : list Z) : sumZ (a ++ b) = sumZ a + sumZ b.
Proof. unfold sumZ. induction a as [|x a IH]; simpl; [reflexivity | lia]. Qed.

Lemma parts_of_batches_S (job : uploadJob) (n : nat) :
  parts_of_batches job (S n) =
    parts_of_batches job n ++ [getParts job (partsCounter_at n)].
Proof.
  unfold parts_of_batches. rewrite seq_S, map_app. reflexivity.
Qed.

(** The batches before the last one are full. *)
Lemma parts_of_full_batches (job : uploadJob) (n : nat) :
  0 <= totalParts job < 2 ^ 41 ->
  25 * Z.of_nat n <= totalParts job ->
  parts_of_batches job n = replicate n 25.
Proof.
  intros Ht. induction n as [|n IH]; intros Hn; [reflexivity |].
  rewrite parts_of_batches_S, IH by lia.
  rewrite partsCounter_at_value by lia.
  rewrite getParts_value by lia.
  replace (Z.min 25 (totalParts job - 25 * Z.of_nat n)) with 25 by lia.
  change [25] with (replicate 1 25). rewrite <- replicate_add.
  f_equal. lia.
Qed.

Lemma sumZ_replicate (n : nat) (x : Z) : sumZ (replicate n x) = Z.of_nat n * x.
Proof. unfold sumZ. induction n as [|n IH]; simpl; lia. Qed.

(** X2. The parts that the batches of a planned job ask for: every batch asks
    for between 0 and 25 parts, every batch before the last for 25; the
    numbers add up to [totalParts]; and every batch starts at the part after
    those of the batches before it. So every part is asked for once, by one
    batch. *)
Theorem getParts_covers_every_part (job : uploadJob) :
  planned job ->
  let n := Z.to_nat (numberOfBatches job) in
  Forall (fun p => 0 <= p <= maxParts) (parts_of_batches job n) /\
  sumZ (parts_of_batches job n) = totalParts job /\
  (forall i, (i < n)%nat ->
     firstPart_at i = 1 + sumZ (parts_of_batches job i)) /\
  (forall i, (S i < n)%nat -> parts_of_batches job n !! i = Some maxParts).
Proof.
  intros Hplan n.
  pose proof (planned_totalParts job Hplan) as Ht.
  pose proof (planned_numberOfBatches job Hplan) as Hn.
  destruct Hplan as (_ & _ & Hnb). unfold maxParts in *.
  assert (Hdiv : 25 * (totalParts job / 25) <= totalParts job
                 < 25 * (totalParts job / 25) + 25).
  { pose proof (Z.mul_div_le (totalParts job) 25 ltac:(lia)).
    pose proof (Z.mul_succ_div_gt (totalParts job) 25 ltac:(lia)). lia. }
  assert (Hn' : n = S (Z.to_nat (totalParts job / 25))).
  { subst n. rewrite Hnb. rewrite Z2Nat.inj_add by lia. simpl. lia. }
  set (m := Z.to_nat (totalParts job / 25)) in *.
  assert (Hm : Z.of_nat m = totalParts job / 25) by (subst m; lia).
  assert (Hfull : parts_of_batches job m = replicate m 25)
    by (apply parts_of_full_batches; lia).
  assert (Hall : parts_of_batches job n =
                 replicate m 25 ++ [totalParts job - 25 * Z.of_nat m]).
  { rewrite Hn', parts_of_batches_S, Hfull.
    rewrite partsCounter_at_value by lia.
    rewrite getParts_value by lia. do 2 f_equal. lia. }
  split; [| split; [| split]].
  - rewrite Hall. apply Forall_app. split.
    + apply Forall_replicate. lia.
    + constructor; [lia | constructor].
  - rewrite Hall, sumZ_app, sumZ_replicate. unfold sumZ. simpl. lia.
  - intros i Hi. unfold firstPart_at.
    rewrite firstPart_value by lia.
    rewrite parts_of_full_batches by lia.
    rewrite sumZ_replicate. lia.
  - intros i Hi. rewrite Hall.
    rewrite lookup_app_l by (rewrite length_replicate; lia).
    apply lookup_replicate_2. lia.
Qed.

Lemma getParts_covers_every_part_witness :
  let job := Scripted.thirty_job in
  planned job /\
  parts_of_batches job 2 = [25; 5] /\
  sumZ (parts_of_batches job 2) = 30 /\
  firstPart_at 1 = 1 + sumZ (parts_of_batches job 1).
Proof.
  intros job.
  assert (Hplan : planned job).
  { unfold planned. simpl. split; [lia |]. split; reflexivity. }
  destruct (getParts_covers_every_part job Hplan) as (_ & Hsum & Hfirst & _).
  split; [exact Hplan |]. split; [vm_compute; reflexivity |].
  split; [exact Hsum |]. apply Hfirst. simpl. lia.
Defined.

(** ** The plan suffices, and the file that is not there *)

Section PlanSuffices.

Context {W : Type} `{Externals W}.

(** X3. The plan of [newUploadJob] suffices: the parts but the last are
    full chunks of the file and the last one is what is left, fewer bytes
    than a chunk; the batches but the last are full and the last one has
    fewer parts than 25. The last part is empty exactly when the size of the
    file is a multiple of the chunk size (so for the empty file). *)
Theorem newUploadJob_plan_suffices
    (a : BucketAPI) (bk on f : string) (s : State W) (size : Z) :
  Stat f (world s) = inl size ->
  0 <= size < 2 ^ 63 ->
  let job := (result_of (newUploadJob a bk on f s)).1 in
  (totalParts job - 1) * defaultSize <= size < totalParts job * defaultSize /\
  maxParts * (numberOfBatches job - 1) <= totalParts job
    < maxParts * numberOfBatches job /\
  (size = (totalParts job - 1) * defaultSize <-> size mod defaultSize = 0).
Proof.
  intros Hstat Hsize job. subst job.
  rewrite (newUploadJob_ok a bk on f s size Hstat Hsize).
  unfold result_of. simpl.
  rewrite defaultSize_value. unfold maxParts.
  change (100 * 2 ^ 20) with 104857600.
  Z.to_euclidean_division_equations. lia.
Qed.

(** X4. When [os.Stat] fails, [UploadObject] returns its error as it is, with
    the zero result, and does nothing else: no token is asked for, no
    request is sent, the file is not opened. *)
Theorem UploadObject_stat_failure
    (a : BucketAPI) (bk on f : string) (s : State W) (e : error) :
  Stat f (world s) = inr e ->
  UploadObject a bk on f s = ((zero_UploadResult, Some e), s, []).
Proof.
  intros Hstat. unfold UploadObject, newUploadJob, bind, ret.
  rewrite Hstat. reflexivity.
Qed.

(** X5. When [os.Open] fails, [UploadObject] returns its error as it is (it
    is not wrapped), with the zero result, and nothing is sent. *)
Theorem UploadObject_open_failure
    (a : BucketAPI) (bk on f : string) (s : State W) (size : Z) (e : error) :
  Stat f (world s) = inl size ->
  Open f (world s) = inr e ->
  UploadObject a bk on f s = ((zero_UploadResult, Some e), s, []).
Proof.
  intros Hstat Hopen. unfold UploadObject, newUploadJob, bind, ret.
  rewrite Hstat. cbv beta iota.
  rewrite uploadFile_unfold. simpl fileToUpload. rewrite Hopen. reflexivity.
Qed.

End PlanSuffices.

Lemma newUploadJob_plan_suffices_witness :
  let s := Scripted.start (Scripted.make [] (250 * 2 ^ 20) "") in
  let job := (result_of (newUploadJob Scripted.the_api "bucket" "object" "file" s)).1 in
  totalParts job = 3 /\
  ((totalParts job - 1) * defaultSize <= 250 * 2 ^ 20 < totalParts job * defaultSize /\
   maxParts * (numberOfBatches job - 1) <= totalParts job
     < maxParts * numberOfBatches job /\
   (250 * 2 ^ 20 = (totalParts job - 1) * defaultSize <->
    (250 * 2 ^ 20) mod defaultSize = 0)).
Proof.
  intros s job. split; [reflexivity |].
  apply (newUploadJob_plan_suffices Scripted.the_api "bucket" "object" "file" s
           (250 * 2 ^ 20)); [reflexivity | lia].
Defined.

Lemma UploadObject_stat_failure_witness :
  let s := Scripted.start Scripted.no_file in
  UploadObject Scripted.the_api "bucket" "object" "file" s
  = ((zero_UploadResult,
      Some (errorString "stat file: no such file or directory")), s, []).
Proof.
  intros s.
  apply (UploadObject_stat_failure Scripted.the_api "bucket" "object" "file" s).
  reflexivity.
Defined.

Lemma UploadObject_open_failure_witness :
  let s := Scripted.start Scripted.unreadable in
  UploadObject Scripted.the_api "bucket" "object" "file" s
  = ((zero_UploadResult,
      Some (errorString "open file: permission denied")), s, []).
Proof.
  intros s.
  apply (UploadObject_open_failure Scripted.the_api "bucket" "object" "file" s 3);
    reflexivity.
Defined.

(** ** What every request of an upload has *)

Section Invariants.

Context {W : Type} `{Externals W}.

(** [completeUpload] in closed form. *)
Lemma completeUpload_trace (job : uploadJob) (s : State W) :
  let scope := "data:write data:read" in
  let a := completeUpload job s in
  (trace_of a = [EvToken scope] /\ (result_of a).2 <> None) \/
  exists bearer req n res,
    (GetToken scope (world s)).1 = inl bearer /\
    trace_of a =
      [EvToken scope;
       EvHttp req (Marshal_completeBody (uploadKey job) (fileSize job)) n res] /\
    Method req = "POST" /\
    URL req = getSignedS3UploadPath job /\
    Query req = own_query job /\
    Header req =
      <["x-ads-meta-Content-Type" := ["application/octet-stream"]]>
        (<["Content-Type" := ["application/json"]]>
           {["Authorization" := ["Bearer " +:+ AccessToken bearer]]}) /\
    ContentLength req =
      lenZ (Marshal_completeBody (uploadKey job) (fileSize job)) /\
    Body req = Some (length (heap s)) /\
    (result_of a).2 =
      match res with
      | inr e => Some e
      | inl response =>
          if decide (StatusCode response = http_StatusOK)
          then match Decode_UploadResult response with
               | inl _ => None
               | inr e => Some e
               end
          else Some (status_error response)
      end /\
    (result_of a).1 =
      match res with
      | inr e => zero_UploadResult
      | inl response =>
          if decide (StatusCode response = http_StatusOK)
          then match Decode_UploadResult response with
               | inl r => r
               | inr e => zero_UploadResult
               end
          else zero_UploadResult
      end.
Proof.
  intros scope a. subst scope a.
  unfold completeUpload, authenticate, bytes_NewBuffer, http_NewRequest,
    bind, ret, trace_of, result_of.
  destruct (GetToken "data:write data:read" (world s)) as [[bearer|e] w] eqn:Htok;
    [| left; split; [reflexivity | discriminate]].
  cbv beta iota.
  destruct (NewRequest_err "POST" (getSignedS3UploadPath job)) as [e|] eqn:Hnew;
    [left; split; [reflexivity | discriminate] |].
  right. cbv beta iota.
  assert (Hp : unread {| world := w;
                         heap := heap s ++
                           [Marshal_completeBody (uploadKey job) (fileSize job)] |}
                 (length (heap s))
               = Marshal_completeBody (uploadKey job) (fileSize job)).
  { unfold unread. simpl. rewrite lookup_app_r by lia.
    rewrite Nat.sub_diag. reflexivity. }
  cbn [world heap]. rewrite Hp.
  rewrite (addOrSetHeader_empty _ "Authorization") by reflexivity.
  rewrite (addOrSetHeader_fresh_key _ "Content-Type")
    by (simpl; apply lookup_singleton_ne; discriminate).
  rewrite (addOrSetHeader_fresh_key _ "x-ads-meta-Content-Type").
  2: { simpl. rewrite lookup_insert_ne by discriminate.
       apply lookup_singleton_ne. discriminate. }
  rewrite Client_Do_unfold. cbv zeta.
  set (req := with_Header _ _).
  change (Body req) with (Some (length (heap s))). cbv beta iota.
  rewrite Hp.
  set (r := Transport req _ _).
  exists bearer, req, r.1.1, r.1.2.
  split; [reflexivity |].
  split.
  { simpl. destruct r.1.2 as [response|e]; simpl.
    - destruct (decide (StatusCode response = http_StatusOK)); simpl.
      + destruct (Decode_UploadResult response); reflexivity.
      + reflexivity.
    - reflexivity. }
  do 6 (split; [reflexivity |]).
  simpl. destruct r.1.2 as [response|e]; simpl.
  - destruct (decide (StatusCode response = http_StatusOK)); simpl.
    + destruct (Decode_UploadResult response); split; reflexivity.
    + split; reflexivity.
  - split; reflexivity.
Qed.


Lemma uploadChunk_trace_cases (url : string) (buffer : nat) (s : State W) :
  let a := uploadChunk url buffer s in
  (trace_of a = [] /\ (result_of a).2 <> None) \/
  exists n res,
    trace_of a =
      [EvHttp (chunk_request url buffer (lenZ (unread s buffer)))
              (unread s buffer) n res] /\
    (result_of a).2 = outcome_error res.
Proof.
  intros a. subst a. rewrite uploadChunk_unfold.
  destruct (NewRequest_err "PUT" url) as [e|].
  - left. split; [reflexivity | discriminate].
  - right. cbv zeta. eexists _, _. split; reflexivity.
Qed.

Lemma chunk_request_headers (url : string) (buffer : nat) (l : Z) :
  let req := chunk_request url buffer l in
  Values_Get (Header req) "Content-Length" = Itoa l /\
  Values_Get (Header req) "Content-Type" = "application/octet-stream" /\
  Header req !! "Authorization" = None /\
  Values_Get (Header req) "Authorization" = "".
Proof.
  unfold chunk_request, Values_Get. simpl.
  rewrite lookup_insert_eq.
  rewrite !lookup_insert_ne by discriminate.
  rewrite lookup_singleton_eq.
  rewrite lookup_singleton_ne by discriminate.
  repeat split.
Qed.

(** X6. Every token that an upload asks for is for the scope
    [data:write data:read]. *)
Theorem uploadFile_token_scope (job : uploadJob) (s : State W) :
  Forall (token_for "data:write data:read") (trace_of (uploadFile job s)).
Proof.
  apply (uploadFile_Forall (token_for "data:write data:read") job).
  - intros d. exact I.
  - intros off data err. exact I.
  - intros job' fp parts s' _.
    destruct (getSignedUploadUrls_trace job' fp parts s')
      as [[-> _] | (bearer & req & n & res & _ & -> & _)];
      repeat constructor.
  - intros url buffer s'.
    destruct (uploadChunk_trace_cases url buffer s')
      as [[-> _] | (n & res & -> & _)]; repeat constructor.
  - intros job' s' _.
    destruct (completeUpload_trace job' s')
      as [[-> _] | (bearer & req & n & res & _ & -> & _)];
      repeat constructor.
Qed.

(** X7. Where the requests of an upload go: those with the access token,
    the GET and POST requests, all go to the signeds3upload URL of the job,
    and a PUT to a signed URL has no [Authorization] header. So the token is
    never sent to a signed URL. *)
Theorem uploadFile_requests_addressed (job : uploadJob) (s : State W) :
  Forall (addressed job) (trace_of (uploadFile job s)).
Proof.
  apply (uploadFile_Forall (addressed job) job).
  - intros d. exact I.
  - intros off data err. exact I.
  - intros job' fp parts s' Hsame.
    destruct (getSignedUploadUrls_trace job' fp parts s')
      as [[-> _] | (bearer & req & n & res & _ & -> & Hm & Hu & _)].
    + repeat constructor.
    + constructor; [exact I |]. constructor; [| constructor].
      right. split; [left; exact Hm |].
      rewrite Hu. apply getSignedS3UploadPath_same. exact Hsame.
  - intros url buffer s'.
    destruct (uploadChunk_trace_cases url buffer s')
      as [[-> _] | (n & res & -> & _)]; [constructor |].
    constructor; [| constructor].
    left.
    destruct (chunk_request_headers url buffer (lenZ (unread s' buffer)))
      as (_ & _ & Hno & Hget).
    split; [reflexivity |]. split; assumption.
  - intros job' s' Hsame.
    destruct (completeUpload_trace job' s')
      as [[-> _] | (bearer & req & n & res & _ & -> & Hm & Hu & _)].
    + repeat constructor.
    + constructor; [exact I |]. constructor; [| constructor].
      right. split; [right; exact Hm |].
      rewrite Hu. apply getSignedS3UploadPath_same. exact Hsame.
Qed.

(** X8. Every upload to a signed URL declares the bytes that its body
    holds: as content length and as [Content-Length] header, with the
    content type of a byte stream; at the first attempt and at every later
    one. *)
Theorem uploadFile_uploads_declare_their_payload (job : uploadJob) (s : State W) :
  Forall declares_its_payload (trace_of (uploadFile job s)).
Proof.
  apply (uploadFile_Forall declares_its_payload job).
  - intros d. exact I.
  - intros off data err. exact I.
  - intros job' fp parts s' _.
    destruct (getSignedUploadUrls_trace job' fp parts s')
      as [[-> _] | (bearer & req & n & res & _ & -> & Hm & _)].
    + repeat constructor.
    + constructor; [exact I |]. constructor; [| constructor].
      simpl. rewrite Hm. discriminate.
  - intros url buffer s'.
    destruct (uploadChunk_trace_cases url buffer s')
      as [[-> _] | (n & res & -> & _)]; [constructor |].
    constructor; [| constructor].
    intros _.
    destruct (chunk_request_headers url buffer (lenZ (unread s' buffer)))
      as (Hl & Ht & _).
    split; [reflexivity |]. split; assumption.
  - intros job' s' _.
    destruct (completeUpload_trace job' s')
      as [[-> _] | (bearer & req & n & res & _ & -> & Hm & _)].
    + repeat constructor.
    + constructor; [exact I |]. constructor; [| constructor].
      simpl. rewrite Hm. discriminate.
Qed.

End Invariants.

(** ** The outcomes of the operations *)

Section Outcomes.

Context {W : Type} `{Externals W}.

(** A loop in which no batch is delivered leaves the job as it is. *)
Lemma batches_keeps_the_job (n : nat) (i pc : Z) (job : uploadJob) (file : File)
    (s : State W) :
  let b := batches n i pc job file s in
  Forall (fun e => accepted e = None) (trace_of b) ->
  (result_of b).1.2 = job.
Proof.
  intros b Hna. subst b. destruct n as [|n]; [reflexivity |].
  rewrite batches_S in Hna |- *. cbv zeta in Hna |- *.
  pose proof (retry_Do_get_accepted job (int_add (int_mul i maxParts) 1)
                (getParts job pc) s) as Hg.
  cbv zeta in Hg.
  set (g := retry_Do 3 (3 * time_Second) _ s) in *.
  destruct (result_of g) as [u|e]; [| reflexivity].
  exfalso.
  destruct Hg as (pre & ev & Ht & _ & Hev).
  assert (Hin : ev ∈ trace_of g) by (rewrite Ht; set_solver).
  assert (Hall : Forall (fun e => accepted e = None) (trace_of g)).
  { destruct ((result_of (uploadParts (Urls u) file (state_of g))).1);
      rewrite trace_of_mk in Hna; apply Forall_app in Hna; apply Hna. }
  rewrite Forall_forall in Hall. specialize (Hall ev Hin). congruence.
Qed.

(** X9. [uploadFile] changes nothing of the job but its upload key, and
    that only when a batch of signed URLs was delivered. *)
Theorem uploadFile_changes_only_the_upload_key (job : uploadJob) (s : State W) :
  let a := uploadFile job s in
  same_upload job (result_of a).2 /\
  (Forall (fun e => accepted e = None) (trace_of a) -> (result_of a).2 = job).
Proof.
  intros a. subst a. split.
  - apply (uploadFile_Forall (fun _ => True) job); intros;
      try exact I; apply Forall_forall; intros; exact I.
  - rewrite uploadFile_unfold.
    destruct (Open (fileToUpload job) (world s)) as [c|e]; [| reflexivity].
    cbv zeta.
    pose proof (batches_keeps_the_job (Z.to_nat (numberOfBatches job)) 0 0 job
                  {| contents := c; offset := 0 |} s) as Hb.
    cbv zeta in Hb.
    set (b := batches _ 0 0 job _ s) in *.
    destruct ((result_of b).1.1); rewrite trace_of_mk, result_of_mk; intros Hna.
    + apply Hb. exact Hna.
    + apply Hb. apply Forall_app in Hna. apply Hna.
Qed.

(** X10. After a failure in the batch loop no completion request is sent:
    the run and its effects end with the loop. *)
Theorem uploadFile_no_completion_after_a_failure
    (job : uploadJob) (s : State W) (c : list byte) (e : error) :
  Open (fileToUpload job) (world s) = inl c ->
  let b := batches (Z.to_nat (numberOfBatches job)) 0 0 job
             {| contents := c; offset := 0 |} s in
  (result_of b).1.1 = Some e ->
  trace_of (uploadFile job s) = trace_of b /\
  state_of (uploadFile job s) = state_of b /\
  Forall (fun ev => ~ is_completion ev) (trace_of (uploadFile job s)).
Proof.
  intros Hopen b Hfail.
  pose proof (batches_upload_events (Z.to_nat (numberOfBatches job)) 0 0 job
                {| contents := c; offset := 0 |} s) as Hev.
  fold b in Hev.
  rewrite uploadFile_unfold, Hopen. cbv zeta. fold b. rewrite Hfail.
  rewrite trace_of_mk, state_of_mk.
  split; [reflexivity |]. split; [reflexivity |].
  eapply Forall_impl; [exact Hev |].
  intros ev. apply upload_event_not_completion.
Qed.

(** X11. A job without batches (the zero value has none) goes straight to
    the completion request: no signed URL is asked for and the file is not
    read. *)
Theorem uploadFile_without_batches
    (job : uploadJob) (s : State W) (c : list byte) :
  Open (fileToUpload job) (world s) = inl c ->
  numberOfBatches job <= 0 ->
  let f := retry_Do 3 (3 * time_Second) (completeUpload job) s in
  trace_of (uploadFile job s) = trace_of f /\
  (result_of (uploadFile job s)).2 = job /\
  batch_requests (trace_of (uploadFile job s)) = [] /\
  reads_then (trace_of (uploadFile job s)) = [].
Proof.
  intros Hopen Hn f. subst f.
  rewrite uploadFile_unfold, Hopen. cbv zeta.
  replace (Z.to_nat (numberOfBatches job)) with O by lia.
  simpl batches. unfold ret. rewrite !result_of_mk, !state_of_mk, !trace_of_mk.
  cbn [fst snd]. simpl app.
  split; [reflexivity |]. split; [reflexivity |].
  pose proof (retry_complete_events job s) as Hf.
  split.
  - apply batch_requests_none.
    eapply Forall_impl; [exact Hf |]. intros ev. apply post_event_no_request.
  - apply reads_then_none.
    eapply Forall_impl; [exact Hf |]. intros ev. apply post_event_no_read.
Qed.

(** X12. The only error that [uploadFile] returns once the file is open is
    the error of the completion: it comes with the zero result, after a
    batch loop without failure, and wraps the error that [retry.Do] returned
    for [completeUpload], whose message it quotes after its own. *)
Theorem uploadFile_error_is_the_completion_error
    (job : uploadJob) (s : State W) (c : list byte) (e : error) :
  Open (fileToUpload job) (world s) = inl c ->
  (result_of (uploadFile job s)).1.2 = Some e ->
  (result_of (uploadFile job s)).1.1 = zero_UploadResult /\
  exists cause,
    errors_Unwrap e = Some cause /\
    Error e = "Error completing the upload:" +:+ newline +:+ Error cause /\
    (result_of (batches (Z.to_nat (numberOfBatches job)) 0 0 job
                  {| contents := c; offset := 0 |} s)).1.1 = None /\
    exists job' s',
      result_of (retry_Do 3 (3 * time_Second) (completeUpload job') s')
      = inr cause.
Proof.
  intros Hopen. rewrite uploadFile_unfold, Hopen. cbv zeta.
  set (b := batches _ 0 0 job _ s).
  destruct ((result_of b).1.1) as [e'|].
  { rewrite result_of_mk. simpl. discriminate. }
  rewrite result_of_mk. cbn [fst snd].
  destruct (result_of (retry_Do 3 (3 * time_Second) _ (state_of b)))
    as [r|cause] eqn:Hf; cbn [fst snd]; [discriminate |].
  intros [= <-]. split; [reflexivity |].
  exists cause. split; [reflexivity |]. split; [reflexivity |].
  split; [reflexivity |].
  eexists _, _. exact Hf.
Qed.

(** X13. The completion request: a POST to the signeds3upload URL of the
    job, whose body is the marshalled upload key and file size, with the
    length of this body as content length, and with the headers
    [Authorization: Bearer <access token>], [Content-Type: application/json]
    and [x-ads-meta-Content-Type: application/octet-stream]; at most one is
    sent, after the token request. *)
Theorem completeUpload_request
    (job : uploadJob) (s : State W)
    (req : Request) (payload : list byte) (n : nat) (res : Response + error) :
  In (EvHttp req payload n res) (trace_of (completeUpload job s)) ->
  Method req = "POST" /\
  URL req = getSignedS3UploadPath job /\
  payload = Marshal_completeBody (uploadKey job) (fileSize job) /\
  ContentLength req = lenZ payload /\
  (exists bearer,
     (GetToken "data:write data:read" (world s)).1 = inl bearer /\
     Values_Get (Header req) "Authorization" = "Bearer " +:+ AccessToken bearer) /\
  Values_Get (Header req) "Content-Type" = "application/json" /\
  Values_Get (Header req) "x-ads-meta-Content-Type" = "application/octet-stream" /\
  trace_of (completeUpload job s) =
    [EvToken "data:write data:read"; EvHttp req payload n res].
Proof.
  intros Hin.
  destruct (completeUpload_trace job s)
    as [[Ht _] | (bearer & req' & n' & res' & Htok & Ht & Hm & Hu & _ & Hh & Hl & _)];
    rewrite Ht in Hin |- *; simpl in Hin.
  { destruct Hin as [Hin | []]. discriminate Hin. }
  destruct Hin as [Hin | [Hin | []]]; [discriminate Hin |].
  inversion Hin; subst req' payload n' res'. clear Hin.
  split; [exact Hm |]. split; [exact Hu |]. split; [reflexivity |].
  split; [exact Hl |].
  unfold Values_Get. rewrite Hh.
  split.
  { exists bearer. split; [exact Htok |].
    rewrite !lookup_insert_ne by discriminate.
    rewrite lookup_singleton_eq. reflexivity. }
  split.
  { rewrite lookup_insert_ne by discriminate.
    rewrite lookup_insert_eq. reflexivity. }
  split; [rewrite lookup_insert_eq; reflexivity | reflexivity].
Qed.

(** X14. Without a token no request is sent: when the authenticator fails,
    [getSignedUploadUrls] and [completeUpload] return its error as it is and
    the zero result, after the token request alone (and [completeUpload] has
    allocated no buffer). *)
Theorem no_request_without_a_token
    (job : uploadJob) (firstPart parts : Z) (s : State W) (e : error) :
  (GetToken "data:write data:read" (world s)).1 = inr e ->
  result_of (getSignedUploadUrls job firstPart parts s)
  = (zero_signedUploadUrls, Some e) /\
  trace_of (getSignedUploadUrls job firstPart parts s)
  = [EvToken "data:write data:read"] /\
  result_of (completeUpload job s) = (zero_UploadResult, Some e) /\
  trace_of (completeUpload job s) = [EvToken "data:write data:read"] /\
  heap (state_of (completeUpload job s)) = heap s.
Proof.
  intros Htok.
  unfold getSignedUploadUrls, completeUpload, authenticate, bind, ret,
    result_of, trace_of, state_of.
  destruct (GetToken "data:write data:read" (world s)) as [[bearer|e'] w];
    simpl in Htok; [discriminate |].
  injection Htok as ->. repeat split.
Qed.

(** X15. An answer with a status other than 200 to a request for signed
    URLs or to a completion request is an error that quotes the status and
    the body, and comes with the zero result: the body is not decoded. *)
Theorem answer_other_than_200
    (job : uploadJob) (firstPart parts : Z) (s : State W)
    (req : Request) (payload : list byte) (n : nat) (response : Response) :
  StatusCode response <> 200 ->
  let quoted := errorString ("[" +:+ Itoa (StatusCode response) +:+ "] " +:+
                             string_of_list_byte (Content response)) in
  (In (EvHttp req payload n (inl response))
      (trace_of (getSignedUploadUrls job firstPart parts s)) ->
   result_of (getSignedUploadUrls job firstPart parts s)
   = (zero_signedUploadUrls, Some quoted)) /\
  (In (EvHttp req payload n (inl response))
      (trace_of (completeUpload job s)) ->
   result_of (completeUpload job s) = (zero_UploadResult, Some quoted)).
Proof.
  intros Hst quoted. subst quoted. split; intros Hin.
  - revert Hin.
    unfold getSignedUploadUrls, authenticate, http_NewRequest, bind, ret,
      trace_of, result_of.
    destruct (GetToken "data:write data:read" (world s)) as [[bearer|e] w];
      [| simpl; intros [Hin | []]; discriminate Hin].
    cbv beta iota.
    destruct (NewRequest_err "GET" (getSignedS3UploadPath job)) as [e|];
      [simpl; intros [Hin | []]; discriminate Hin |].
    cbv beta iota. rewrite Client_Do_unfold. cbv zeta.
    set (rq := with_Query _ _). set (r := Transport rq _ _).
    destruct r.1.2 as [resp|e] eqn:Hr; simpl.
    + destruct (decide (StatusCode resp = http_StatusOK)) as [Hok|Hno]; simpl.
      * destruct (Decode_signedUploadUrls resp); simpl;
          intros [Hin | [Hin | []]]; try discriminate Hin;
          inversion Hin; subst; contradiction.
      * intros [Hin | [Hin | []]]; [discriminate Hin |].
        inversion Hin; subst. reflexivity.
    + intros [Hin | [Hin | []]]; [discriminate Hin |].
      inversion Hin.
  - destruct (completeUpload_trace job s)
      as [[Ht _] | (bearer & req' & n' & res' & _ & Ht & _ & _ & _ & _ & _ & _ & He & Hz)];
      rewrite Ht in Hin; simpl in Hin.
    { destruct Hin as [Hin | []]. discriminate Hin. }
    destruct Hin as [Hin | [Hin | []]]; [discriminate Hin |].
    inversion Hin; subst req' payload n' res'. clear Hin.
    destruct (decide (StatusCode response = http_StatusOK)) as [Hok|_];
      [contradiction |].
    destruct (result_of (completeUpload job s)) as [r o]. simpl in He, Hz.
    subst r o. reflexivity.
Qed.

(** X16. [uploadChunk] succeeds exactly when its one request is answered
    200, whatever the body of the answer; it sends at most one request, and
    asks for no token. *)
Theorem uploadChunk_succeeds_iff (url : string) (buffer : nat) (s : State W) :
  let a := uploadChunk url buffer s in
  ((result_of a).2 = None <->
   exists req payload n response,
     trace_of a = [EvHttp req payload n (inl response)] /\
     StatusCode response = 200) /\
  (length (trace_of a) <= 1)%nat /\
  Forall (fun ev => match ev with EvToken _ => False | _ => True end) (trace_of a).
Proof.
  intros a. subst a.
  destruct (uploadChunk_trace_cases url buffer s)
    as [[Ht Hr] | (n & res & Ht & Hr)]; rewrite Ht.
  - split; [| split; [simpl; lia | constructor]].
    split; [intros Hn; contradiction |].
    intros (req & payload & n & response & Hx & _). discriminate Hx.
  - split; [| split; [simpl; lia | repeat constructor]].
    rewrite Hr. unfold outcome_error.
    split.
    + destruct res as [response|e]; [| discriminate].
      destruct (decide (StatusCode response = http_StatusOK)) as [Hok|];
        [| discriminate].
      intros _. eexists _, _, _, _. split; [reflexivity | exact Hok].
    + intros (req & payload & n' & response & Hx & Hok).
      injection Hx as _ _ _ ->.
      destruct (decide (StatusCode response = http_StatusOK)) as [|Hno];
        [reflexivity | contradiction].
Qed.

End Outcomes.

Lemma uploadFile_no_completion_after_a_failure_witness :
  let job := Scripted.small_job in
  let s := Scripted.start Scripted.no_upload in
  round_trips_of (trace_of (uploadFile job s))
  = [("GET", 200); ("PUT", 500); ("PUT", 500); ("PUT", 500)] /\
  Forall (fun ev => ~ is_completion ev) (trace_of (uploadFile job s)).
Proof.
  intros job s. split; [vm_compute; reflexivity |].
  apply (uploadFile_no_completion_after_a_failure job s
           (list_byte_of_string "abc")
           (chunk_failure "u1" (errorString "[500] boom")));
    vm_compute; reflexivity.
Defined.

Lemma uploadFile_without_batches_witness :
  let s := Scripted.start (Scripted.make [(O, Scripted.ok "object-id")] 0 "") in
  round_trips_of (trace_of (uploadFile Scripted.idle_job s)) = [("POST", 200)] /\
  batch_requests (trace_of (uploadFile Scripted.idle_job s)) = [] /\
  reads_then (trace_of (uploadFile Scripted.idle_job s)) = [].
Proof.
  intros s. split; [vm_compute; reflexivity |].
  apply (uploadFile_without_batches Scripted.idle_job s []); [reflexivity |].
  simpl. lia.
Defined.

Lemma uploadFile_error_is_the_completion_error_witness :
  let s := Scripted.start Scripted.down_completion in
  let e := complete_failure (errorString "[500] third") in
  (result_of (uploadFile Scripted.small_job s)).1.2 = Some e /\
  (result_of (uploadFile Scripted.small_job s)).1.1 = zero_UploadResult /\
  exists cause,
    errors_Unwrap e = Some cause /\
    Error e = "Error completing the upload:" +:+ newline +:+ Error cause.
Proof.
  intros s e.
  assert (He : (result_of (uploadFile Scripted.small_job s)).1.2 = Some e)
    by (vm_compute; reflexivity).
  assert (Hopen : Open (fileToUpload Scripted.small_job) (world s)
                  = inl (list_byte_of_string "abc")) by reflexivity.
  destruct (uploadFile_error_is_the_completion_error Scripted.small_job s
              (list_byte_of_string "abc") e Hopen He)
    as (Hz & cause & Hu & Hm & _).
  split; [exact He |]. split; [exact Hz |].
  exists cause. split; assumption.
Defined.

Lemma completeUpload_request_witness :
  let s := Scripted.start (Scripted.make [(O, Scripted.ok "object-id")] 0 "") in
  exists req n res,
    In (EvHttp req (Scripted.marshal "K" 3040870400) n res)
       (trace_of (completeUpload Scripted.keyed_job s)) /\
    Method req = "POST" /\
    ContentLength req = 27 /\
    Values_Get (Header req) "Authorization" = "Bearer token" /\
    Values_Get (Header req) "Content-Type" = "application/json" /\
    Values_Get (Header req) "x-ads-meta-Content-Type" = "application/octet-stream".
Proof.
  intros s.
  evar (req : Request). evar (n : nat). evar (res : (Response + error)%type).
  assert (HIn : In (EvHttp req (Scripted.marshal "K" 3040870400) n res)
                   (trace_of (completeUpload Scripted.keyed_job s)))
    by (subst req n res; right; left; reflexivity).
  destruct (completeUpload_request Scripted.keyed_job s req _ n res HIn)
    as (Hm & _ & _ & Hl & (bearer & Hb & Ha) & Hc & Hx & _).
  exists req, n, res.
  split; [exact HIn |]. split; [exact Hm |].
  split; [rewrite Hl; vm_compute; reflexivity |].
  split; [injection Hb as <-; exact Ha |].
  split; assumption.
Defined.

Lemma no_request_without_a_token_witness :
  let s := Scripted.start Scripted.no_token in
  let e := errorString "401 Unauthorized" in
  result_of (getSignedUploadUrls Scripted.small_job 1 1 s)
  = (zero_signedUploadUrls, Some e) /\
  trace_of (getSignedUploadUrls Scripted.small_job 1 1 s)
  = [EvToken "data:write data:read"] /\
  result_of (completeUpload Scripted.small_job s) = (zero_UploadResult, Some e) /\
  trace_of (completeUpload Scripted.small_job s)
  = [EvToken "data:write data:read"] /\
  heap (state_of (completeUpload Scripted.small_job s)) = heap s.
Proof.
  intros s e.
  apply (no_request_without_a_token Scripted.small_job 1 1 s e). reflexivity.
Defined.

Lemma answer_other_than_200_witness :
  let s := Scripted.start Scripted.no_urls in
  result_of (getSignedUploadUrls Scripted.small_job 1 1 s)
  = (zero_signedUploadUrls, Some (errorString "[500] boom")).
Proof.
  intros s.
  evar (req : Request).
  apply (proj1 (answer_other_than_200 Scripted.small_job 1 1 s req [] O
                  {| StatusCode := 500; Content := list_byte_of_string "boom";
                     ReadErr := None |} ltac:(discriminate))).
  subst req. right. left. reflexivity.
Defined.

(** ** Headers *)

(** X17. The round trip of [addOrSetHeader]: after it, [Header.Get] of the
    key gives the value, and the value is the only one of the key, whether
    the key had values or not; unless the first value of the key was the
    empty string. Nothing else of the request changes. *)
Theorem addOrSetHeader_get (req : Request) (key value : string) :
  (forall rest, Header req !! key <> Some ("" :: rest)) ->
  let req' := addOrSetHeader req key value in
  Values_Get (Header req') key = value /\
  Header req' !! key = Some [value] /\
  Method req' = Method req /\ URL req' = URL req /\ Query req' = Query req /\
  ContentLength req' = ContentLength req /\ Body req' = Body req.
Proof.
  intros Hne req'. subst req'. unfold addOrSetHeader, Values_Get.
  destruct (Header req !! key) as [[|x rest]|] eqn:Hk.
  - destruct (decide ("" = "")) as [_|Hx]; [| contradiction].
    simpl. unfold Values_Add. rewrite Hk. simpl.
    rewrite lookup_insert_eq. repeat split.
  - destruct (decide (x = "")) as [->|Hx].
    + exfalso. apply (Hne rest). reflexivity.
    + simpl. unfold Values_Set. rewrite lookup_insert_eq. repeat split.
  - destruct (decide ("" = "")) as [_|Hx]; [| contradiction].
    simpl. unfold Values_Add. rewrite Hk. simpl.
    rewrite lookup_insert_eq. repeat split.
Qed.

(** X18. A header whose first value for the key is the empty string keeps
    it: [Header.Get] takes the key for absent, the value is appended, and
    [Header.Get] still gives the empty string. *)
Theorem addOrSetHeader_after_an_empty_value
    (req : Request) (key value : string) (rest : list string) :
  Header req !! key = Some ("" :: rest) ->
  let req' := addOrSetHeader req key value in
  Header req' !! key = Some ("" :: rest ++ [value]) /\
  Values_Get (Header req') key = "".
Proof.
  intros Hk req'. subst req'. unfold addOrSetHeader, Values_Get. rewrite Hk.
  destruct (decide ("" = "")) as [_|Hx]; [| contradiction].
  simpl. unfold Values_Add. rewrite Hk. simpl.
  rewrite lookup_insert_eq. split; reflexivity.
Qed.

Lemma addOrSetHeader_get_witness :
  let req' := addOrSetHeader (addOrSetHeader Scripted.bare_request "Accept" "text/plain")
                "Accept" "application/json" in
  Values_Get (Header req') "Accept" = "application/json" /\
  Header req' !! "Accept" = Some ["application/json"].
Proof.
  intros req'.
  destruct (addOrSetHeader_get (addOrSetHeader Scripted.bare_request "Accept" "text/plain")
              "Accept" "application/json") as (Hg & Hl & _).
  { intros rest. vm_compute. discriminate. }
  split; assumption.
Defined.

Lemma addOrSetHeader_after_an_empty_value_witness :
  let req' := addOrSetHeader Scripted.blank_request "Accept" "application/json" in
  Header req' !! "Accept" = Some [""; "application/json"] /\
  Values_Get (Header req') "Accept" = "".
Proof.
  intros req'.
  apply (addOrSetHeader_after_an_empty_value Scripted.blank_request "Accept"
           "application/json" []).
  reflexivity.
Defined.

(** ** An empty file *)

Section EmptyFile.

Context {W : Type} `{Externals W}.

Lemma uploadParts_empty (urls : list string) :
  forall file s,
    contents file = [] ->
    let a := uploadParts urls file s in
    Forall (fun ev => http_with "PUT" ev = None) (trace_of a) /\
    bytes_read (trace_of a) = [] /\
    contents (result_of a).2 = [].
Proof.
  induction urls as [|url urls IH]; intros file s Hc a; subst a.
  { rewrite uploadParts_nil, result_of_mk, trace_of_mk.
    split; [constructor |]. split; [reflexivity | exact Hc]. }
  rewrite uploadParts_cons. cbv zeta.
  destruct (File_Read_cases file defaultSize s) as (_ & Hcases).
  cbv zeta in Hcases. rewrite Hc in Hcases.
  assert (Hd : takeZ defaultSize (dropZ (offset file) (@nil byte)) = [])
    by reflexivity.
  rewrite Hd in Hcases.
  destruct Hcases as [(msg & Hr & Ht) | [(_ & Hr & Ht) | (Hne & _)]];
    [| | contradiction]; rewrite Hr, Ht; cbn [fst snd].
  - unfold read_exit, is_EOF. cbv beta iota.
    rewrite result_of_mk, trace_of_mk. cbn [fst snd].
    split; [repeat constructor |]. split; [reflexivity | exact Hc].
  - unfold read_exit, is_EOF. cbv beta iota.
    change (0 <? lenZ (@nil byte)) with false. cbv beta iota.
    destruct (IH file (state_of (File_Read file defaultSize s)) Hc)
      as (Hput & Hbytes & Hcont).
    rewrite result_of_mk, trace_of_mk.
    split; [constructor; [reflexivity | exact Hput] |].
    split; [| exact Hcont].
    change (EvRead (offset file) [] (Some io_EOF) :: ?t)
      with ([EvRead (offset file) [] (Some io_EOF)] ++ t).
    rewrite bytes_read_app, Hbytes. reflexivity.
Qed.

Lemma get_event_no_put (job : uploadJob) (fp parts : Z) (ev : Event) :
  get_event job fp parts ev -> http_with "PUT" ev = None.
Proof.
  destruct ev as [| req payload n res | |]; simpl; try reflexivity.
  intros (Hm & _). unfold http_with. rewrite Hm.
  destruct (decide ("GET" = "PUT")) as [Hx|]; [discriminate Hx | reflexivity].
Qed.

Lemma post_event_no_put (job : uploadJob) (ev : Event) :
  post_event job ev -> http_with "PUT" ev = None.
Proof.
  destruct ev as [| req payload n res | |]; simpl; try reflexivity.
  intros (Hm & _). unfold http_with. rewrite Hm.
  destruct (decide ("POST" = "PUT")) as [Hx|]; [discriminate Hx | reflexivity].
Qed.

Lemma batches_empty (n : nat) :
  forall i pc job file s,
    contents file = [] ->
    let b := batches n i pc job file s in
    Forall (fun ev => http_with "PUT" ev = None) (trace_of b) /\
    bytes_read (trace_of b) = [].
Proof.
  induction n as [|n IH]; intros i pc job file s Hc b; subst b.
  { split; [constructor | reflexivity]. }
  rewrite batches_S. cbv zeta.
  pose proof (retry_get_events job (int_add (int_mul i maxParts) 1)
                (getParts job pc) s) as Hg.
  set (g := retry_Do 3 (3 * time_Second) _ s) in *.
  assert (Hgp : Forall (fun ev => http_with "PUT" ev = None) (trace_of g))
    by (eapply Forall_impl; [exact Hg | intros ev; apply get_event_no_put]).
  assert (Hgb : bytes_read (trace_of g) = []).
  { apply bytes_read_none. eapply Forall_impl; [exact Hg |].
    intros ev. apply get_event_no_read. }
  destruct (result_of g) as [u|e].
  2: { rewrite trace_of_mk. split; assumption. }
  destruct (uploadParts_empty (Urls u) file (state_of g) Hc)
    as (Hup & Hub & Hcont).
  set (up := uploadParts (Urls u) file (state_of g)) in *.
  destruct ((result_of up).1).
  - rewrite trace_of_mk. split.
    + apply Forall_app. split; assumption.
    + rewrite bytes_read_app, Hgb, Hub. reflexivity.
  - rewrite trace_of_mk.
    match goal with
    | |- context [batches n ?i' ?pc' ?job' ?f' ?s'] =>
        destruct (IH i' pc' job' f' s' Hcont) as [Hrest Hrb]
    end.
    split.
    + apply Forall_app. split; [exact Hgp |].
      apply Forall_app. split; assumption.
    + rewrite !bytes_read_app, Hgb, Hub, Hrb. reflexivity.
Qed.

Lemma transfers_none (tr : list Event) :
  Forall (fun ev => http_with "PUT" ev = None) tr -> transfers tr = [].
Proof.
  unfold transfers.
  induction 1 as [|ev tr' Hev _ IH]; [reflexivity |].
  destruct ev as [| req payload n res | |];
    [exact IH | | exact IH | exact IH].
  unfold http_with in Hev. cbn [omap list_omap].
  destruct (decide (Method req = "PUT")); [discriminate Hev | exact IH].
Qed.

(** X19. The upload of an empty file sends no chunk: whatever signed URLs
    are issued, every read finds the end of the file (or fails), and no PUT
    is made. *)
Theorem uploadFile_empty_file (job : uploadJob) (s : State W) :
  Open (fileToUpload job) (world s) = inl [] ->
  let tr := trace_of (uploadFile job s) in
  Forall (fun ev => http_with "PUT" ev = None) tr /\
  bytes_read tr = [] /\
  transfers tr = [].
Proof.
  intros Hopen tr. subst tr.
  assert (Hmain : Forall (fun ev => http_with "PUT" ev = None)
                    (trace_of (uploadFile job s)) /\
                  bytes_read (trace_of (uploadFile job s)) = []).
  { rewrite uploadFile_unfold, Hopen. cbv zeta.
    destruct (batches_empty (Z.to_nat (numberOfBatches job)) 0 0 job
                {| contents := []; offset := 0 |} s eq_refl) as [Hb Hbb].
    set (b := batches _ 0 0 job _ s) in *.
    destruct ((result_of b).1.1).
    - rewrite trace_of_mk. split; assumption.
    - rewrite trace_of_mk.
      pose proof (retry_complete_events (result_of b).1.2 (state_of b)) as Hf.
      split.
      + apply Forall_app. split; [exact Hb |].
        eapply Forall_impl; [exact Hf | intros ev; apply post_event_no_put].
      + rewrite bytes_read_app, Hbb.
        apply bytes_read_none. eapply Forall_impl; [exact Hf |].
        intros ev. apply post_event_no_read. }
  destruct Hmain as [Hput Hbytes].
  split; [exact Hput |]. split; [exact Hbytes |].
  apply transfers_none. exact Hput.
Qed.

End EmptyFile.

Lemma uploadFile_empty_file_witness :
  let s := Scripted.start Scripted.empty_file in
  let tr := trace_of (uploadFile Scripted.empty_job s) in
  round_trips_of tr = [("GET", 200); ("POST", 200)] /\
  (Forall (fun ev => http_with "PUT" ev = None) tr /\
   bytes_read tr = [] /\ transfers tr = []).
Proof.
  intros s tr. split; [vm_compute; reflexivity |].
  apply (uploadFile_empty_file Scripted.empty_job s). reflexivity.
Defined.

(** ** Listing and downloading objects *)

Section ObjectsProperties.

Context {W : Type} `{Externals W}.
Context {BucketContent : Type} `{ObjectExternals BucketContent}.

Lemma Header_Set_empty (req : Request) (key value : string) :
  Header req = ∅ -> Header_Set req key value = with_Header req {[key := [value]]}.
Proof.
  intros Hh. unfold Header_Set, Values_Set. rewrite Hh, insert_empty.
  reflexivity.
Qed.

(** [downloadObjectUsingSignedUrl] in closed form. *)
Lemma downloadObjectUsingSignedUrl_unfold (sd : signedDownloadUrl) (s : State W) :
  downloadObjectUsingSignedUrl sd s =
    match NewRequest_err "GET" (Url sd) with
    | Some e => (([], Some e), s, [])
    | None =>
        let r := Transport (download_request sd) [] (world s) in
        (match r.1.2 with
         | inr e => ([], Some e)
         | inl response =>
             if decide (StatusCode response = http_StatusOK)
             then match ReadErr response with
                  | Some e => (Content response, Some e)
                  | None =>
                      if decide (lenZ (Content response) = Size sd)
                      then (Content response, None)
                      else (Content response,
                            Some (errors_New
                                    ("the file size doesn't match, expected " +:+
                                     Itoa (Size sd) +:+ ", but received " +:+
                                     Itoa (lenZ (Content response)))))
                  end
             else ([], Some (status_error response))
         end,
         {| world := r.2; heap := heap s |},
         [EvHttp (download_request sd) [] r.1.1 r.1.2])
    end.
Proof.
  unfold downloadObjectUsingSignedUrl, http_NewRequest, bind, ret.
  destruct (NewRequest_err "GET" (Url sd)) as [e|]; [reflexivity |].
  cbv beta iota. rewrite Client_Do_unfold. cbv zeta. simpl.
  change {| Method := "GET"; URL := Url sd; Query := URL_Query (Url sd);
            Header := ∅; ContentLength := 0; Body := None |}
    with (download_request sd).
  destruct (Transport (download_request sd) [] (world s)) as [[n [response|e]] w];
    simpl; [| reflexivity].
  destruct (decide (StatusCode response = http_StatusOK)); simpl;
    [| reflexivity].
  destruct (ReadErr response); simpl; [reflexivity |].
  destruct (decide (lenZ (Content response) = Size sd)); reflexivity.
Qed.

(** X20. A signed download succeeds exactly when its one request is
    answered 200 with a body that is read to its end and has the declared
    size; the bytes returned are then this body. *)
Theorem downloadObjectUsingSignedUrl_succeeds_iff
    (sd : signedDownloadUrl) (s : State W) :
  let a := downloadObjectUsingSignedUrl sd s in
  (result_of a).2 = None <->
  exists n response,
    trace_of a = [EvHttp (download_request sd) [] n (inl response)] /\
    StatusCode response = 200 /\
    ReadErr response = None /\
    lenZ (Content response) = Size sd /\
    (result_of a).1 = Content response.
Proof.
  intros a. subst a. rewrite downloadObjectUsingSignedUrl_unfold.
  destruct (NewRequest_err "GET" (Url sd)) as [e|].
  { rewrite result_of_mk, trace_of_mk. simpl. split; [discriminate |].
    intros (n & response & Hx & _). discriminate Hx. }
  cbv zeta. rewrite result_of_mk, trace_of_mk.
  destruct (Transport (download_request sd) [] (world s)) as [[n [response|e]] w];
    cbn [fst snd].
  2: { split; [discriminate |].
       intros (n' & response & Hx & _). discriminate Hx. }
  destruct (decide (StatusCode response = http_StatusOK)) as [Hok|Hno].
  2: { cbn [fst snd]. split; [discriminate |].
       intros (n' & response' & Hx & Hst & _).
       injection Hx as _ <-. contradiction. }
  destruct (ReadErr response) as [e|] eqn:Hrd.
  { cbn [fst snd]. split; [discriminate |].
    intros (n' & response' & Hx & _ & Hr & _).
    injection Hx as _ <-. congruence. }
  destruct (decide (lenZ (Content response) = Size sd)) as [Hsz|Hsz];
    cbn [fst snd].
  - split; [| reflexivity]. intros _.
    exists n, response. repeat split; assumption.
  - split; [discriminate |].
    intros (n' & response' & Hx & _ & _ & Hl & _).
    injection Hx as _ <-. contradiction.
Qed.

(** X21. The bytes of an answer that is not 200 are not returned as the
    object: the result is then empty, with the error that quotes the status
    and the body; a failure of the transport is returned as it is; no
    request is made when the URL is refused; and the one request that is
    made has no header and no payload. *)
Theorem downloadObjectUsingSignedUrl_no_bytes_of_an_error
    (sd : signedDownloadUrl) (s : State W) :
  let a := downloadObjectUsingSignedUrl sd s in
  (forall req payload n response,
     In (EvHttp req payload n (inl response)) (trace_of a) ->
     StatusCode response <> 200 ->
     result_of a = ([], Some (status_error response))) /\
  (forall req payload n e,
     In (EvHttp req payload n (inr e)) (trace_of a) ->
     result_of a = ([], Some e)) /\
  (forall e, NewRequest_err "GET" (Url sd) = Some e ->
     result_of a = ([], Some e) /\ trace_of a = []) /\
  Forall (fun ev => match ev with
                    | EvHttp req payload _ _ =>
                        req = download_request sd /\ payload = [] /\
                        Header req = ∅
                    | _ => False
                    end) (trace_of a).
Proof.
  intros a. subst a. rewrite downloadObjectUsingSignedUrl_unfold.
  destruct (NewRequest_err "GET" (Url sd)) as [e|].
  { rewrite result_of_mk, trace_of_mk.
    split; [intros ? ? ? ? []|]. split; [intros ? ? ? ? []|].
    split; [| constructor]. intros e' [= <-]. split; reflexivity. }
  cbv zeta. rewrite result_of_mk, trace_of_mk.
  destruct (Transport (download_request sd) [] (world s)) as [[n res] w];
    cbn [fst snd].
  split; [| split; [| split]].
  - intros req payload n' response [Hin | []] Hst.
    injection Hin as _ _ _ ->.
    destruct (decide (StatusCode response = http_StatusOK)); [contradiction |].
    reflexivity.
  - intros req payload n' e [Hin | []]. injection Hin as _ _ _ ->. reflexivity.
  - intros e He. discriminate He.
  - repeat constructor.
Qed.

(** [getSignedDownloadUrl] in closed form. *)
Lemma getSignedDownloadUrl_unfold (path bucketKey objectName token : string)
    (s : State W) :
  getSignedDownloadUrl path bucketKey objectName token s =
    match NewRequest_err "GET" (signed_download_url path bucketKey objectName) with
    | Some e => ((zero_signedDownloadUrl, Some e), s, [])
    | None =>
        let req := signed_download_request path bucketKey objectName token in
        let r := Transport req [] (world s) in
        (match r.1.2 with
         | inr e => (zero_signedDownloadUrl, Some e)
         | inl response =>
             if decide (StatusCode response = http_StatusOK)
             then Decode_signedDownloadUrl response
             else (zero_signedDownloadUrl, Some (status_error response))
         end,
         {| world := r.2; heap := heap s |},
         [EvHttp req [] r.1.1 r.1.2])
    end.
Proof.
  unfold getSignedDownloadUrl, http_NewRequest, bind, ret.
  change (path +:+ "/" +:+ bucketKey +:+ "/objects/" +:+ objectName +:+
          "/signeds3download")
    with (signed_download_url path bucketKey objectName).
  destruct (NewRequest_err "GET" (signed_download_url path bucketKey objectName))
    as [e|]; [reflexivity |].
  cbv beta iota. rewrite Header_Set_empty by reflexivity.
  rewrite Client_Do_unfold. cbv zeta. simpl.
  change (with_Header _ _)
    with (signed_download_request path bucketKey objectName token).
  destruct (Transport _ [] (world s)) as [[n [response|e]] w];
    simpl; [| reflexivity].
  destruct (decide (StatusCode response = http_StatusOK)); simpl;
    [| reflexivity].
  destruct (Decode_signedDownloadUrl response). reflexivity.
Qed.

(** X22. The request for a signed download URL: one GET to
    [<path>/<bucketKey>/objects/<objectName>/signeds3download] with the
    header [Authorization: Bearer <token>] and nothing else; an answer other
    than 200 gives the error that quotes the status and the body, and the
    zero result; an answer of 200 gives what the decoder gives. *)
Theorem getSignedDownloadUrl_request
    (path bucketKey objectName token : string) (s : State W)
    (req : Request) (payload : list byte) (n : nat) (res : Response + error) :
  In (EvHttp req payload n res)
     (trace_of (getSignedDownloadUrl path bucketKey objectName token s)) ->
  Method req = "GET" /\
  URL req = path +:+ "/" +:+ bucketKey +:+ "/objects/" +:+ objectName +:+
            "/signeds3download" /\
  Values_Get (Header req) "Authorization" = "Bearer " +:+ token /\
  Header req = {["Authorization" := ["Bearer " +:+ token]]} /\
  Query req = URL_Query (URL req) /\
  Body req = None /\ payload = [] /\
  trace_of (getSignedDownloadUrl path bucketKey objectName token s)
  = [EvHttp req payload n res] /\
  (forall response, res = inl response -> StatusCode response <> 200 ->
     result_of (getSignedDownloadUrl path bucketKey objectName token s)
     = (zero_signedDownloadUrl, Some (status_error response))) /\
  (forall response, res = inl response -> StatusCode response = 200 ->
     result_of (getSignedDownloadUrl path bucketKey objectName token s)
     = Decode_signedDownloadUrl response).
Proof.
  rewrite getSignedDownloadUrl_unfold.
  destruct (NewRequest_err "GET" _) as [e|].
  { rewrite trace_of_mk. intros []. }
  cbv zeta. rewrite trace_of_mk, result_of_mk.
  intros [Hin | []]. inversion Hin; subst req payload n res. clear Hin.
  split; [reflexivity |]. split; [reflexivity |].
  split.
  { unfold Values_Get, signed_download_request. simpl.
    rewrite lookup_singleton_eq. reflexivity. }
  do 5 (split; [reflexivity |]).
  split.
  - intros response -> Hst.
    destruct (decide (StatusCode response = http_StatusOK)); [contradiction |].
    reflexivity.
  - intros response -> Hst.
    destruct (decide (StatusCode response = http_StatusOK)); [| contradiction].
    reflexivity.
Qed.

(** [DownloadObject] step by step. *)
Lemma DownloadObject_unfold (a : BucketAPI) (bucketKey objectName : string)
    (s : State W) :
  DownloadObject a bucketKey objectName s =
    let t := GetToken "data:read" (world s) in
    let s1 := {| world := t.2; heap := heap s |} in
    match t.1 with
    | inr e => (([], Some e), s1, [EvToken "data:read"])
    | inl bearer =>
        let g := getSignedDownloadUrl (BaseUrl a) bucketKey objectName
                   (AccessToken bearer) s1 in
        match (result_of g).2 with
        | Some e => (([], Some e), state_of g, EvToken "data:read" :: trace_of g)
        | None =>
            let d := downloadObjectUsingSignedUrl (result_of g).1 (state_of g) in
            (result_of d, state_of d,
             EvToken "data:read" :: trace_of g ++ trace_of d)
        end
    end.
Proof.
  unfold DownloadObject, Authenticator_GetToken, bind, ret, result_of,
    state_of, trace_of.
  destruct (GetToken "data:read" (world s)) as [[bearer|e] w]; cbn [fst snd];
    [| reflexivity].
  destruct (getSignedDownloadUrl _ _ _ _ _) as [[[d [e|]] s2] t2]; cbn [fst snd].
  - rewrite app_nil_r. reflexivity.
  - destruct (downloadObjectUsingSignedUrl d s2) as [[r s3] t3]. reflexivity.
Qed.



(** X23. A download that succeeds: one token, the signed URL asked of the
    API with it, the object fetched from the URL that the answer decodes to,
    and as many bytes returned as the answer declares. *)
Theorem DownloadObject_success (a : BucketAPI) (bucketKey objectName : string)
    (s : State W) :
  let run := DownloadObject a bucketKey objectName s in
  (result_of run).2 = None ->
  exists bearer n1 response1 d n2 response2,
    (GetToken "data:read" (world s)).1 = inl bearer /\
    trace_of run =
      [EvToken "data:read";
       EvHttp (signed_download_request (BaseUrl a) bucketKey objectName
                 (AccessToken bearer)) [] n1 (inl response1);
       EvHttp (download_request d) [] n2 (inl response2)] /\
    StatusCode response1 = 200 /\
    Decode_signedDownloadUrl response1 = (d, None) /\
    StatusCode response2 = 200 /\
    (result_of run).1 = Content response2 /\
    lenZ (result_of run).1 = Size d.
Proof.
  intros run. subst run. rewrite DownloadObject_unfold. cbv zeta.
  destruct (GetToken "data:read" (world s)) as [[bearer|e] w]; cbn [fst snd].
  2: { rewrite result_of_mk. discriminate. }
  set (s1 := {| world := w; heap := heap s |}).
  pose proof (getSignedDownloadUrl_unfold (BaseUrl a) bucketKey objectName
                (AccessToken bearer) s1) as Hg.
  destruct (NewRequest_err "GET" _) as [e|].
  { rewrite Hg, !result_of_mk. cbn [fst snd]. rewrite result_of_mk. discriminate. }
  cbv zeta in Hg.
  set (r := Transport _ [] (world s1)) in Hg.
  destruct r as [[n1 res1] w1] eqn:Hr. cbn [fst snd] in Hg.
  rewrite Hg, !result_of_mk, !state_of_mk, !trace_of_mk.
  destruct res1 as [response1|e].
  2: { cbn [fst snd]. rewrite result_of_mk. discriminate. }
  destruct (decide (StatusCode response1 = http_StatusOK)) as [Hok1|].
  2: { cbn [fst snd]. rewrite result_of_mk. discriminate. }
  destruct (Decode_signedDownloadUrl response1) as [d [e|]] eqn:Hdec;
    cbn [fst snd].
  { rewrite result_of_mk. discriminate. }
  rewrite result_of_mk, trace_of_mk.
  rewrite downloadObjectUsingSignedUrl_unfold.
  destruct (NewRequest_err "GET" (Url d)) as [e|].
  { rewrite result_of_mk. discriminate. }
  cbv zeta. rewrite result_of_mk, trace_of_mk.
  destruct (Transport (download_request d) [] _) as [[n2 [response2|e]] w2];
    cbn [fst snd]; [| discriminate].
  destruct (decide (StatusCode response2 = http_StatusOK)) as [Hok2|];
    [| discriminate].
  destruct (ReadErr response2); [discriminate |].
  destruct (decide (lenZ (Content response2) = Size d)) as [Hsz|];
    [| discriminate].
  intros _. cbn [fst snd].
  exists bearer, n1, response1, d, n2, response2.
  split; [reflexivity |]. split; [reflexivity |].
  split; [exact Hok1 |]. split; [exact Hdec |]. split; [exact Hok2 |].
  split; [reflexivity | exact Hsz].
Qed.


(** [listObjects] in closed form. *)
Lemma listObjects_unfold (path bucketKey limit beginsWith startAt token : string)
    (s : State W) :
  listObjects path bucketKey limit beginsWith startAt token s =
    let url := objects_url path bucketKey in
    match NewRequest_err "GET" url with
    | Some e => ((zero_BucketContent, Some e), s, [])
    | None =>
        let q := URL_Query url in
        let q := if decide (String.length beginsWith = 0%nat) then q
                 else Values_Add q "beginsWith" beginsWith in
        let q := if decide (String.length limit = 0%nat) then q
                 else Values_Add q "limit" limit in
        let q := if decide (String.length startAt = 0%nat) then q
                 else Values_Add q "startAt" startAt in
        let req := {| Method := "GET"; URL := url; Query := q;
                      Header := {["Authorization" := ["Bearer " +:+ token]]};
                      ContentLength := 0; Body := None |} in
        let r := Transport req [] (world s) in
        (match r.1.2 with
         | inr e => (zero_BucketContent, Some e)
         | inl response =>
             if decide (StatusCode response = http_StatusOK)
             then Decode_BucketContent response
             else (zero_BucketContent, Some (status_error response))
         end,
         {| world := r.2; heap := heap s |},
         [EvHttp req [] r.1.1 r.1.2])
    end.
Proof.
  unfold listObjects, http_NewRequest, bind, ret.
  change (path +:+ "/" +:+ bucketKey +:+ "/objects")
    with (objects_url path bucketKey).
  destruct (NewRequest_err "GET" (objects_url path bucketKey)) as [e|];
    [reflexivity |].
  cbv beta iota zeta. rewrite Header_Set_empty by reflexivity.
  rewrite Client_Do_unfold. cbv zeta. simpl.
  unfold with_Header, with_Query. simpl.
  destruct (Transport _ [] (world s)) as [[n [response|e]] w];
    simpl; [| reflexivity].
  destruct (decide (StatusCode response = http_StatusOK)); simpl;
    [| reflexivity].
  destruct (Decode_BucketContent response). reflexivity.
Qed.

Lemma length_zero_empty (x : string) : String.length x = 0%nat <-> x = "".
Proof. destruct x; simpl; split; intros Hx; congruence. Qed.

(** One step of the query of a listing. *)
Lemma listing_step (q : gmap string (list string)) (key value : string) :
  let q' := if decide (String.length value = 0%nat) then q
            else Values_Add q key value in
  Values_of q' key = Values_of q key ++ list_parameter value /\
  (forall key', key <> key' -> q' !! key' = q !! key') /\
  (value = "" -> q' = q).
Proof.
  cbv zeta. unfold list_parameter.
  destruct (decide (String.length value = 0%nat)) as [Hl|Hl];
    rewrite length_zero_empty in Hl;
    destruct (decide (value = "")); try contradiction.
  - rewrite app_nil_r. repeat split.
  - split; [apply Values_of_Add |].
    split; [intros key' Hk; apply Values_Add_lookup_ne; exact Hk |].
    intros Hx. contradiction.
Qed.

Lemma Values_of_same (q q' : gmap string (list string)) (key : string) :
  q' !! key = q !! key -> Values_of q' key = Values_of q key.
Proof. intros Hq. unfold Values_of. rewrite Hq. reflexivity. Qed.

(** X25. The request of a listing: a GET to the objects of the bucket with
    the access token; each of [beginsWith], [limit] and [startAt] that is
    not empty is appended to the values that the URL has for the argument,
    an empty one adds nothing, and the other arguments of the URL are
    kept. *)
Theorem listObjects_request
    (path bucketKey limit beginsWith startAt token : string) (s : State W)
    (req : Request) (payload : list byte) (n : nat) (res : Response + error) :
  In (EvHttp req payload n res)
     (trace_of (listObjects path bucketKey limit beginsWith startAt token s)) ->
  let own := URL_Query (URL req) in
  Method req = "GET" /\
  URL req = path +:+ "/" +:+ bucketKey +:+ "/objects" /\
  Header req = {["Authorization" := ["Bearer " +:+ token]]} /\
  Values_Get (Header req) "Authorization" = "Bearer " +:+ token /\
  payload = [] /\
  Values_of (Query req) "beginsWith"
  = Values_of own "beginsWith" ++ list_parameter beginsWith /\
  Values_of (Query req) "limit" = Values_of own "limit" ++ list_parameter limit /\
  Values_of (Query req) "startAt"
  = Values_of own "startAt" ++ list_parameter startAt /\
  (beginsWith = "" -> Query req !! "beginsWith" = own !! "beginsWith") /\
  (limit = "" -> Query req !! "limit" = own !! "limit") /\
  (startAt = "" -> Query req !! "startAt" = own !! "startAt") /\
  (forall key, key <> "beginsWith" -> key <> "limit" -> key <> "startAt" ->
     Query req !! key = own !! key).
Proof.
  rewrite listObjects_unfold. cbv zeta.
  destruct (NewRequest_err "GET" _) as [e|].
  { rewrite trace_of_mk. intros []. }
  rewrite trace_of_mk. intros [Hin | []].
  inversion Hin; subst req payload n res. clear Hin. cbn [URL Method Header Query].
  set (own := URL_Query (objects_url path bucketKey)).
  destruct (listing_step own "beginsWith" beginsWith) as (Hb & Hbo & Hbe).
  cbv zeta in Hb, Hbo, Hbe.
  set (q1 := if decide (String.length beginsWith = 0%nat) then own else _) in *.
  destruct (listing_step q1 "limit" limit) as (Hl & Hlo & Hle).
  cbv zeta in Hl, Hlo, Hle.
  set (q2 := if decide (String.length limit = 0%nat) then q1 else _) in *.
  destruct (listing_step q2 "startAt" startAt) as (Hs & Hso & Hse).
  cbv zeta in Hs, Hso, Hse.
  set (q3 := if decide (String.length startAt = 0%nat) then q2 else _) in *.
  split; [reflexivity |]. split; [reflexivity |]. split; [reflexivity |].
  split; [unfold Values_Get; rewrite lookup_singleton_eq; reflexivity |].
  split; [reflexivity |].
  split.
  { rewrite <- Hb. apply Values_of_same.
    rewrite Hso, Hlo by discriminate. reflexivity. }
  split.
  { rewrite (Values_of_same own q1 "limit") in Hl by (apply Hbo; discriminate).
    rewrite <- Hl. apply Values_of_same. apply Hso. discriminate. }
  split.
  { rewrite Hs. f_equal. apply Values_of_same.
    rewrite Hlo, Hbo by discriminate. reflexivity. }
  split.
  { intros Hx. rewrite Hso, Hlo by discriminate. rewrite (Hbe Hx). reflexivity. }
  split.
  { intros Hx. rewrite Hso by discriminate. rewrite (Hle Hx).
    apply Hbo. discriminate. }
  split.
  { intros Hx. rewrite (Hse Hx). rewrite Hlo, Hbo by discriminate. reflexivity. }
  intros key H1 H2 H3.
  rewrite Hso, Hlo, Hbo by congruence. reflexivity.
Qed.

(** X26. A listing asks for one token, for the scope [data:read], and sends
    nothing without it; the request it then sends goes to the objects of
    the bucket under the base URL of the API, with the access token of this
    token. *)
Theorem ListObjects_request
    (a : BucketAPI) (bucketKey limit beginsWith startAt : string) (s : State W) :
  let run := ListObjects a bucketKey limit beginsWith startAt s in
  head (trace_of run) = Some (EvToken "data:read") /\
  (forall e, (GetToken "data:read" (world s)).1 = inr e ->
     result_of run = (zero_BucketContent, Some e) /\
     trace_of run = [EvToken "data:read"]) /\
  (forall req payload n res,
     In (EvHttp req payload n res) (trace_of run) ->
     exists bearer,
       (GetToken "data:read" (world s)).1 = inl bearer /\
       Values_Get (Header req) "Authorization"
       = "Bearer " +:+ AccessToken bearer /\
       URL req = BaseUrl a +:+ "/" +:+ bucketKey +:+ "/objects" /\
       trace_of run = [EvToken "data:read"; EvHttp req payload n res]).
Proof.
  intros run. subst run.
  unfold ListObjects, Authenticator_GetToken, bind, ret, result_of, trace_of.
  destruct (GetToken "data:read" (world s)) as [[bearer|e] w]; cbn [fst snd].
  2: { split; [reflexivity |].
       split; [intros e' [= <-]; split; reflexivity |].
       intros req payload n res [Hin | []]. discriminate Hin. }
  set (s1 := {| world := w; heap := heap s |}).
  pose proof (listObjects_request (BaseUrl a) bucketKey limit beginsWith startAt
                (AccessToken bearer) s1) as Hreq.
  pose proof (listObjects_unfold (BaseUrl a) bucketKey limit beginsWith startAt
                (AccessToken bearer) s1) as Hl.
  destruct (listObjects _ _ _ _ _ _ s1) as [[r s2] t2] eqn:Hrun.
  cbn [fst snd]. unfold trace_of in Hreq. cbn [snd] in Hreq.
  split; [reflexivity |].
  split; [intros e He; discriminate He |].
  intros req payload n res [Hin | Hin]; [discriminate Hin |].
  destruct (Hreq req payload n res Hin) as (_ & Hu & _ & Ha & _).
  exists bearer. split; [reflexivity |]. split; [exact Ha |].
  split; [exact Hu |].
  cbv zeta in Hl.
  destruct (NewRequest_err "GET" _) as [e|].
  { injection Hl as _ _ ->. destruct Hin. }
  injection Hl as _ _ ->.
  destruct Hin as [Hin | []]. rewrite Hin. reflexivity.
Qed.

End ObjectsProperties.

Lemma getSignedDownloadUrl_request_witness :
  let s := Scripted.start Scripted.download in
  let run := getSignedDownloadUrl "https://developer.api.autodesk.com/oss/v2/buckets"
               "bucket" "object" "token" s in
  exists req n res,
    trace_of run = [EvHttp req [] n res] /\
    URL req = "https://developer.api.autodesk.com/oss/v2/buckets/bucket/objects/object/signeds3download" /\
    Values_Get (Header req) "Authorization" = "Bearer token" /\
    Url (result_of run).1 = "https://cdn.example/object" /\
    Size (result_of run).1 = 3.
Proof.
  intros s run.
  evar (req : Request). evar (n : nat). evar (res : (Response + error)%type).
  assert (HIn : In (EvHttp req [] n res) (trace_of run))
    by (subst req n res; left; reflexivity).
  destruct (getSignedDownloadUrl_request
              "https://developer.api.autodesk.com/oss/v2/buckets" "bucket"
              "object" "token" s req [] n res HIn)
    as (_ & Hu & Ha & _ & _ & _ & _ & Ht & _).
  exists req, n, res.
  split; [exact Ht |]. split; [exact Hu |]. split; [exact Ha |].
  split; vm_compute; reflexivity.
Defined.

Lemma DownloadObject_success_witness :
  let run := DownloadObject Scripted.the_api "bucket" "object"
               (Scripted.start Scripted.download) in
  result_of run = (list_byte_of_string "abc", None) /\
  exists bearer n1 response1 d n2 response2,
    (GetToken "data:read" (world (Scripted.start Scripted.download))).1 = inl bearer /\
    trace_of run =
      [EvToken "data:read";
       EvHttp (signed_download_request (BaseUrl Scripted.the_api) "bucket"
                 "object" (AccessToken bearer)) [] n1 (inl response1);
       EvHttp (download_request d) [] n2 (inl response2)] /\
    StatusCode response1 = 200 /\
    Decode_signedDownloadUrl response1 = (d, None) /\
    StatusCode response2 = 200 /\
    (result_of run).1 = Content response2 /\
    lenZ (result_of run).1 = Size d.
Proof.
  intros run. split; [vm_compute; reflexivity |].
  apply (DownloadObject_success Scripted.the_api "bucket" "object"
           (Scripted.start Scripted.download)).
  vm_compute. reflexivity.
Defined.

Lemma listObjects_request_witness :
  let s := Scripted.start Scripted.listing in
  let run := listObjects "https://developer.api.autodesk.com/oss/v2/buckets"
               "bucket" "10" "" "a" "token" s in
  exists req n res,
    trace_of run = [EvHttp req [] n res] /\
    Query req !! "limit" = Some ["10"] /\
    Query req !! "beginsWith" = None /\
    Query req !! "startAt" = Some ["a"] /\
    Values_Get (Header req) "Authorization" = "Bearer token".
Proof.
  intros s run.
  evar (req : Request). evar (n : nat). evar (res : (Response + error)%type).
  assert (HIn : In (EvHttp req [] n res) (trace_of run))
    by (subst req n res; left; reflexivity).
  destruct (listObjects_request
              "https://developer.api.autodesk.com/oss/v2/buckets" "bucket"
              "10" "" "a" "token" s req [] n res HIn)
    as (_ & _ & _ & Ha & _).
  exists req, n, res.
  split; [reflexivity |].
  split; [vm_compute; reflexivity |]. split; [vm_compute; reflexivity |].
  split; [vm_compute; reflexivity | exact Ha].
Defined.

